(* ===== verification/_CoqProject ===== *)
-Q . S2P
Prelude.v
Float32.v
Board.v
FeatureGate.v
Hal.v
CanChannel.v
GpsParser.v
Battery.v
Printf.v
Carloop.v
GpsIngest.v
Slcan.v
ObdBlink.v
Minimal.v
