(* ===== verification/Prelude.v ===== *)
(** * A verification development of the Carloop library

    The Carloop library (src/src/carloop.h, src/src/carloop.cpp) drives
    the three subsystems of the Carloop board: a CAN transceiver, a GPS
    receiver and a battery-voltage divider.  The class template
    [Carloop<Config>] is parameterised by a board revision
    ([CarloopRevision2]); [begin] masks the requested features against the
    board's, powers the subsystems up, and starts a background thread that
    drains the GPS serial port into a TinyGPS++ parser under the parser's
    lock; [update] refreshes the cached battery voltage.  The example
    applications (src/examples/..., src/firmware/examples/...) use the
    library: an SLCAN bridge between USB serial and CAN, an OBD request
    state machine that blinks a LED, and two minimal reporting loops.

    ** Files, in dependency order

    - [Prelude] (this file): the [carloop_scope] notations, the 32-bit
      unsigned arithmetic of the ARM target ([wrap32], [sub32]: the
      [uint32_t] and [unsigned long] of the sources), the C conversion of
      a bit mask to [bool] ([flag_test]), the state monad [St] the methods
      are written in, exhaustive checks over integer ranges
      ([forall_range]), the closure [star] of a step relation, the
      [carloop] hint databases and the shared tactics.
    - [Float32]: IEEE-754 binary32 ([float] on the target) as Stdlib's
      [SpecFloat] at precision 24 and exponent bound 128, with the
      conversions [readBattery] performs and an exact rational reading.
    - [Board]: the configuration [CarloopRevision2] as a record
      [BoardConfig] (the template parameter [Config]), pins, levels, and
      the feature enumerations of both headers (src/src/carloop.h and the
      legacy src/carloop.h, in [Module Legacy]).
    - [FeatureGate]: [hasCAN], [hasGPS], [hasBattery] (src/src/carloop.cpp)
      and the theorems on the mask: each gate is the conjunction of the
      board's bit and the request's, unsupported bits are never active,
      the gate is monotone; the legacy enumerators are not flags.
    - [Hal]: the Particle HAL the library and the examples call (pins,
      ADC, [Serial], [Serial1], threads) as a record with an event log, and the equivalence
      [hal_equiv] that ignores the log, with its [Proper] instances.
    - [CanChannel]: [CANMessage], the class [CanChannel] of the driver's
      operations and [CanChannelLaws] of what the library relies on, with
      the instance [QueueChannel] (bounded receive and transmit queues).
    - [GpsParser]: the class [GpsParser] of TinyGPS++'s [encode] and
      counters, its laws, the class [GpsFix] of the location, date and
      time accessors the examples print, and the instance [LineParser].
    - [Battery]: [readBattery]'s conversion in binary32: bounds,
      monotonicity and error against the exact formula, decided on all
      4096 ADC codes.
    - [Printf]: [Serial.printf]'s conversions as character lists:
      [%0<w>x] and [%d] of unsigned values, [%<w>d] and [%0<w>d] of an
      [int], [%<w>.<p>f] of a float rounded half to even; the digits read
      back in any base (a Horner reading), and the widths of each
      conversion when the value fits.
    - [Carloop]: the class [Carloop<Config>] (src/src/carloop.cpp) in
      [Section Facade]: the object as a record, every method as a
      computation of [St World], and runs of method calls and inputs
      ([run_ops]); theorems on [begin]'s hardware calls and their order,
      the single GPS thread, the staging of [canSpeed], the battery cache
      and the power pins.  Proved against [CanChannelLaws] and
      [GpsParserLaws], not a particular driver.
    - [GpsIngest]: [receiveSerialChars] (the GPS thread) as a step
      relation interleaved with the UART and a foreground reader that
      uses [WITH_LOCK]: mutual exclusion, the lossless in-order ingest,
      the single-state snapshot of a locked reader, termination of the
      drain loop, progress.
    - [Slcan]: the SLCAN bridge (src/examples/socketcan_serial): the line
      parser, the command handlers, [hex2int], the frame printer and the
      receive loop; the echo round trip of a printed frame, the bound on
      [inputPos] in every run, the unsigned count, the speed table, the
      [opened()] guards, the drain of the receive queue, the extended
      frames the [t] format cannot carry; every frame [transmitMessage]
      builds is well formed whatever the host sends, and [hex2int] reads
      back every [%0<w>x]; a stream of printed lines sent back is
      transmitted frame by frame in order, and on the queue channel the
      frames that find the transmit queue full are dropped without a word
      to the host; a line longer than the buffer acts as its first 40
      characters; and the character-level parser refines the line
      protocol: a complete line has the effect [run_command] gives the
      command [decode_line] reads from it ([Command]: open, close, rate,
      frame, nothing), [hex2int] computing the reference digit table.
    - [ObdBlink]: the OBD request example (src/examples/obd_blink) in
      [Module Obd]: [setup], [loop] and the three states behind the
      function pointer [obdLoopFunction], with [millis()] as the uptime
      modulo 2^32; [loop] refines a three-state timer, the 100 ms window
      is measured correctly across the wrap, requests are at least 500 ms
      apart in every run; in [Module ObdQueue], on the queue channel, the
      reply check and a late reply that lights the LED for the next,
      unanswered request.
    - [Minimal]: the two minimal reporting examples
      (src/examples/carloop_minimal, src/firmware/examples) in [Module
      Minimal]: [setup], [loop], the frame counter [canMessageCount] with
      its [int] overflow as an error value, the one-second report timer
      ([printValuesAtInterval] and [setInterval]) and the values
      [printValues] reads, and the line each example writes with
      [printFloat] and [printDateTime]; the reports are at least 1000 ms
      apart in every run, the line has a fixed width when the values fit
      its columns, a valid longitude runs into the date, and, composing
      [Battery], [Carloop]'s cache and [printValues], every battery
      voltage reported in a run on revision 2 is the constructed value
      or within 31/13107200 V of the exact divider formula at a 12-bit
      code; in [Module
      MinimalQueue], the counter adds the queue length and overflows
      exactly past [INT_MAX].

    ** What is modelled and how

    Each C++ function is a Rocq definition of the same name.  Integers keep
    their width where it matters ([canSpeed] and [inputPos] are unsigned
    32-bit, [millis()] wraps at 2^32).  [float] arithmetic is exact IEEE
    binary32 rounding (round to nearest even), not real arithmetic.
    Collaborators that the repository only calls (the Particle HAL, the
    [CANChannel] driver, the TinyGPS++ parser) are modelled from their
    documented interface as classes with laws; the parts of the model that
    come from the specification and not from src/ are marked so in the
    map of PROJECT.json.  [Serial.printf]'s conversions are modelled by
    the characters they write ([Printf]).

    ** Bounds and fuel

    The ADC returns 12-bit codes, so the battery theorems are decided on
    the 4096 codes.  The SLCAN digit lemmas are decided on the 4096 11-bit
    identifiers, the 256 bytes and the lengths 0..8 a frame can have.
    [fill_data] runs at most 8 times ([len <= 8] is checked before the
    loop), so fuel 8 is exact; [num_digits] has fuel 64, enough for any
    value below 2^64 in any base, which covers every [int], [uint32_t]
    and rounded [%f] magnitude of the theorems; [receiveMessages]'s [while] loop is
    given fuel, and [loop_drains] shows that fuel equal to the number of
    queued frames empties the queue.  The GPS drain loop with [n] bytes
    buffered finishes in exactly [3n+1] steps.  The OBD receive loop is
    given fuel too; [wait_lights_led] shows fuel equal to the queue
    length drains it.

    ** Not modelled

    The USB serial port beyond [Serial.begin]: it is an ideal character
    stream, and the minimal examples' line is a function of the report
    rather than an output buffer.  NMEA decoding inside TinyGPS++: the
    fix it decodes is the interface [GpsFix].  [printFloat]'s [snprintf]
    of its format into 10 bytes is taken to fit, as it does for the
    widths 11 and 12 and precision 6 of the calls.
    Time does not pass inside one call of [loop]: every [millis()] of a
    call reads the same value.  The legacy header's [class CarloopClass]
    declares no behaviour (and a misnamed constructor), so only its
    enumeration is modelled.  The firmware example's [setup],
    [updateCanMessageCount], [printFloat] and [printDateTime] are the
    same code as carloop_minimal's and share their definitions.  The
    Particle HAL, the [CANChannel] driver and TinyGPS++ are not part of
    the repository: they are interfaces with laws, modelled from their
    documentation. *)

From Stdlib Require Export ZArith Lia.
From stdpp Require Export base list decidable.

Declare Scope carloop_scope.
Delimit Scope carloop_scope with cl.
Open Scope Z_scope.

Create HintDb carloop.
Create Rewrite HintDb carloop_rw.

(** ** Unsigned 32-bit arithmetic *)

(** The modulus of [uint32_t] and of [unsigned long] on the ARM target. *)
Definition modulus32 : Z := 2 ^ 32.

(** Conversion of a mathematical integer to [uint32_t]. *)
Definition wrap32 (z : Z) : Z := z mod modulus32.

(** [a - b] on [unsigned long]: the difference wraps around. *)
Definition sub32 (a b : Z) : Z := wrap32 (a - b).

(** [x] is a value of a 32-bit unsigned type. *)
Definition is_u32 (z : Z) : bool := (0 <=? z) && (z <? modulus32).

Notation "a -u b" := (sub32 a b) (at level 50, left associativity) : carloop_scope.

Lemma wrap32_range z : 0 <= wrap32 z < modulus32.
Proof. unfold wrap32, modulus32. apply Z.mod_pos_bound. lia. Qed.

Lemma wrap32_small z : 0 <= z < modulus32 -> wrap32 z = z.
Proof. unfold wrap32. apply Z.mod_small. Qed.

Lemma is_u32_spec z : is_u32 z = true <-> 0 <= z < modulus32.
Proof. unfold is_u32. rewrite andb_true_iff, Z.leb_le, Z.ltb_lt. tauto. Qed.

Lemma wrap32_is_u32 z : is_u32 (wrap32 z) = true.
Proof. apply is_u32_spec, wrap32_range. Qed.

(** The elapsed-time idiom [millis() - start]: when the clock has advanced
    by [d] ticks since [start] and [d] fits in 32 bits, the wrapped
    difference is exactly [d], whether or not the clock wrapped. *)
Lemma sub32_elapsed start d :
  0 <= start < modulus32 -> 0 <= d < modulus32 ->
  sub32 (wrap32 (start + d)) start = d.
Proof.
  intros Hs Hd. unfold sub32, wrap32.
  rewrite Zminus_mod_idemp_l.
  replace (start + d - start) with d by lia.
  apply Z.mod_small; exact Hd.
Qed.

(** [millis() - t] where both are readings of an uptime counter: the
    wrapped difference of the readings is the difference of the uptimes
    modulo 2^32, so it never exceeds the time that really passed, and it
    equals it when less than 2^32 ms passed. *)
Lemma sub32_wrap32 x y : sub32 (wrap32 x) (wrap32 y) = wrap32 (x - y).
Proof. unfold sub32, wrap32. now rewrite Zminus_mod_idemp_l, Zminus_mod_idemp_r. Qed.

Lemma sub32_wrap32_le x y : 0 <= x - y -> sub32 (wrap32 x) (wrap32 y) <= x - y.
Proof.
  intros H. rewrite sub32_wrap32. unfold wrap32, modulus32. apply Z.mod_le; lia.
Qed.

Lemma sub32_wrap32_eq x y : 0 <= x - y < modulus32 -> sub32 (wrap32 x) (wrap32 y) = x - y.
Proof. intros H. rewrite sub32_wrap32. now apply wrap32_small. Qed.

#[export] Hint Resolve wrap32_range wrap32_is_u32 : carloop.
#[export] Hint Rewrite wrap32_small using lia : carloop_rw.

(** ** Bit masks converted to [bool] *)

(** The C conversion of an integer to [bool]: non-zero is [true]. *)
Definition int_to_bool (z : Z) : bool := negb (z =? 0).

(** [(bool)(m & x)]. *)
Definition flag_test (m x : Z) : bool := int_to_bool (Z.land m x).

Lemma flag_test_pow2 m i : 0 <= i -> flag_test m (2 ^ i) = Z.testbit m i.
Proof.
  intros Hi. unfold flag_test, int_to_bool.
  destruct (Z.testbit m i) eqn:Hb.
  - apply negb_true_iff, Z.eqb_neq. intros H0.
    assert (Z.testbit (Z.land m (2 ^ i)) i = false) as Hf
      by (rewrite H0; apply Z.testbit_0_l).
    rewrite Z.land_spec, Z.pow2_bits_true, Hb in Hf by lia. discriminate.
  - apply negb_false_iff, Z.eqb_eq. apply Z.bits_inj'. intros n Hn.
    rewrite Z.land_spec, Z.testbit_0_l, Z.pow2_bits_eqb by lia.
    destruct (Z.eqb_spec i n) as [->|Hne]; [now rewrite Hb | apply andb_false_r].
Qed.

Lemma flag_test_zero m : flag_test m 0 = false.
Proof. unfold flag_test, int_to_bool. now rewrite Z.land_0_r. Qed.

#[export] Hint Rewrite flag_test_zero : carloop_rw.

(** ** A state monad

    The methods of [Carloop<Config>] read and write the object's fields and
    the board's hardware state; they are written in this monad, whose
    state is the pair of both. *)

Definition St (S A : Type) : Type := S -> A * S.

Definition st_ret {S A} (a : A) : St S A := fun s => (a, s).

Definition st_bind {S A B} (m : St S A) (k : A -> St S B) : St S B :=
  fun s => let '(a, s') := m s in k a s'.

Definition st_get {S} : St S S := fun s => (s, s).

Definition st_put {S} (s : S) : St S unit := fun _ => (tt, s).

Definition st_modify {S} (f : S -> S) : St S unit := fun s => (tt, f s).

(** The state after running [m] from [s]. *)
Definition exec {S A} (m : St S A) (s : S) : S := snd (m s).

(** The value [m] returns from [s]. *)
Definition eval {S A} (m : St S A) (s : S) : A := fst (m s).

Notation "'do' x <- m ; k" := (st_bind m (fun x => k))
  (at level 10, x name, m at level 100, k at level 200) : carloop_scope.
Notation "m ;; k" := (st_bind m (fun _ => k))
  (at level 100, k at level 200, right associativity) : carloop_scope.

(** [if (c) { m }]: run [m] only when [c] holds. *)
Definition st_when {S} (c : bool) (m : St S unit) : St S unit :=
  if c then m else st_ret tt.

Lemma exec_bind {S A B} (m : St S A) (k : A -> St S B) s :
  exec (st_bind m k) s = exec (k (eval m s)) (exec m s).
Proof. unfold exec, eval, st_bind. now destruct (m s). Qed.

Lemma eval_bind {S A B} (m : St S A) (k : A -> St S B) s :
  eval (st_bind m k) s = eval (k (eval m s)) (exec m s).
Proof. unfold exec, eval, st_bind. now destruct (m s). Qed.

Lemma exec_ret {S A} (a : A) (s : S) : exec (st_ret a) s = s.
Proof. reflexivity. Qed.

Lemma exec_modify {S} (f : S -> S) s : exec (st_modify f) s = f s.
Proof. reflexivity. Qed.

Lemma exec_when {S} (c : bool) (m : St S unit) s :
  exec (st_when c m) s = if c then exec m s else s.
Proof. now destruct c. Qed.

#[export] Hint Rewrite @exec_bind @eval_bind @exec_ret @exec_modify @exec_when : carloop_rw.

(** Run a list of state transformers left to right. *)
Definition exec_all {S A} (ms : list (St S A)) (s : S) : S :=
  fold_left (fun s m => exec m s) ms s.

Lemma exec_all_app {S A} (ms1 ms2 : list (St S A)) s :
  exec_all (ms1 ++ ms2) s = exec_all ms2 (exec_all ms1 s).
Proof. unfold exec_all. apply fold_left_app. Qed.

#[export] Hint Rewrite @exec_all_app : carloop_rw.

(** ** Shared tactics *)

(** Normalise monadic code: unfold the combinators and simplify. *)
Ltac st_norm := autorewrite with carloop_rw; cbn -[Z.land Z.lor wrap32 sub32].

(** Case on every boolean test that blocks reduction. *)
Ltac destr_ifs :=
  repeat match goal with
  | |- context [if ?c then _ else _] =>
      let E := fresh "E" in destruct c eqn:E
  end.

(** ** Generic lemmas on lists *)

Lemma fold_left_invariant {A B} (P : A -> Prop) (f : A -> B -> A) l a :
  P a -> (forall x y, P x -> P (f x y)) -> P (fold_left f l a).
Proof. revert a. induction l as [|y l IH]; intros a Ha Hf; simpl; auto. Qed.

(** Consecutive entries of [l] are at least [g] apart: the times of
    events that a timer spaces. *)
Definition spaced_by (g : Z) (l : list Z) : Prop :=
  forall i x y, l !! i = Some x -> l !! S i = Some y -> x + g <= y.

Lemma spaced_by_nil g : spaced_by g [].
Proof. intros i x y Hx. discriminate Hx. Qed.

Lemma spaced_by_snoc g l y :
  spaced_by g l -> (forall x, list.last l = Some x -> x + g <= y) -> spaced_by g (l ++ [y]).
Proof.
  intros Hs Hl i x z Hx Hz.
  destruct (decide (S i < length l)%nat) as [Hlt|Hge].
  - rewrite lookup_app_l in Hx, Hz by lia. eauto.
  - pose proof (lookup_lt_Some _ _ _ Hz) as Hlen. rewrite length_app in Hlen; cbn in Hlen.
    rewrite lookup_app_r in Hz by lia. replace (S i - length l)%nat with 0%nat in Hz by lia.
    injection Hz as <-. rewrite lookup_app_l in Hx by lia.
    apply Hl. rewrite last_lookup. now replace (pred (length l)) with i by lia.
Qed.

Lemma spaced_by_one g x : spaced_by g [x].
Proof. intros [|i] y z _ Hz; discriminate Hz. Qed.

#[export] Hint Resolve spaced_by_nil spaced_by_one : carloop.

(** ** Exhaustive checks over a finite range of integers

    The ADC of the board returns a 12-bit code; properties of the code that
    converts it are decided by evaluating a boolean test on every code. *)

Fixpoint forall_range (lo : Z) (n : nat) (p : Z -> bool) : bool :=
  match n with
  | O => true
  | S n' => p lo && forall_range (lo + 1) n' p
  end.

Lemma forall_range_spec lo n p :
  forall_range lo n p = true -> forall z, lo <= z < lo + Z.of_nat n -> p z = true.
Proof.
  revert lo. induction n as [|n IH]; intros lo H z Hz; simpl in *; [lia|].
  apply andb_true_iff in H as [Hlo Hrest].
  destruct (Z.eq_dec z lo) as [->|Hne]; [exact Hlo|].
  apply (IH (lo + 1)); [exact Hrest | lia].
Qed.

(** ** Sequences of transitions

    The concurrent parts of the program are step relations; [star] is their
    reflexive-transitive closure, the set of states a run can reach. *)

Inductive star {S} (R : S -> S -> Prop) : S -> S -> Prop :=
  | star_refl s : star R s s
  | star_step s1 s2 s3 : R s1 s2 -> star R s2 s3 -> star R s1 s3.

Lemma star_trans {S} (R : S -> S -> Prop) s1 s2 s3 :
  star R s1 s2 -> star R s2 s3 -> star R s1 s3.
Proof. induction 1; eauto using star. Qed.

Lemma star_one {S} (R : S -> S -> Prop) s1 s2 : R s1 s2 -> star R s1 s2.
Proof. eauto using star. Qed.

(** An invariant of the steps holds in every state a run reaches. *)
Lemma star_invariant {S} (R : S -> S -> Prop) (I : S -> Prop) s1 s2 :
  (forall s s', I s -> R s s' -> I s') -> I s1 -> star R s1 s2 -> I s2.
Proof. intros Hstep Hs1 Hstar. induction Hstar; eauto. Qed.

#[export] Hint Constructors star : carloop.
#[export] Hint Resolve star_one star_trans : carloop.
