(* ===== verification/Float32.v ===== *)
(** * IEEE-754 binary32 arithmetic

    The [float] of the target (an ARM Cortex-M3 with single-precision
    evaluation) modelled by Stdlib's [SpecFloat] at precision 24 and
    exponent bound 128: every operation rounds to nearest, ties to even, as
    the hardware does.  A decimal literal such as [3.3f] is the correctly
    rounded quotient of two integers, which is what the compiler stores.
    [to_Q] reads a finite float as the exact rational it denotes, so that
    rounding errors can be stated and bounded. *)

From Stdlib Require Import ZArith QArith Qabs Floats.SpecFloat.
From S2P Require Import Prelude.

Module F32.

Definition prec : Z := 24.
Definition emax : Z := 128.

Abbreviation float := spec_float.

(** The conversion of an [int] operand to [float] in a mixed expression. *)
Definition of_int (z : Z) : float := binary_normalize prec emax z 0 false.

Definition mul (x y : float) : float := SFmul prec emax x y.
Definition div (x y : float) : float := SFdiv prec emax x y.

(** A [double] (binary64) argument passed for a [float] parameter: rounded
    to the nearest [float], ties to even. *)
Definition of_double (x : spec_float) : float :=
  match x with
  | S754_finite s m e => binary_normalize prec emax (if s then Zneg m else Zpos m) e s
  | _ => x
  end.

(** The literal [num/den] as the compiler rounds it ([3.3f] is [lit 33 10]). *)
Definition lit (num den : Z) : float := div (of_int num) (of_int den).

(** The value of a zero-initialised [float] object. *)
Definition zero : float := S754_zero false.

Definition is_finite (x : float) : bool :=
  match x with
  | S754_zero _ | S754_finite _ _ _ => true
  | _ => false
  end.

(** The exact rational a finite float denotes (infinities and NaN read as 0;
    [is_finite] tells them apart). *)
Definition to_Q (x : float) : Q :=
  match x with
  | S754_finite s m e =>
      let q := match e with
               | Z0 => inject_Z (Zpos m)
               | Zpos p => inject_Z (Zpos m * 2 ^ Zpos p)
               | Zneg p => Qmake (Zpos m) (Pos.pow 2 p)
               end in
      if s then Qopp q else q
  | _ => 0%Q
  end.

End F32.
