(* ===== verification/Board.v ===== *)
(** * Board configuration

    The template parameter [Config] of [Carloop<Config>] becomes a record
    [BoardConfig] passed explicitly; [CarloopRevision2] is the only
    revision the library instantiates (src/src/carloop.h, struct
    [CarloopRevision2]; src/src/carloop.cpp, the explicit instantiation).
    The feature enumeration [CarloopFeatures_e] exists in two versions: the
    current header's bit flags and the legacy header (src/carloop.h), whose
    enumerators take the default values 0, 1, 2. *)

From stdpp Require Import base decidable.
From S2P Require Import Prelude Float32.
Open Scope Z_scope.

(** Pins of the board that the library and the examples drive. *)
Inductive Pin := D0 | D1 | D2 | D7 | A0 | A1.

#[export] Instance Pin_eq_dec : EqDecision Pin.
Proof. solve_decision. Defined.

Inductive Level := LOW | HIGH.

#[export] Instance Level_eq_dec : EqDecision Level.
Proof. solve_decision. Defined.

Inductive PinMode := INPUT | OUTPUT.

#[export] Instance PinMode_eq_dec : EqDecision PinMode.
Proof. solve_decision. Defined.

(** The pin pairs a CAN controller can be routed to. *)
Inductive CanPins := CAN_D1_D2 | CAN_C4_C5.

(** [enum CarloopFeatures_e] of src/src/carloop.h: one bit per subsystem. *)
Definition CARLOOP_CAN : Z := 1.
Definition CARLOOP_GPS : Z := 2.
Definition CARLOOP_BATTERY : Z := 4.
Definition CARLOOP_ALL_FEATURES : Z :=
  Z.lor (Z.lor CARLOOP_CAN CARLOOP_GPS) CARLOOP_BATTERY.

(** [enum CarloopFeatures_e] of the legacy header src/carloop.h: the
    enumerators have no initialisers, so they are numbered 0, 1, 2. *)
Module Legacy.

Definition CARLOOP_CAN : Z := 0.
Definition CARLOOP_GPS : Z := 1.
Definition CARLOOP_BATTERY : Z := 2.
Definition CARLOOP_ALL_FEATURES : Z :=
  Z.lor (Z.lor CARLOOP_CAN CARLOOP_GPS) CARLOOP_BATTERY.

End Legacy.

(** The static members a board revision provides. *)
Record BoardConfig := {
  CAN_PINS : CanPins;
  CAN_DEFAULT_SPEED : Z;
  BATTERY_PIN : Pin;
  BATTERY_FACTOR : F32.float;
  CAN_ENABLE_PIN : Pin;
  CAN_ENABLE_ACTIVE : Level;
  CAN_ENABLE_INACTIVE : Level;
  GPS_BAUD_RATE : Z;
  GPS_ENABLE_PIN : Pin;
  GPS_ENABLE_ACTIVE : Level;
  GPS_ENABLE_INACTIVE : Level;
  FEATURES : Z
}.

Definition CarloopRevision2 : BoardConfig := {|
  CAN_PINS := CAN_D1_D2;
  CAN_DEFAULT_SPEED := 500000;
  BATTERY_PIN := A1;
  BATTERY_FACTOR := F32.lit 72 10;
  CAN_ENABLE_PIN := D0;
  CAN_ENABLE_ACTIVE := LOW;
  CAN_ENABLE_INACTIVE := HIGH;
  GPS_BAUD_RATE := 9600;
  GPS_ENABLE_PIN := A0;
  GPS_ENABLE_ACTIVE := HIGH;
  GPS_ENABLE_INACTIVE := LOW;
  FEATURES := Z.lor (Z.lor CARLOOP_CAN CARLOOP_GPS) CARLOOP_BATTERY
|}.

(** A revision is consistent when each enable pin has two distinct levels,
    the three pins the library drives are distinct, the default CAN speed
    fits the [uint32_t] field it initialises, and the feature mask names
    only the three subsystems. *)
Definition config_wf (cfg : BoardConfig) : bool :=
  bool_decide (CAN_ENABLE_ACTIVE cfg <> CAN_ENABLE_INACTIVE cfg) &&
  bool_decide (GPS_ENABLE_ACTIVE cfg <> GPS_ENABLE_INACTIVE cfg) &&
  bool_decide (CAN_ENABLE_PIN cfg <> GPS_ENABLE_PIN cfg) &&
  bool_decide (CAN_ENABLE_PIN cfg <> BATTERY_PIN cfg) &&
  bool_decide (GPS_ENABLE_PIN cfg <> BATTERY_PIN cfg) &&
  is_u32 (CAN_DEFAULT_SPEED cfg) &&
  (Z.land (FEATURES cfg) (Z.lnot CARLOOP_ALL_FEATURES) =? 0).

Lemma config_wf_pins cfg :
  config_wf cfg = true ->
  CAN_ENABLE_ACTIVE cfg <> CAN_ENABLE_INACTIVE cfg /\
  GPS_ENABLE_ACTIVE cfg <> GPS_ENABLE_INACTIVE cfg /\
  CAN_ENABLE_PIN cfg <> GPS_ENABLE_PIN cfg /\
  CAN_ENABLE_PIN cfg <> BATTERY_PIN cfg /\
  GPS_ENABLE_PIN cfg <> BATTERY_PIN cfg.
Proof. unfold config_wf. rewrite !andb_true_iff, !bool_decide_eq_true. tauto. Qed.

(** Revision 2 is consistent. *)
Lemma CarloopRevision2_wf : config_wf CarloopRevision2 = true.
Proof. reflexivity. Qed.
