(* ===== verification/FeatureGate.v ===== *)
(** * FeatureGate: [hasCAN], [hasGPS], [hasBattery]

    src/src/carloop.cpp: [return Config::FEATURES & features & CARLOOP_X;]
    converted to [bool].  The methods read only the [features] field, which
    is passed here as an argument.  The theorems characterise the test bit
    by bit, show that it never reports a subsystem the board lacks, that it
    is monotone in the request, and what the legacy enumeration does to it. *)

From stdpp Require Import base.
From S2P Require Import Prelude Board.
Open Scope Z_scope.

Section FeatureGate.

Variable cfg : BoardConfig.

(** [Config::FEATURES & features & x], converted to [bool]. *)
Definition hasFeature (features x : Z) : bool :=
  int_to_bool (Z.land (Z.land (FEATURES cfg) features) x).

Definition hasCAN (features : Z) : bool := hasFeature features CARLOOP_CAN.
Definition hasGPS (features : Z) : bool := hasFeature features CARLOOP_GPS.
Definition hasBattery (features : Z) : bool := hasFeature features CARLOOP_BATTERY.

End FeatureGate.

Section FeatureGateFacts.

Variable cfg : BoardConfig.

(** The gate on a one-bit capability is the conjunction of the board's bit
    and the request's bit. *)
Lemma hasFeature_bit features i :
  0 <= i ->
  hasFeature cfg features (2 ^ i) = Z.testbit (FEATURES cfg) i && Z.testbit features i.
Proof.
  intros Hi. unfold hasFeature.
  change (int_to_bool (Z.land ?m ?x)) with (flag_test m x).
  rewrite flag_test_pow2 by lia. apply Z.land_spec.
Qed.

(** The land of the board mask, a request and a capability is zero as soon
    as a larger request gives zero. *)
Lemma land_request_sub (c f f' x : Z) :
  Z.land f f' = f -> Z.land (Z.land c f') x = 0 -> Z.land (Z.land c f) x = 0.
Proof.
  intros Hsub H0. rewrite <- Hsub.
  rewrite (Z.land_comm f f'), !Z.land_assoc.
  rewrite <- (Z.land_assoc _ f x), (Z.land_comm f x), Z.land_assoc, H0.
  apply Z.land_0_l.
Qed.

(** C2: for each of the three subsystems, [hasX] reports exactly the
    conjunction of the board's capability bit and the requested bit. *)
Theorem gate_bits (features : Z) :
  hasCAN cfg features = Z.testbit (FEATURES cfg) 0 && Z.testbit features 0 /\
  hasGPS cfg features = Z.testbit (FEATURES cfg) 1 && Z.testbit features 1 /\
  hasBattery cfg features = Z.testbit (FEATURES cfg) 2 && Z.testbit features 2.
Proof.
  unfold hasCAN, hasGPS, hasBattery.
  repeat split; [apply (hasFeature_bit features 0) | apply (hasFeature_bit features 1)
                | apply (hasFeature_bit features 2)]; lia.
Qed.

(** C3: a capability the board does not declare is never reported, whatever
    the caller requests (the silent masking of the specification). *)
Theorem gate_unsupported (features i : Z) :
  0 <= i -> Z.testbit (FEATURES cfg) i = false -> hasFeature cfg features (2 ^ i) = false.
Proof. intros Hi Hb. rewrite hasFeature_bit by exact Hi. now rewrite Hb. Qed.

(** Requesting more features never turns a subsystem off. *)
Theorem gate_monotone (f f' x : Z) :
  Z.land f f' = f -> hasFeature cfg f x = true -> hasFeature cfg f' x = true.
Proof.
  unfold hasFeature, int_to_bool. intros Hsub.
  rewrite !negb_true_iff, !Z.eqb_neq. intros Hf H'. apply Hf.
  exact (land_request_sub _ _ _ _ Hsub H').
Qed.

End FeatureGateFacts.

(** Revision 2 supports every subsystem: the gate is the request itself. *)
Theorem rev2_gate (features : Z) :
  hasCAN CarloopRevision2 features = Z.testbit features 0 /\
  hasGPS CarloopRevision2 features = Z.testbit features 1 /\
  hasBattery CarloopRevision2 features = Z.testbit features 2.
Proof.
  unfold hasCAN, hasGPS, hasBattery.
  rewrite (hasFeature_bit _ _ 0), (hasFeature_bit _ _ 1), (hasFeature_bit _ _ 2) by lia.
  auto.
Qed.

(** With the legacy enumeration, [CARLOOP_CAN] is 0: no board and no
    request ever enables CAN through it; and the legacy [CARLOOP_GPS] (1)
    is the current [CARLOOP_CAN], so a caller compiled against the legacy
    header who asks for GPS gets CAN and no GPS. *)
Theorem legacy_enum_not_flags :
  (forall cfg features, hasFeature cfg features Legacy.CARLOOP_CAN = false) /\
  hasCAN CarloopRevision2 Legacy.CARLOOP_GPS = true /\
  hasGPS CarloopRevision2 Legacy.CARLOOP_GPS = false.
Proof.
  split; [|split; reflexivity].
  intros cfg features. unfold hasFeature, Legacy.CARLOOP_CAN, int_to_bool.
  now rewrite Z.land_0_r.
Qed.

(** [begin()] with its default argument on revision 2 enables all three. *)
Example rev2_all_features :
  hasCAN CarloopRevision2 CARLOOP_ALL_FEATURES = true /\
  hasGPS CarloopRevision2 CARLOOP_ALL_FEATURES = true /\
  hasBattery CarloopRevision2 CARLOOP_ALL_FEATURES = true.
Proof. repeat split; reflexivity. Qed.

(** ** Witnesses *)

(** A board that declares CAN and the battery but no GPS receiver. *)
Definition board_without_gps : BoardConfig := {|
  CAN_PINS := CAN_D1_D2; CAN_DEFAULT_SPEED := 500000; BATTERY_PIN := A1;
  BATTERY_FACTOR := BATTERY_FACTOR CarloopRevision2; CAN_ENABLE_PIN := D0;
  CAN_ENABLE_ACTIVE := LOW; CAN_ENABLE_INACTIVE := HIGH; GPS_BAUD_RATE := 9600;
  GPS_ENABLE_PIN := A0; GPS_ENABLE_ACTIVE := HIGH; GPS_ENABLE_INACTIVE := LOW;
  FEATURES := Z.lor CARLOOP_CAN CARLOOP_BATTERY
|}.

Lemma gate_unsupported_witness :
  hasFeature board_without_gps CARLOOP_ALL_FEATURES (2 ^ 1) = false.
Proof. apply gate_unsupported; [lia | reflexivity]. Defined.

Lemma gate_monotone_witness : hasFeature CarloopRevision2 CARLOOP_ALL_FEATURES CARLOOP_CAN = true.
Proof. apply (gate_monotone CarloopRevision2 CARLOOP_CAN); reflexivity. Defined.
