(* ===== verification/Hal.v ===== *)
(** * The Particle hardware abstraction layer, as the library calls it

    The library calls [pinMode], [digitalWrite], [analogRead],
    [Serial1.begin] and creates a [Thread], and the examples call
    [Serial.begin] on the USB port; none of these is in the
    repository, so they are modelled from their documented behaviour: a pin
    has a mode and an output latch, the ADC returns the 12-bit code present
    on the pin, [Serial1.begin] and [Serial.begin] set their port's baud rate, and a thread
    creation registers one more thread.  Every call is also appended to an
    event log, so that the order in which the library drives the hardware
    can be stated.  [hal_equiv] identifies two HAL states with the same
    physical state whatever their logs; every HAL operation respects it. *)

From Stdlib Require Import Setoid Morphisms String.
From S2P Require Import Prelude Board.
Open Scope Z_scope.

(** One call into the HAL (or into the CAN driver) and its arguments. *)
Inductive HalEvent :=
  | EvPinMode (p : Pin) (m : PinMode)
  | EvDigitalWrite (p : Pin) (l : Level)
  | EvAnalogRead (p : Pin) (v : Z)
  | EvSerial1Begin (baud : Z)
  | EvSerialBegin (baud : Z)
  | EvThreadNew (name : string)
  | EvCanBegin (rate : Z)
  | EvCanEnd.

Record Hal := {
  pin_mode : Pin -> option PinMode;
  pin_level : Pin -> option Level;
  analog_in : Pin -> Z;
  serial1_baud : option Z;
  serial_baud : option Z;
  threads : list string;
  hal_log : list HalEvent
}.

(** Point update of a per-pin table. *)
Definition upd {A} (f : Pin -> A) (p : Pin) (v : A) : Pin -> A :=
  fun q => if decide (q = p) then v else f q.

Definition log_event (e : HalEvent) (h : Hal) : Hal :=
  {| pin_mode := pin_mode h; pin_level := pin_level h; analog_in := analog_in h;
     serial1_baud := serial1_baud h; serial_baud := serial_baud h; threads := threads h;
     hal_log := hal_log h ++ [e] |}.

(** [pinMode(p, m)]. *)
Definition pinMode (p : Pin) (m : PinMode) : St Hal unit :=
  st_modify (fun h =>
    log_event (EvPinMode p m)
      {| pin_mode := upd (pin_mode h) p (Some m); pin_level := pin_level h;
         analog_in := analog_in h; serial1_baud := serial1_baud h; serial_baud := serial_baud h;
         threads := threads h; hal_log := hal_log h |}).

(** [digitalWrite(p, l)]. *)
Definition digitalWrite (p : Pin) (l : Level) : St Hal unit :=
  st_modify (fun h =>
    log_event (EvDigitalWrite p l)
      {| pin_mode := pin_mode h; pin_level := upd (pin_level h) p (Some l);
         analog_in := analog_in h; serial1_baud := serial1_baud h; serial_baud := serial_baud h;
         threads := threads h; hal_log := hal_log h |}).

(** [analogRead(p)]: the 12-bit code on the pin (the ADC's range is
    [0 .. 4095]; codes outside it cannot occur and are clamped). *)
Definition analogRead (p : Pin) : St Hal Z :=
  fun h => let v := Z.max 0 (Z.min 4095 (analog_in h p)) in
           (v, log_event (EvAnalogRead p v) h).

(** [Serial1.begin(baud)]. *)
Definition Serial1_begin (baud : Z) : St Hal unit :=
  st_modify (fun h =>
    log_event (EvSerial1Begin baud)
      {| pin_mode := pin_mode h; pin_level := pin_level h; analog_in := analog_in h;
         serial1_baud := Some baud; serial_baud := serial_baud h; threads := threads h; hal_log := hal_log h |}).

(** [Serial.begin(baud)]: the USB serial port to the host. *)
Definition Serial_begin (baud : Z) : St Hal unit :=
  st_modify (fun h =>
    log_event (EvSerialBegin baud)
      {| pin_mode := pin_mode h; pin_level := pin_level h; analog_in := analog_in h;
         serial1_baud := serial1_baud h; serial_baud := Some baud; threads := threads h;
         hal_log := hal_log h |}).

(** [new Thread(name, fn)]: the index of the new thread. *)
Definition Thread_new (name : string) : St Hal nat :=
  fun h => (length (threads h),
            log_event (EvThreadNew name)
              {| pin_mode := pin_mode h; pin_level := pin_level h;
                 analog_in := analog_in h; serial1_baud := serial1_baud h; serial_baud := serial_baud h;
                 threads := threads h ++ [name]; hal_log := hal_log h |}).

(** The board at power-on: no pin configured, nothing logged. *)
Definition hal_init (adc : Pin -> Z) : Hal :=
  {| pin_mode := fun _ => None; pin_level := fun _ => None; analog_in := adc;
     serial1_baud := None; serial_baud := None; threads := []; hal_log := [] |}.

(** ** Observational equivalence: same physical state, any log *)

Definition hal_equiv (h1 h2 : Hal) : Prop :=
  (forall p, pin_mode h1 p = pin_mode h2 p) /\
  (forall p, pin_level h1 p = pin_level h2 p) /\
  (forall p, analog_in h1 p = analog_in h2 p) /\
  serial1_baud h1 = serial1_baud h2 /\
  serial_baud h1 = serial_baud h2 /\
  threads h1 = threads h2.

Infix "≈hal" := hal_equiv (at level 70) : carloop_scope.
Open Scope carloop_scope.

#[export] Instance hal_equiv_Equivalence : Equivalence hal_equiv.
Proof.
  split.
  - intros h. repeat split; reflexivity.
  - intros h1 h2 (? & ? & ? & ? & ? & ?). repeat split; congruence.
  - intros h1 h2 h3 (A1 & B1 & C1 & D1 & F1 & E1) (A2 & B2 & C2 & D2 & F2 & E2).
    repeat split; congruence.
Qed.

Lemma upd_ext {A} (f g : Pin -> A) p v :
  (forall q, f q = g q) -> forall q, upd f p v q = upd g p v q.
Proof. intros H q. unfold upd. case_decide; auto. Qed.

Lemma upd_same {A} (f : Pin -> A) p v : upd f p v p = v.
Proof. unfold upd. now case_decide. Qed.

Lemma upd_other {A} (f : Pin -> A) p q v : q <> p -> upd f p v q = f q.
Proof. intros H. unfold upd. now case_decide. Qed.

Lemma upd_upd_same {A} (f : Pin -> A) p v w q : upd (upd f p v) p w q = upd f p w q.
Proof. unfold upd. now case_decide. Qed.

#[export] Hint Resolve upd_ext : carloop.
#[export] Hint Rewrite @upd_same @upd_upd_same : carloop_rw.

Lemma log_event_equiv e h : log_event e h ≈hal h.
Proof. repeat split; reflexivity. Qed.

(** Every HAL operation maps equivalent boards to equivalent boards and
    returns the same value on both. *)
Ltac hal_equiv_solve :=
  intros h1 h2 (A & B & C & D & F & E);
  repeat split; cbn; rewrite ?D, ?F, ?E; auto using upd_ext; try congruence.

#[export] Instance pinMode_proper p m : Proper (hal_equiv ==> hal_equiv) (exec (pinMode p m)).
Proof. hal_equiv_solve. Qed.

#[export] Instance digitalWrite_proper p l :
  Proper (hal_equiv ==> hal_equiv) (exec (digitalWrite p l)).
Proof. hal_equiv_solve. Qed.

#[export] Instance analogRead_proper p : Proper (hal_equiv ==> hal_equiv) (exec (analogRead p)).
Proof. hal_equiv_solve. Qed.

#[export] Instance Serial1_begin_proper b :
  Proper (hal_equiv ==> hal_equiv) (exec (Serial1_begin b)).
Proof. hal_equiv_solve. Qed.

#[export] Instance Serial_begin_proper b :
  Proper (hal_equiv ==> hal_equiv) (exec (Serial_begin b)).
Proof. hal_equiv_solve. Qed.

#[export] Instance log_event_proper e : Proper (hal_equiv ==> hal_equiv) (log_event e).
Proof. hal_equiv_solve. Qed.

Lemma analogRead_proper_val p h1 h2 : h1 ≈hal h2 -> eval (analogRead p) h1 = eval (analogRead p) h2.
Proof. intros (_ & _ & C & _). unfold eval, analogRead. cbn. now rewrite C. Qed.

(** [analogRead] returns a 12-bit code. *)
Lemma analogRead_range p h : 0 <= eval (analogRead p) h <= 4095.
Proof. unfold eval, analogRead. cbn. lia. Qed.

(** Writing a level twice is writing it once. *)
Lemma digitalWrite_idem p l h :
  exec (digitalWrite p l) (exec (digitalWrite p l) h) ≈hal exec (digitalWrite p l) h.
Proof. repeat split; cbn; auto. intros q. unfold upd. now case_decide. Qed.

Lemma pinMode_idem p m h :
  exec (pinMode p m) (exec (pinMode p m) h) ≈hal exec (pinMode p m) h.
Proof. repeat split; cbn; auto. intros q. unfold upd. now case_decide. Qed.
