(* ===== verification/CanChannel.v ===== *)
(** * The CAN channel collaborator

    [CANChannel] (Particle's CAN driver) is not part of the repository: the
    library constructs one, calls [begin(bitrate)] and [end()], and the
    applications call [isEnabled], [receive] and [transmit].  Its contract is
    the class [CanChannel] with the laws [CanChannelLaws]: the facade's
    theorems are proved against the laws, and [QueueChannel], a channel with
    bounded receive and transmit queues, discharges them.  [CANMessage] is the
    driver's frame structure with its zero-initialising constructor. *)

From S2P Require Import Prelude Board.
Open Scope Z_scope.

(** [struct CANMessage]: [id], [extended], [rtr], [len], [data[8]]; the
    default constructor zeroes every field. *)
Record CANMessage := {
  id : Z;
  extended : bool;
  rtr : bool;
  len : Z;
  data : list Z
}.

Definition CANMessage_default : CANMessage :=
  {| id := 0; extended := false; rtr := false; len := 0; data := repeat 0 8 |}.

Class CanChannel (C : Type) := {
  can_make : CanPins -> C;
  can_begin : Z -> C -> C;
  can_end : C -> C;
  can_isEnabled : C -> bool;
  can_bitrate : C -> Z;
  can_receive : C -> option CANMessage * C;
  can_transmit : CANMessage -> C -> bool * C;
  can_deliver : CANMessage -> C -> C
}.

(** What the library and the applications rely on. *)
Class CanChannelLaws (C : Type) `{CanChannel C} := {
  can_make_disabled p : can_isEnabled (can_make p) = false;
  can_begin_enabled r c : can_isEnabled (can_begin r c) = true;
  can_begin_bitrate r c : can_bitrate (can_begin r c) = r;
  can_end_disabled c : can_isEnabled (can_end c) = false;
  can_end_bitrate c : can_bitrate (can_end c) = can_bitrate c;
  can_receive_disabled c : can_isEnabled c = false -> can_receive c = (None, c);
  can_receive_enabled c : can_isEnabled (snd (can_receive c)) = can_isEnabled c;
  can_receive_bitrate c : can_bitrate (snd (can_receive c)) = can_bitrate c;
  can_transmit_disabled m c : can_isEnabled c = false -> can_transmit m c = (false, c);
  can_transmit_enabled m c : can_isEnabled (snd (can_transmit m c)) = can_isEnabled c;
  can_transmit_bitrate m c : can_bitrate (snd (can_transmit m c)) = can_bitrate c;
  can_deliver_enabled m c : can_isEnabled (can_deliver m c) = can_isEnabled c;
  can_deliver_bitrate m c : can_bitrate (can_deliver m c) = can_bitrate c
}.

(** ** A channel with bounded queues *)

Module QueueChannel.

(** The driver's default queue sizes. *)
Definition rxQueueSize : nat := 32.
Definition txQueueSize : nat := 32.

Record QChan := {
  qc_pins : CanPins;
  qc_enabled : bool;
  qc_rate : Z;
  qc_rx : list CANMessage;
  qc_tx : list CANMessage
}.

Definition qc_set (c : QChan) (en : bool) (rate : Z) (rx tx : list CANMessage) : QChan :=
  {| qc_pins := qc_pins c; qc_enabled := en; qc_rate := rate; qc_rx := rx; qc_tx := tx |}.

Definition qc_receive (c : QChan) : option CANMessage * QChan :=
  if qc_enabled c then
    match qc_rx c with
    | [] => (None, c)
    | m :: rx => (Some m, qc_set c true (qc_rate c) rx (qc_tx c))
    end
  else (None, c).

Definition qc_transmit (m : CANMessage) (c : QChan) : bool * QChan :=
  if qc_enabled c && bool_decide (length (qc_tx c) < txQueueSize)%nat
  then (true, qc_set c true (qc_rate c) (qc_rx c) (qc_tx c ++ [m]))
  else (false, c).

(** A frame from the bus is queued when the channel is enabled and the
    receive queue has room, and dropped otherwise. *)
Definition qc_deliver (m : CANMessage) (c : QChan) : QChan :=
  if qc_enabled c && bool_decide (length (qc_rx c) < rxQueueSize)%nat
  then qc_set c true (qc_rate c) (qc_rx c ++ [m]) (qc_tx c)
  else c.

#[export] Instance QChan_CanChannel : CanChannel QChan := {|
  can_make p := {| qc_pins := p; qc_enabled := false; qc_rate := 0; qc_rx := []; qc_tx := [] |};
  can_begin r c := qc_set c true r (qc_rx c) (qc_tx c);
  can_end c := qc_set c false (qc_rate c) [] [];
  can_isEnabled := qc_enabled;
  can_bitrate := qc_rate;
  can_receive := qc_receive;
  can_transmit := qc_transmit;
  can_deliver := qc_deliver
|}.

#[export] Instance QChan_laws : CanChannelLaws QChan.
Proof.
  split; intros; cbn in *; auto;
    unfold qc_receive, qc_transmit, qc_deliver in *;
    repeat (match goal with
            | H : qc_enabled _ = false |- _ => rewrite H
            | |- context [match ?l with [] => _ | _ :: _ => _ end] => destruct l
            | |- context [if ?b then _ else _] => destruct b eqn:?
            end; cbn; auto);
    try (apply andb_true_iff in Heqb as [? _]; congruence).
Qed.

(** Draining a channel: the queued frames come out in arrival order. *)
Lemma qc_receive_fifo c m rx :
  qc_enabled c = true -> qc_rx c = m :: rx ->
  fst (qc_receive c) = Some m /\ qc_rx (snd (qc_receive c)) = rx.
Proof. intros He Hr. unfold qc_receive. now rewrite He, Hr. Qed.

End QueueChannel.
