(* ===== verification/GpsParser.v ===== *)
(** * The GPS parser collaborator

    [TinyGPSPlus] is not part of the repository.  The library feeds it one
    character at a time with [encode(c)] from its serial thread and exposes
    it to the application, which reads [charsProcessed()],
    [failedChecksum()], [location], [date] and [time].  The class
    [GpsParser] is what the library relies on: [encode] counts every
    character it is given, and the failure counter never decreases;
    [GpsFix] is what the examples print of the decoded fix.
    [LineParser] is a small instance: it buffers a line and publishes it as
    the current fix when the line ends, so that a fix and the character
    count it was decoded at can be compared. *)

From Stdlib Require Import Ascii Floats.SpecFloat.
From S2P Require Import Prelude.
Open Scope Z_scope.

Class GpsParser (P : Type) := {
  gps_init : P;
  encode : P -> ascii -> P;
  charsProcessed : P -> Z;
  failedChecksum : P -> Z
}.

Class GpsParserLaws (P : Type) `{GpsParser P} := {
  charsProcessed_init : charsProcessed gps_init = 0;
  charsProcessed_encode p c : charsProcessed (encode p c) = charsProcessed p + 1;
  failedChecksum_encode p c : failedChecksum p <= failedChecksum (encode p c)
}.

(** What the examples read of the decoded fix: [location.isValid()],
    [location.lat()] and [location.lng()] (binary64 [double]s),
    [date.isValid()], [month()], [day()], [year()], [time.isValid()],
    [hour()], [minute()], [second()]. *)
Class GpsFix (P : Type) := {
  location_isValid : P -> bool;
  location_lat : P -> spec_float;
  location_lng : P -> spec_float;
  date_isValid : P -> bool;
  date_month : P -> Z;
  date_day : P -> Z;
  date_year : P -> Z;
  time_isValid : P -> bool;
  time_hour : P -> Z;
  time_minute : P -> Z;
  time_second : P -> Z
}.

(** Feeding a whole string of characters. *)
Definition encode_all {P} `{GpsParser P} (p : P) (cs : list ascii) : P :=
  fold_left encode cs p.

Lemma encode_all_app {P} `{GpsParser P} p cs1 cs2 :
  encode_all p (cs1 ++ cs2) = encode_all (encode_all p cs1) cs2.
Proof. apply fold_left_app. Qed.

Lemma charsProcessed_encode_all {P} `{GpsParserLaws P} p cs :
  charsProcessed (encode_all p cs) = charsProcessed p + Z.of_nat (length cs).
Proof.
  revert p. induction cs as [|c cs IH]; intros p; cbn; [lia|].
  unfold encode_all in IH. rewrite IH, charsProcessed_encode. lia.
Qed.

#[export] Hint Rewrite @encode_all_app @charsProcessed_encode_all : carloop_rw.

(** ** A line-buffering parser *)

Module LineParser.

Record LP := {
  lp_chars : Z;
  lp_failed : Z;
  lp_buf : list ascii;
  lp_fix : list ascii;
  lp_fix_chars : Z
}.

(** A line ends at a line feed; an empty line is a failed sentence. *)
Definition lp_encode (p : LP) (c : ascii) : LP :=
  if Ascii.eqb c "010"%char then
    match lp_buf p with
    | [] => {| lp_chars := lp_chars p + 1; lp_failed := lp_failed p + 1; lp_buf := [];
               lp_fix := lp_fix p; lp_fix_chars := lp_fix_chars p |}
    | _ => {| lp_chars := lp_chars p + 1; lp_failed := lp_failed p; lp_buf := [];
              lp_fix := lp_buf p; lp_fix_chars := lp_chars p + 1 |}
    end
  else {| lp_chars := lp_chars p + 1; lp_failed := lp_failed p; lp_buf := lp_buf p ++ [c];
          lp_fix := lp_fix p; lp_fix_chars := lp_fix_chars p |}.

#[export] Instance LP_GpsParser : GpsParser LP := {|
  gps_init := {| lp_chars := 0; lp_failed := 0; lp_buf := []; lp_fix := []; lp_fix_chars := 0 |};
  encode := lp_encode;
  charsProcessed := lp_chars;
  failedChecksum := lp_failed
|}.

(** The line parser decodes no sentence: it never has a valid fix. *)
#[export] Instance LP_GpsFix : GpsFix LP := {|
  location_isValid _ := false; location_lat _ := S754_zero false; location_lng _ := S754_zero false;
  date_isValid _ := false; date_month _ := 0; date_day _ := 0; date_year _ := 0;
  time_isValid _ := false; time_hour _ := 0; time_minute _ := 0; time_second _ := 0
|}.

#[export] Instance LP_laws : GpsParserLaws LP.
Proof.
  split; [reflexivity| |]; intros p c; cbn; unfold lp_encode;
    destruct (Ascii.eqb c _), (lp_buf p); cbn; lia.
Qed.

End LineParser.
