(* ===== verification/Battery.v ===== *)
(** * BatteryMonitor: the ADC code to volts conversion

    src/src/carloop.cpp, [readBattery]:
    [adcValue * MAX_ANALOG_VOLTAGE / MAX_ANALOG_VALUE * Config::BATTERY_FACTOR]
    evaluated left to right in binary32: the [int] code is converted to
    [float], multiplied by [3.3f], divided by [4096] (converted to [float])
    and multiplied by the board's factor ([7.2f] on revision 2), each
    operation rounded.  The theorems, for revision 2 and every code the
    12-bit ADC can return, are decided by evaluating the conversion on all
    4096 codes: the result is finite, non-negative and below the divider's
    full scale, it grows with the code, and it is within 2.4 microvolts of
    the exact rational value of the divider formula
    [code * 3.3 / 4096 * 7.2], written with its own constants.  Only the
    last pins the conversion: the first two hold as well for a wrong
    divisor or reference voltage, and serve as lemmas. *)

From Stdlib Require Import QArith Qabs Floats.SpecFloat.
From S2P Require Import Prelude Float32 Board.
Open Scope Z_scope.

(** The two constants of [readBattery]. *)
Definition MAX_ANALOG_VALUE : Z := 4096.
Definition MAX_ANALOG_VOLTAGE : F32.float := F32.lit 33 10.

(** The expression [readBattery] returns, for the code [adcValue]. *)
Definition battery_voltage (factor : F32.float) (adcValue : Z) : F32.float :=
  F32.mul
    (F32.div (F32.mul (F32.of_int adcValue) MAX_ANALOG_VOLTAGE) (F32.of_int MAX_ANALOG_VALUE))
    factor.

(** The divider formula [code * 3.3 / 4096 * 7.2] over the rationals,
    with its constants written out rather than taken from the code. *)
Definition battery_voltage_exact (adcValue : Z) : Q :=
  (inject_Z adcValue * (33 # 10) / 4096 * (72 # 10))%Q.

(** [readBattery]'s conversion on revision 2. *)
Definition rev2_voltage : Z -> F32.float := battery_voltage (BATTERY_FACTOR CarloopRevision2).

(** ** Exhaustive checks over the 4096 codes *)

Definition rev2_in_range_b (a : Z) : bool :=
  F32.is_finite (rev2_voltage a) &&
  Qle_bool 0 (F32.to_Q (rev2_voltage a)) &&
  negb (Qle_bool ((33 # 10) * (72 # 10))%Q (F32.to_Q (rev2_voltage a))).

Definition rev2_step_b (a : Z) : bool :=
  Qle_bool (F32.to_Q (rev2_voltage a)) (F32.to_Q (rev2_voltage (a + 1))).

Definition rev2_error_b (a : Z) : bool :=
  Qle_bool (Qabs (F32.to_Q (rev2_voltage a) - battery_voltage_exact a)) (31 # 13107200).

Lemma rev2_in_range_all : forall_range 0 4096 rev2_in_range_b = true.
Proof. vm_compute. reflexivity. Qed.

Lemma rev2_step_all : forall_range 0 4095 rev2_step_b = true.
Proof. vm_compute. reflexivity. Qed.

Lemma rev2_error_all : forall_range 0 4096 rev2_error_b = true.
Proof. vm_compute. reflexivity. Qed.

(** A function that grows at each step of a range grows on the range. *)
Lemma steps_monotone (g : Z -> Q) lo hi :
  (forall i, lo <= i < hi -> (g i <= g (i + 1)%Z)%Q) ->
  forall a b, lo <= a <= b -> b <= hi -> (g a <= g b)%Q.
Proof.
  intros Hstep a b Hab Hb.
  replace b with (a + Z.of_nat (Z.to_nat (b - a))) by lia.
  assert (Hn : a + Z.of_nat (Z.to_nat (b - a)) <= hi) by lia. revert Hn.
  induction (Z.to_nat (b - a)) as [|n IH]; intros Hn.
  - rewrite Z.add_0_r. apply Qle_refl.
  - eapply Qle_trans; [apply IH; lia|].
    replace (a + Z.of_nat (S n)) with (a + Z.of_nat n + 1) by lia.
    apply Hstep. lia.
Qed.

(** ** Properties of the conversion on revision 2 *)

(** A voltage of the divider's scale: finite, non-negative, below
    [3.3 * 7.2] volts. *)
Definition in_scale (v : F32.float) : Prop :=
  F32.is_finite v = true /\ (0 <= F32.to_Q v)%Q /\ (F32.to_Q v < (33 # 10) * (72 # 10))%Q.

(** A voltage within the conversion's error of the exact divider formula
    at some 12-bit code. *)
Definition reading_of_adc (v : F32.float) : Prop :=
  exists adcValue, 0 <= adcValue <= 4095 /\ F32.is_finite v = true /\
    (Qabs (F32.to_Q v - battery_voltage_exact adcValue) <= 31 # 13107200)%Q.

Lemma rev2_voltage_in_scale (adcValue : Z) : 0 <= adcValue <= 4095 -> in_scale (rev2_voltage adcValue).
Proof.
  intros Ha.
  pose proof (forall_range_spec _ _ _ rev2_in_range_all adcValue ltac:(lia)) as H.
  unfold rev2_in_range_b in H.
  apply andb_true_iff in H as [H H3]. apply andb_true_iff in H as [H1 H2].
  apply negb_true_iff in H3. apply Qle_bool_iff in H2.
  repeat split; auto.
  apply Qnot_le_lt. intros Hle. apply Qle_bool_iff in Hle. congruence.
Qed.

(** for every code the ADC can return, the voltage is a finite,
    non-negative float strictly below the divider's full scale
    [3.3 * 7.2 = 23.76] volts. *)
Theorem battery_voltage_bounds (adcValue : Z) :
  0 <= adcValue <= 4095 ->
  F32.is_finite (rev2_voltage adcValue) = true /\
  (0 <= F32.to_Q (rev2_voltage adcValue))%Q /\
  (F32.to_Q (rev2_voltage adcValue) < (33 # 10) * (72 # 10))%Q.
Proof. exact (rev2_voltage_in_scale adcValue). Qed.

Lemma rev2_voltage_reading (adcValue : Z) : 0 <= adcValue <= 4095 -> reading_of_adc (rev2_voltage adcValue).
Proof.
  intros Ha. exists adcValue. split; [exact Ha|]. split; [exact (proj1 (rev2_voltage_in_scale adcValue Ha))|].
  apply Qle_bool_iff. exact (forall_range_spec _ _ _ rev2_error_all adcValue ltac:(lia)).
Qed.

(** the conversion is monotone: a larger code never gives a smaller
    voltage, despite the three roundings. *)
Theorem battery_voltage_monotone (a b : Z) :
  0 <= a <= b -> b <= 4095 ->
  (F32.to_Q (rev2_voltage a) <= F32.to_Q (rev2_voltage b))%Q.
Proof.
  intros Hab Hb. apply (steps_monotone (fun z => F32.to_Q (rev2_voltage z)) 0 4095); [|lia|lia].
  intros i Hi. apply Qle_bool_iff.
  exact (forall_range_spec _ _ _ rev2_step_all i ltac:(lia)).
Qed.

(** C22: the binary32 result differs from the exact real value of the
    formula by at most 31/13107200 volts (less than 2.4 microvolts). *)
Theorem battery_voltage_error (adcValue : Z) :
  0 <= adcValue <= 4095 ->
  (Qabs (F32.to_Q (rev2_voltage adcValue) - battery_voltage_exact adcValue) <= 31 # 13107200)%Q.
Proof.
  intros Ha. apply Qle_bool_iff.
  exact (forall_range_spec _ _ _ rev2_error_all adcValue ltac:(lia)).
Qed.

(** a half-scale code (2048) reads 12457082 * 2^-20 volts, within
    10 microvolts of the 11.88 volts the specification expects. *)
Theorem battery_voltage_half_scale :
  rev2_voltage 2048 = S754_finite false 12457082 (-20) /\
  (Qabs (F32.to_Q (rev2_voltage 2048) - (1188 # 100)) <= 1 # 100000)%Q.
Proof. split; [vm_compute; reflexivity | apply Qle_bool_iff; vm_compute; reflexivity]. Qed.

(** ** Witnesses *)

Lemma battery_voltage_bounds_witness :
  F32.is_finite (rev2_voltage 3000) = true /\
  (0 <= F32.to_Q (rev2_voltage 3000))%Q /\
  (F32.to_Q (rev2_voltage 3000) < (33 # 10) * (72 # 10))%Q.
Proof. apply battery_voltage_bounds. lia. Defined.

Lemma battery_voltage_monotone_witness :
  (F32.to_Q (rev2_voltage 1000) <= F32.to_Q (rev2_voltage 3000))%Q.
Proof. apply battery_voltage_monotone; lia. Defined.

Lemma battery_voltage_error_witness :
  (Qabs (F32.to_Q (rev2_voltage 4095) - battery_voltage_exact 4095) <= 31 # 13107200)%Q.
Proof. apply battery_voltage_error. lia. Defined.
