(* ===== verification/Printf.v ===== *)
(** * The conversions of [printf] the examples use

    [Serial.printf] of the examples formats integers with [%d], [%<w>d],
    [%0<w>d], [%0<w>x] and floats with [%<w>.<p>f]; this file gives each
    conversion its C semantics on the characters written.  An unsigned
    value is written in [base] with at least [width] digits, zero-padded;
    a signed [%d] writes a minus sign and the digits of the magnitude,
    padded with spaces (or zeros after the sign with the [0] flag) to the
    width; [%f] writes the float's exact value (a [float] argument is
    promoted to [double] exactly) rounded to [p] decimals, ties to even, as
    newlib's correctly rounded conversion does, and [inf] or [nan] for the
    special values.  A [uint32_t] passed for [%d] is read as the [int] with
    the same bits ([as_int32]).

    Proved: reading back the digits [printf_unsigned] writes, in its base,
    gives the value (for every value of 64 bits and every width), and the
    number of digits is the width or the value's digit count, whichever is
    larger; an [int] of [k] digits fills [%<w>d] exactly when its sign and
    digits fit, [%.<p>f] of a float below [10^k - 1] takes at most
    [k + p + 2] characters, and a finite [%.<p>f] ends with a digit. *)

From Stdlib Require Import Ascii String QArith Qabs Floats.SpecFloat.
From S2P Require Import Prelude Float32.
Open Scope Z_scope.

(** ** Characters *)

(** The code of a [char] and the [char] of a code. *)
Definition code (c : ascii) : Z := Z.of_nat (nat_of_ascii c).
Definition chr (z : Z) : ascii := ascii_of_nat (Z.to_nat z).

(** The digit [printf] writes for [d] (lower-case for [%x]). *)
Definition digit_char (d : Z) : ascii :=
  if d <? 10 then chr (code "0" + d) else chr (code "a" + d - 10).

(** [println]'s line end. *)
Definition CRLF : list ascii := ["013"; "010"]%char.

(** ** Unsigned conversions *)

(** The number of digits of a non-negative [v] in [base] (at most 65). *)
Fixpoint num_digits_fuel (fuel : nat) (base v : Z) : nat :=
  match fuel with
  | O => 1
  | S f => if v <? base then 1 else S (num_digits_fuel f base (v / base))
  end.

Definition num_digits (base v : Z) : nat := num_digits_fuel 64 base v.

(** [%0<width>x] and [%d] of a non-negative value: its digits, left-padded
    with zeros to [width]. *)
Definition printf_unsigned (base : Z) (width : nat) (v : Z) : list ascii :=
  let nd := Nat.max width (num_digits base v) in
  map (fun i => digit_char ((v / base ^ Z.of_nat (nd - 1 - i)) mod base)) (seq 0 nd).

Definition printf_x (width : nat) (v : Z) : list ascii := printf_unsigned 16 width v.
Definition printf_d (v : Z) : list ascii := printf_unsigned 10 0 v.

(** ** Signed conversions *)

Definition pad_left (c : ascii) (width : nat) (cs : list ascii) : list ascii :=
  repeat c (width - length cs) ++ cs.

(** [%<width>d] ([zero = false]) and [%0<width>d] ([zero = true]) of an [int]. *)
Definition printf_int (zero : bool) (width : nat) (v : Z) : list ascii :=
  let sign := if v <? 0 then ["-"%char] else [] in
  let digits := printf_unsigned 10 0 (Z.abs v) in
  if zero then sign ++ repeat "0"%char (width - length (sign ++ digits)) ++ digits
  else pad_left " " width (sign ++ digits).

(** A [uint32_t] argument of [%d]: the [int] with the same bits. *)
Definition as_int32 (v : Z) : Z :=
  let w := wrap32 v in if w <? 2 ^ 31 then w else w - 2 ^ 32.

(** ** [%f] *)

(** A rational rounded to an integer, ties to even. *)
Definition round_half_even (q : Q) : Z :=
  let n := Qnum q in
  let d := Zpos (Qden q) in
  let f := n / d in
  let r := n mod d in
  if 2 * r <? d then f
  else if d <? 2 * r then f + 1
  else if Z.even f then f else f + 1.

(** The sign bit of a float. *)
Definition sign_bit (x : F32.float) : bool :=
  match x with
  | S754_zero s | S754_infinity s | S754_finite s _ _ => s
  | S754_nan => false
  end.

(** [%<width>.<prec>f]: the magnitude rounded to [prec] decimals, its
    integer part, a point and [prec] decimals (no point when [prec] is 0),
    after a minus sign for a negative float (also [-0.0]). *)
Definition printf_f (width prec : nat) (x : F32.float) : list ascii :=
  let sign := if sign_bit x then ["-"%char] else [] in
  let body :=
    match x with
    | S754_nan => ["n"; "a"; "n"]%char
    | S754_infinity _ => sign ++ ["i"; "n"; "f"]%char
    | _ =>
        let scale := 10 ^ Z.of_nat prec in
        let n := round_half_even (Qabs (F32.to_Q x) * inject_Z scale) in
        sign ++ printf_unsigned 10 0 (n / scale) ++
        (if (prec =? 0)%nat then [] else "."%char :: printf_unsigned 10 prec (n mod scale))
    end in
  pad_left " " width body.

(** ** Reading digits back *)

(** The value of the digits [cs] in [base], each read by [dv]. *)
Definition read_digits (dv : ascii -> Z) (base : Z) (cs : list ascii) : Z :=
  fold_left (fun acc c => acc * base + dv c) cs 0.

Lemma read_digits_app dv base cs1 cs2 :
  read_digits dv base (cs1 ++ cs2) = fold_left (fun acc c => acc * base + dv c) cs2 (read_digits dv base cs1).
Proof. unfold read_digits. apply fold_left_app. Qed.

Lemma length_printf_unsigned base width v :
  length (printf_unsigned base width v) = Nat.max width (num_digits base v).
Proof. unfold printf_unsigned. now rewrite length_map, length_seq. Qed.

Section Digits.

Variable dv : ascii -> Z.
Variable base : Z.
Hypothesis Hbase : 2 <= base.
Hypothesis Hdv : forall d, 0 <= d < base -> dv (digit_char d) = d.

(** [num_digits] counts enough digits. *)
Lemma num_digits_fuel_bound f v :
  0 <= v < base ^ Z.of_nat (S f) -> v < base ^ Z.of_nat (num_digits_fuel f base v).
Proof.
  revert v. induction f as [|f IH]; intros v Hv; cbn [num_digits_fuel]; [exact (proj2 Hv)|].
  destruct (Z.ltb_spec v base) as [Hlt|Hge]; [cbn; lia|].
  assert (Hq : 0 <= v / base < base ^ Z.of_nat (S f)).
  { split; [apply Z.div_pos; lia|]. apply Z.div_lt_upper_bound; [lia|].
    rewrite <- Z.pow_succ_r by lia. now replace (Z.succ (Z.of_nat (S f))) with (Z.of_nat (S (S f))) by lia. }
  specialize (IH _ Hq). rewrite Nat2Z.inj_succ, Z.pow_succ_r by lia.
  pose proof (Z.mul_div_le v base ltac:(lia)). pose proof (Z.mod_pos_bound v base ltac:(lia)).
  pose proof (Z.div_mod v base ltac:(lia)). nia.
Qed.

(** The first [k] of [nd] digits of [v < base^nd] read [v / base^(nd-k)]. *)
Lemma read_digits_prefix v nd k :
  0 <= v < base ^ Z.of_nat nd -> (k <= nd)%nat ->
  read_digits dv base (map (fun i => digit_char ((v / base ^ Z.of_nat (nd - 1 - i)) mod base)) (seq 0 k)) =
  v / base ^ Z.of_nat (nd - k).
Proof.
  intros Hv. induction k as [|k IH]; intros Hk.
  - cbn. rewrite Nat.sub_0_r. symmetry. apply Z.div_small. exact Hv.
  - rewrite seq_S, map_app, read_digits_app, IH by lia. cbn.
    rewrite Hdv by (apply Z.mod_pos_bound; lia).
    set (a := v / base ^ Z.of_nat (nd - 1 - (0 + k))).
    assert (Ha : v / base ^ Z.of_nat (nd - k) = a / base).
    { unfold a. rewrite Z.div_div by (try apply Z.pow_nonneg; try apply Z.pow_pos_nonneg; lia).
      f_equal. rewrite Z.mul_comm, <- Z.pow_succ_r by lia. f_equal. lia. }
    rewrite Ha. replace (nd - S k)%nat with (nd - 1 - (0 + k))%nat by lia. fold a.
    rewrite Z.mul_comm. symmetry. apply Z.div_mod. lia.
Qed.

(** Round trip: the digits [printf_unsigned] writes read back as the value. *)
Lemma printf_unsigned_read width v :
  0 <= v < 2 ^ 64 -> read_digits dv base (printf_unsigned base width v) = v.
Proof.
  intros Hv. set (nd := Nat.max width (num_digits base v)).
  assert (Hnd : v < base ^ Z.of_nat nd).
  { eapply Z.lt_le_trans; [apply (num_digits_fuel_bound 64)|].
    - split; [lia|]. eapply Z.lt_le_trans; [exact (proj2 Hv)|].
      eapply Z.le_trans; [apply (Z.pow_le_mono_l 2 base 64); lia|].
      apply Z.pow_le_mono_r; lia.
    - apply Z.pow_le_mono_r; [lia|]. unfold nd, num_digits. lia. }
  unfold printf_unsigned. fold nd.
  rewrite read_digits_prefix by lia. rewrite Nat.sub_diag. cbn. apply Z.div_1_r.
Qed.

End Digits.

(** ** Widths *)

Lemma length_pad_left c w cs : length (pad_left c w cs) = Nat.max w (length cs).
Proof. unfold pad_left. rewrite length_app, repeat_length. lia. Qed.

(** A value below [base^(S k)] has at most [S k] digits. *)
Lemma num_digits_fuel_le f base v k :
  2 <= base -> 0 <= v < base ^ Z.of_nat (S k) -> (num_digits_fuel f base v <= S k)%nat.
Proof.
  intros Hb. revert v k. induction f as [|f IH]; intros v k Hv; cbn [num_digits_fuel]; [lia|].
  destruct (Z.ltb_spec v base) as [Hlt|Hge]; [lia|].
  destruct k as [|k].
  - cbn in Hv. lia.
  - apply le_n_S, IH. split; [apply Z.div_pos; lia|].
    apply Z.div_lt_upper_bound; [lia|]. rewrite <- Z.pow_succ_r by lia.
    now replace (Z.succ (Z.of_nat (S k))) with (Z.of_nat (S (S k))) by lia.
Qed.

Lemma num_digits_le base v k :
  2 <= base -> 0 <= v < base ^ Z.of_nat (S k) -> (num_digits base v <= S k)%nat.
Proof. apply num_digits_fuel_le. Qed.

Lemma length_printf_int zero w v :
  length (printf_int zero w v) = Nat.max w ((if (v <? 0)%Z then 1 else 0) + num_digits 10 (Z.abs v))%nat.
Proof.
  unfold printf_int. destruct zero.
  - rewrite !length_app, repeat_length, length_printf_unsigned.
    destruct (v <? 0); cbn [length]; lia.
  - rewrite length_pad_left, length_app, length_printf_unsigned. destruct (v <? 0); cbn [length]; lia.
Qed.

(** A value of [S k] digits or fewer fills [%<w>d] exactly when the
    sign and the digits fit in [w]. *)
Lemma printf_int_fits zero w v k :
  Z.abs v < 10 ^ Z.of_nat (S k) -> ((if (v <? 0)%Z then 1 else 0) + S k <= w)%nat ->
  length (printf_int zero w v) = w.
Proof.
  intros Hv Hw. rewrite length_printf_int.
  assert (num_digits 10 (Z.abs v) <= S k)%nat by (apply num_digits_le; lia).
  destruct (v <? 0)%Z; lia.
Qed.

(** A value of at least [S k] digits has at least [S k] digits. *)
Lemma num_digits_fuel_ge f base v k :
  2 <= base -> (k <= f)%nat -> base ^ Z.of_nat k <= v -> (S k <= num_digits_fuel f base v)%nat.
Proof.
  intros Hb. revert v k. induction f as [|f IH]; intros v k Hk Hv; cbn [num_digits_fuel]; [lia|].
  destruct k as [|k]; [destruct (v <? base); lia|].
  rewrite Nat2Z.inj_succ, Z.pow_succ_r in Hv by lia.
  assert (base ^ Z.of_nat k >= 1) by (pose proof (Z.pow_pos_nonneg base (Z.of_nat k)); lia).
  destruct (Z.ltb_spec v base); [nia|].
  apply le_n_S, IH; [lia|]. apply Z.div_le_lower_bound; lia.
Qed.

Lemma num_digits_exact base v k :
  2 <= base -> (k < 64)%nat -> base ^ Z.of_nat k <= v < base ^ Z.of_nat (S k) -> num_digits base v = S k.
Proof.
  intros Hb Hk Hv. apply Nat.le_antisymm; [apply num_digits_le; lia|].
  apply num_digits_fuel_ge; lia.
Qed.

Lemma length_printf_f w p x : length (printf_f w p x) = Nat.max w (length (printf_f 0 p x)).
Proof. unfold printf_f. rewrite !length_pad_left. lia. Qed.

(** Rounding does not pass the next integer. *)
Lemma round_half_even_lt q m : (0 <= q)%Q -> (q < inject_Z m)%Q -> 0 <= round_half_even q <= m.
Proof.
  intros H0 Hm. unfold Qle, Qlt in *. cbn in *.
  unfold round_half_even. set (n := Qnum q) in *. set (d := Zpos (Qden q)) in *.
  assert (0 < d) by (unfold d; lia).
  pose proof (Z.mul_div_le n d ltac:(lia)). pose proof (Z.div_pos n d ltac:(lia) ltac:(lia)).
  assert (n / d < m) by nia.
  destruct (2 * (n mod d) <? d), (d <? 2 * (n mod d)), (Z.even (n / d)); lia.
Qed.

(** [%.<p>f] of a float below [10^k - 1] in magnitude takes at most
    [k + p + 2] characters (sign, [k] digits, point, [p] decimals); [inf]
    and [nan] fit as well. *)

(** The digits of [%.<p>f] of a magnitude [q] below [10^k - 1]. *)
Lemma fixed_body_fits (sg : list ascii) q p k :
  (length sg <= 1)%nat -> (1 <= k)%nat -> (1 <= p)%nat ->
  (0 <= q)%Q -> (q < inject_Z (10 ^ Z.of_nat k - 1))%Q ->
  (length (sg ++ printf_unsigned 10 0 (round_half_even (q * inject_Z (10 ^ Z.of_nat p)) / 10 ^ Z.of_nat p) ++
     (if (p =? 0)%nat then []
      else "."%char :: printf_unsigned 10 p (round_half_even (q * inject_Z (10 ^ Z.of_nat p)) mod 10 ^ Z.of_nat p)))
   <= k + p + 2)%nat.
Proof.
  intros Hsg Hk Hp Hq0 Hq. set (scale := 10 ^ Z.of_nat p).
  assert (Hs : 0 < scale) by (unfold scale; apply Z.pow_pos_nonneg; lia).
  destruct (round_half_even_lt (q * inject_Z scale) ((10 ^ Z.of_nat k - 1) * scale)) as [Hn0 Hn].
  { apply Qmult_le_0_compat; [exact Hq0 | unfold Qle; cbn; lia]. }
  { rewrite inject_Z_mult. apply Qmult_lt_compat_r; [unfold Qlt; cbn; lia | exact Hq]. }
  set (n := round_half_even _) in *.
  assert (num_digits 10 (n / scale) <= k)%nat.
  { destruct k as [|k]; [lia|]. apply num_digits_le; [lia|].
    split; [apply Z.div_pos; lia|]. apply Z.div_lt_upper_bound; lia. }
  assert (num_digits 10 (n mod scale) <= p)%nat.
  { destruct p as [|p]; [lia|]. apply num_digits_le; [lia|]. apply Z.mod_pos_bound; lia. }
  destruct p as [|p']; [lia|]. rewrite !length_app, !length_printf_unsigned. cbn [length Nat.eqb].
  rewrite length_printf_unsigned. lia.
Qed.

(** [%.<p>f] of a float below [10^k - 1] in magnitude takes at most
    [k + p + 2] characters (sign, [k] digits, point, [p] decimals); [inf]
    and [nan] fit as well. *)
Lemma printf_f_fits p x k :
  (1 <= k)%nat -> (1 <= p)%nat ->
  (F32.is_finite x = true -> (Qabs (F32.to_Q x) < inject_Z (10 ^ Z.of_nat k - 1))%Q) ->
  (length (printf_f 0 p x) <= k + p + 2)%nat.
Proof.
  intros Hk Hp Hx. unfold printf_f. rewrite length_pad_left.
  destruct x as [s|s| |s m e]; cbn [F32.is_finite] in Hx;
    try (cbn; lia); try (cbn; destruct s; cbn; lia);
    (rewrite Nat.max_0_l; apply fixed_body_fits;
      [destruct (sign_bit _); cbn; lia | lia | lia | apply Qabs_nonneg | apply Hx; reflexivity]).
Qed.

(** ** The last character *)

Lemma num_digits_fuel_pos f base v : (1 <= num_digits_fuel f base v)%nat.
Proof. revert v; induction f; intros v; cbn [num_digits_fuel]; [lia|]. destruct (v <? base); lia. Qed.

(** A conversion ends with the units digit. *)
Lemma last_printf_unsigned base w v :
  list.last (printf_unsigned base w v) = Some (digit_char (v mod base)).
Proof.
  unfold printf_unsigned. pose proof (num_digits_fuel_pos 64 base v).
  unfold num_digits. destruct (Nat.max w (num_digits_fuel 64 base v)) as [|nd] eqn:E; [lia|].
  rewrite seq_S, map_app. cbn [map Nat.add]. rewrite last_snoc.
  now replace (S nd - 1 - nd)%nat with 0%nat by lia; rewrite Z.pow_0_r, Z.div_1_r.
Qed.

Lemma digit_char_not_space d : 0 <= d < 10 -> digit_char d <> " "%char.
Proof.
  intros Hd. assert (d = 0 \/ d = 1 \/ d = 2 \/ d = 3 \/ d = 4 \/ d = 5 \/ d = 6 \/ d = 7 \/ d = 8 \/ d = 9)
    as Hc by lia.
  repeat destruct Hc as [-> | Hc]; subst; discriminate.
Qed.

(** [%<w>.<p>f] of a finite float with [p >= 1] ends with a decimal. *)
Lemma last_printf_f w p x :
  F32.is_finite x = true -> (1 <= p)%nat ->
  list.last (printf_f w p x) = Some (digit_char ((round_half_even (Qabs (F32.to_Q x) * inject_Z (10 ^ Z.of_nat p))
                                                   mod 10 ^ Z.of_nat p) mod 10)).
Proof.
  intros Hx Hp. unfold printf_f, pad_left. destruct (Nat.eqb_spec p 0) as [|_]; [lia|].
  destruct x; try discriminate; rewrite !last_app, last_cons, last_printf_unsigned; reflexivity.
Qed.
