(* ===== verification/Carloop.v ===== *)
(** * CarloopFacade: the class template [Carloop<Config>]

    src/src/carloop.h declares the object, src/src/carloop.cpp defines its
    methods.  The object is the record [Carloop] (its six data members); a
    method is a computation of the state monad [St World] over the object
    and the board ([Hal]), and calls into the CAN driver and the GPS parser
    go through their classes ([CanChannel], [GpsParser]).  The constructor
    leaves [batteryVoltage] and [features] uninitialised: [Carloop_ctor]
    takes the values the storage held, and [Carloop_static] is the object
    every example application declares, a global, whose storage is
    zero-initialised.  [Op] lists the public methods and the two inputs
    the environment provides (a CAN frame from the bus, a new analog level
    on a pin); [run_ops] runs a sequence of them. *)

From Stdlib Require Import Setoid Morphisms String.
From S2P Require Import Prelude Float32 Board FeatureGate Hal CanChannel GpsParser Battery.
Open Scope Z_scope.
Open Scope carloop_scope.

Section Facade.

Context {C : Type} `{CanChannel C}.
Context {P : Type} `{GpsParser P}.
Variable cfg : BoardConfig.

(** The data members of [Carloop<Config>]; [gpsSerialThread] is [NULL]
    ([None]) or the thread created for the serial reader. *)
Record Carloop := mkCarloop {
  canDriver : C;
  canSpeed : Z;
  gpsSerialThread : option nat;
  gpsDriver : P;
  batteryVoltage : F32.float;
  features : Z
}.

Record World := mkWorld { obj : Carloop; hal : Hal }.

(** The constructor: [canDriver(Config::CAN_PINS)],
    [canSpeed(Config::CAN_DEFAULT_SPEED)], [gpsSerialThread(NULL)]; the
    parser is default-constructed; the two other members keep [v0] and
    [f0], whatever the storage held. *)
Definition Carloop_ctor (v0 : F32.float) (f0 : Z) : Carloop :=
  {| canDriver := can_make (CAN_PINS cfg); canSpeed := CAN_DEFAULT_SPEED cfg;
     gpsSerialThread := None; gpsDriver := gps_init; batteryVoltage := v0; features := f0 |}.

(** A global object: static storage is zero-initialised before the
    constructor runs. *)
Definition Carloop_static : Carloop := Carloop_ctor F32.zero 0.

(** ** Access to the two halves of the state *)

Definition on_hal {A} (m : St Hal A) : St World A :=
  fun w => let '(a, h) := m (hal w) in (a, mkWorld (obj w) h).

Definition on_obj (f : Carloop -> Carloop) : St World unit :=
  st_modify (fun w => mkWorld (f (obj w)) (hal w)).

Definition get_obj : St World Carloop := fun w => (obj w, w).

Definition set_canDriver (c : C) (o : Carloop) : Carloop :=
  mkCarloop c (canSpeed o) (gpsSerialThread o) (gpsDriver o) (batteryVoltage o) (features o).
Definition set_canSpeed (s : Z) (o : Carloop) : Carloop :=
  mkCarloop (canDriver o) s (gpsSerialThread o) (gpsDriver o) (batteryVoltage o) (features o).
Definition set_gpsSerialThread (t : option nat) (o : Carloop) : Carloop :=
  mkCarloop (canDriver o) (canSpeed o) t (gpsDriver o) (batteryVoltage o) (features o).
Definition set_batteryVoltage (v : F32.float) (o : Carloop) : Carloop :=
  mkCarloop (canDriver o) (canSpeed o) (gpsSerialThread o) (gpsDriver o) v (features o).
Definition set_features (f : Z) (o : Carloop) : Carloop :=
  mkCarloop (canDriver o) (canSpeed o) (gpsSerialThread o) (gpsDriver o) (batteryVoltage o) f.

(** [canDriver.begin(rate)] and [canDriver.end()], logged. *)
Definition canDriver_begin (rate : Z) : St World unit :=
  on_obj (fun o => set_canDriver (can_begin rate (canDriver o)) o);;
  on_hal (st_modify (log_event (EvCanBegin rate))).

Definition canDriver_end : St World unit :=
  on_obj (fun o => set_canDriver (can_end (canDriver o)) o);;
  on_hal (st_modify (log_event EvCanEnd)).

(** ** The methods *)

Definition setCANSpeed (speed : Z) : St World unit :=
  on_obj (set_canSpeed (wrap32 speed)).

Definition enableCAN : St World unit :=
  on_hal (pinMode (CAN_ENABLE_PIN cfg) OUTPUT);;
  on_hal (digitalWrite (CAN_ENABLE_PIN cfg) (CAN_ENABLE_ACTIVE cfg));;
  do o <- get_obj;
  canDriver_begin (canSpeed o).

Definition disableCAN : St World unit :=
  canDriver_end;;
  on_hal (digitalWrite (CAN_ENABLE_PIN cfg) (CAN_ENABLE_INACTIVE cfg)).

Definition enableGPS : St World unit :=
  on_hal (pinMode (GPS_ENABLE_PIN cfg) OUTPUT);;
  on_hal (digitalWrite (GPS_ENABLE_PIN cfg) (GPS_ENABLE_ACTIVE cfg));;
  on_hal (Serial1_begin (GPS_BAUD_RATE cfg));;
  do o <- get_obj;
  match gpsSerialThread o with
  | None => do t <- on_hal (Thread_new "gps_serial"); on_obj (set_gpsSerialThread (Some t))
  | Some _ => st_ret tt
  end.

Definition disableGPS : St World unit :=
  on_hal (digitalWrite (GPS_ENABLE_PIN cfg) (GPS_ENABLE_INACTIVE cfg)).

Definition readBattery : St World F32.float :=
  do adcValue <- on_hal (analogRead (BATTERY_PIN cfg));
  st_ret (battery_voltage (BATTERY_FACTOR cfg) adcValue).

Definition enableBattery : St World unit :=
  on_hal (pinMode (BATTERY_PIN cfg) INPUT);;
  do _ <- readBattery; st_ret tt.

Definition begin (f : Z) : St World unit :=
  on_obj (set_features f);;
  st_when (hasCAN cfg f) enableCAN;;
  st_when (hasGPS cfg f) enableGPS;;
  st_when (hasBattery cfg f) enableBattery.

Definition update : St World unit :=
  do o <- get_obj;
  st_when (hasBattery cfg (features o))
    (do v <- readBattery; on_obj (set_batteryVoltage v)).

Definition battery : St World F32.float :=
  do o <- get_obj; st_ret (batteryVoltage o).

Definition gps : St World P :=
  do o <- get_obj; st_ret (gpsDriver o).

(** [can().receive(message)], [can().transmit(message)],
    [can().isEnabled()]: calls through the reference [can()] returns. *)
Definition can_receive_call : St World (option CANMessage) :=
  do o <- get_obj;
  let '(r, c) := can_receive (canDriver o) in
  on_obj (set_canDriver c);; st_ret r.

Definition can_transmit_call (m : CANMessage) : St World bool :=
  do o <- get_obj;
  let '(r, c) := can_transmit m (canDriver o) in
  on_obj (set_canDriver c);; st_ret r.

Definition can_isEnabled_call : St World bool :=
  do o <- get_obj; st_ret (can_isEnabled (canDriver o)).

(** ** The public interface and the environment's inputs *)

Inductive Op :=
  | OpSetCANSpeed (speed : Z)
  | OpBegin (f : Z)
  | OpUpdate
  | OpEnableCAN
  | OpDisableCAN
  | OpEnableGPS
  | OpDisableGPS
  | OpEnableBattery
  | OpCanReceive
  | OpCanTransmit (m : CANMessage)
  | OpBusFrame (m : CANMessage)
  | OpAnalogLevel (p : Pin) (v : Z).

Definition bus_frame (m : CANMessage) : St World unit :=
  on_obj (fun o => set_canDriver (can_deliver m (canDriver o)) o).

Definition analog_level (p : Pin) (v : Z) : St World unit :=
  on_hal (st_modify (fun h =>
    {| pin_mode := pin_mode h; pin_level := pin_level h; analog_in := upd (analog_in h) p v;
       serial1_baud := serial1_baud h; serial_baud := serial_baud h; threads := threads h;
       hal_log := hal_log h |})).

Definition run_op (op : Op) : St World unit :=
  match op with
  | OpSetCANSpeed s => setCANSpeed s
  | OpBegin f => begin f
  | OpUpdate => update
  | OpEnableCAN => enableCAN
  | OpDisableCAN => disableCAN
  | OpEnableGPS => enableGPS
  | OpDisableGPS => disableGPS
  | OpEnableBattery => enableBattery
  | OpCanReceive => do _ <- can_receive_call; st_ret tt
  | OpCanTransmit m => do _ <- can_transmit_call m; st_ret tt
  | OpBusFrame m => bus_frame m
  | OpAnalogLevel p v => analog_level p v
  end.

Definition run_ops (ops : list Op) (w : World) : World :=
  fold_left (fun w op => exec (run_op op) w) ops w.

End Facade.

Arguments Carloop : clear implicits.
Arguments World : clear implicits.

(** ** What each method does *)

Section FacadeFacts.

Context {C : Type} `{CanChannelLaws C}.
Context {P : Type} `{GpsParser P}.
Variable cfg : BoardConfig.

Implicit Types (w : World C P) (o : Carloop C P).

(** Unfold the methods and the monad down to record operations. *)
Ltac facade_cbn :=
  repeat progress (
    unfold run_op, exec, eval, begin, update, battery, enableCAN, disableCAN, enableGPS,
      disableGPS, enableBattery, readBattery, setCANSpeed, canDriver_begin, canDriver_end,
      can_receive_call, can_transmit_call, bus_frame, analog_level,
      on_hal, on_obj, get_obj, st_bind, st_ret, st_modify, st_when in *; cbn in * ).

(** The hardware calls of each method, in the order the source makes them. *)
Definition enableCAN_trace (speed : Z) : list HalEvent :=
  [EvPinMode (CAN_ENABLE_PIN cfg) OUTPUT;
   EvDigitalWrite (CAN_ENABLE_PIN cfg) (CAN_ENABLE_ACTIVE cfg);
   EvCanBegin speed].

Definition enableGPS_trace (spawn : bool) : list HalEvent :=
  [EvPinMode (GPS_ENABLE_PIN cfg) OUTPUT;
   EvDigitalWrite (GPS_ENABLE_PIN cfg) (GPS_ENABLE_ACTIVE cfg);
   EvSerial1Begin (GPS_BAUD_RATE cfg)] ++
  (if spawn then [EvThreadNew "gps_serial"] else []).

Definition enableBattery_trace (code : Z) : list HalEvent :=
  [EvPinMode (BATTERY_PIN cfg) INPUT; EvAnalogRead (BATTERY_PIN cfg) code].

(** The code [analogRead] returns on the battery pin. *)
Definition battery_code (h : Hal) : Z := Z.max 0 (Z.min 4095 (analog_in h (BATTERY_PIN cfg))).

Lemma enableCAN_obj w :
  obj (exec (enableCAN cfg) w) = set_canDriver (can_begin (canSpeed (obj w)) (canDriver (obj w))) (obj w).
Proof. reflexivity. Qed.

Lemma enableCAN_log w :
  hal_log (hal (exec (enableCAN cfg) w)) = hal_log (hal w) ++ enableCAN_trace (canSpeed (obj w)).
Proof. cbn. now rewrite <- !app_assoc. Qed.

Lemma enableGPS_obj w :
  obj (exec (enableGPS cfg) w) =
  match gpsSerialThread (obj w) with
  | None => set_gpsSerialThread (Some (length (threads (hal w)))) (obj w)
  | Some _ => obj w
  end.
Proof. facade_cbn. now destruct (gpsSerialThread (obj w)). Qed.

Lemma enableGPS_log w :
  hal_log (hal (exec (enableGPS cfg) w)) =
  hal_log (hal w) ++ enableGPS_trace (bool_decide (gpsSerialThread (obj w) = None)).
Proof. facade_cbn. destruct (gpsSerialThread (obj w)); cbn; now rewrite <- !app_assoc. Qed.

Lemma enableGPS_threads w :
  threads (hal (exec (enableGPS cfg) w)) =
  threads (hal w) ++ (if bool_decide (gpsSerialThread (obj w) = None) then ["gps_serial"%string] else []).
Proof. facade_cbn. destruct (gpsSerialThread (obj w)); cbn; [now rewrite app_nil_r | reflexivity]. Qed.

Lemma enableBattery_obj w : obj (exec (enableBattery cfg) w) = obj w.
Proof. reflexivity. Qed.

Lemma enableBattery_log w :
  hal_log (hal (exec (enableBattery cfg) w)) = hal_log (hal w) ++ enableBattery_trace (battery_code (hal w)).
Proof. cbn. now rewrite <- !app_assoc. Qed.

Lemma enableCAN_hal_frame w :
  analog_in (hal (exec (enableCAN cfg) w)) = analog_in (hal w) /\
  threads (hal (exec (enableCAN cfg) w)) = threads (hal w).
Proof. split; reflexivity. Qed.

Lemma enableGPS_analog w : analog_in (hal (exec (enableGPS cfg) w)) = analog_in (hal w).
Proof. facade_cbn. now destruct (gpsSerialThread (obj w)). Qed.

Lemma begin_obj_features f w : features (obj (exec (begin cfg f) w)) = f.
Proof.
  facade_cbn.
  destruct (hasCAN cfg f), (hasGPS cfg f), (hasBattery cfg f); cbn;
    try destruct (gpsSerialThread _); reflexivity.
Qed.

(** Split every [match] and [if] left in the goal. *)
Ltac case_all := repeat (case_match; facade_cbn; simplify_eq).

(** C1: [begin(f)] records [f], then enables CAN, GPS and the battery in
    this order, each only when the gate reports it, each making exactly the
    hardware calls of its method; the GPS thread is created only when none
    exists yet. *)
Theorem begin_log f w :
  hal_log (hal (exec (begin cfg f) w)) =
  hal_log (hal w) ++
  (if hasCAN cfg f then enableCAN_trace (canSpeed (obj w)) else []) ++
  (if hasGPS cfg f then enableGPS_trace (bool_decide (gpsSerialThread (obj w) = None)) else []) ++
  (if hasBattery cfg f then enableBattery_trace (battery_code (hal w)) else []).
Proof.
  facade_cbn. unfold battery_code.
  destruct (hasCAN cfg f), (hasGPS cfg f), (hasBattery cfg f); cbn;
    destruct (gpsSerialThread (obj w)); cbn; rewrite <- ?app_assoc, ?app_nil_r; reflexivity.
Qed.

(** The GPS reader thread: none yet and no thread on the board, or the
    object's handle is the board's only thread, the serial reader. *)
Definition thread_inv w : Prop :=
  (gpsSerialThread (obj w) = None /\ threads (hal w) = []) \/
  (gpsSerialThread (obj w) = Some 0%nat /\ threads (hal w) = ["gps_serial"%string]).

Lemma run_op_thread_inv op w : thread_inv w -> thread_inv (exec (run_op cfg op) w).
Proof.
  unfold thread_inv.
  intros [[E1 E2]|[E1 E2]]; destruct op; facade_cbn; rewrite ?E1, ?E2; case_all;
    rewrite ?E1, ?E2; cbn; first [left; split; congruence | right; split; congruence].
Qed.

Lemma run_ops_cons ops op w : run_ops cfg (op :: ops) w = run_ops cfg ops (exec (run_op cfg op) w).
Proof. reflexivity. Qed.

Lemma run_ops_invariant (I : World C P -> Prop) ops w :
  (forall op w, I w -> I (exec (run_op cfg op) w)) -> I w -> I (run_ops cfg ops w).
Proof. intros Hstep Hw. unfold run_ops. apply fold_left_invariant; auto. Qed.

(** C4: whatever sequence of public calls and inputs follows the
    construction of the global object, at most one background thread is
    ever created, it is the GPS serial reader, and [gpsSerialThread] holds
    it exactly when it exists (in particular, calling [enableGPS] again,
    directly or through [begin], never creates a second one). *)
Theorem gps_single_thread ops adc :
  thread_inv (run_ops cfg ops (mkWorld (Carloop_static cfg) (hal_init adc))).
Proof. apply run_ops_invariant; [apply run_op_thread_inv | left; auto]. Qed.

Lemma run_op_thread_kept op w t :
  gpsSerialThread (obj w) = Some t -> gpsSerialThread (obj (exec (run_op cfg op) w)) = Some t.
Proof. intros E. destruct op; facade_cbn; rewrite ?E; case_all; rewrite ?E; auto. Qed.

(** The ingest task's life cycle: once created, the thread handle never
    changes again (there is no transition back, and no stop). *)
Theorem gps_thread_terminal ops w t :
  gpsSerialThread (obj w) = Some t -> gpsSerialThread (obj (run_ops cfg ops w)) = Some t.
Proof.
  intros E. apply (run_ops_invariant (fun w => gpsSerialThread (obj w) = Some t));
    [intros; now apply run_op_thread_kept | exact E].
Qed.

(** ** The CAN bit rate: staged by [setCANSpeed], applied by [enableCAN] *)

Lemma receive_pair c r c' :
  can_receive c = (r, c') -> can_bitrate c' = can_bitrate c /\ can_isEnabled c' = can_isEnabled c.
Proof.
  intros E. pose proof (can_receive_bitrate c). pose proof (can_receive_enabled c).
  rewrite E in *. auto.
Qed.

Lemma transmit_pair m c r c' :
  can_transmit m c = (r, c') -> can_bitrate c' = can_bitrate c /\ can_isEnabled c' = can_isEnabled c.
Proof.
  intros E. pose proof (can_transmit_bitrate m c). pose proof (can_transmit_enabled m c).
  rewrite E in *. auto.
Qed.

(** Replace a call of the channel by what its laws say of the result. *)
Ltac chan_pair :=
  repeat match goal with
  | E : can_receive _ = (_, _) |- _ => apply receive_pair in E as [? ?]
  | E : can_transmit _ _ = (_, _) |- _ => apply transmit_pair in E as [? ?]
  end.

(** The operations that start the channel. *)
Definition enables_can (op : Op) : bool :=
  match op with
  | OpEnableCAN => true
  | OpBegin f => hasCAN cfg f
  | _ => false
  end.

Lemma run_op_bitrate op w :
  enables_can op = false ->
  can_bitrate (canDriver (obj (exec (run_op cfg op) w))) = can_bitrate (canDriver (obj w)).
Proof.
  destruct op; cbn [enables_can]; intros Hc; facade_cbn; case_all; chan_pair;
    cbn; rewrite ?can_end_bitrate, ?can_deliver_bitrate; congruence.
Qed.

Lemma run_ops_app ops1 ops2 w : run_ops cfg (ops1 ++ ops2) w = run_ops cfg ops2 (run_ops cfg ops1 w).
Proof. apply fold_left_app. Qed.

(** C20: the live bit rate of the channel changes only when the channel is
    started: any sequence of calls and inputs without [enableCAN] (or a
    [begin] that enables CAN), [setCANSpeed] and [disableCAN] included,
    leaves it as it was. *)
Theorem can_bitrate_stable ops w :
  forallb (fun op => negb (enables_can op)) ops = true ->
  can_bitrate (canDriver (obj (run_ops cfg ops w))) = can_bitrate (canDriver (obj w)).
Proof.
  revert w. induction ops as [|op ops IH]; intros w Hops; [reflexivity|].
  cbn in Hops. apply andb_true_iff in Hops as [Hop Hops]. apply negb_true_iff in Hop.
  rewrite run_ops_cons, IH by exact Hops. now apply run_op_bitrate.
Qed.

Definition sets_speed (op : Op) : bool :=
  match op with OpSetCANSpeed _ => true | _ => false end.

Lemma run_op_canSpeed op w :
  sets_speed op = false -> canSpeed (obj (exec (run_op cfg op) w)) = canSpeed (obj w).
Proof. destruct op; cbn [sets_speed]; intros Hs; facade_cbn; case_all; cbn; congruence. Qed.

Lemma run_ops_canSpeed ops w :
  forallb (fun op => negb (sets_speed op)) ops = true ->
  canSpeed (obj (run_ops cfg ops w)) = canSpeed (obj w).
Proof.
  revert w. induction ops as [|op ops IH]; intros w Hops; [reflexivity|].
  cbn in Hops. apply andb_true_iff in Hops as [Hop Hops]. apply negb_true_iff in Hop.
  rewrite run_ops_cons, IH by exact Hops. now apply run_op_canSpeed.
Qed.

(** C21: a speed staged with [setCANSpeed(s)] is the bit rate the channel
    runs at after the next [enableCAN], whatever happens in between as long
    as no other speed is staged. *)
Theorem enableCAN_applies_staged_speed s ops w :
  forallb (fun op => negb (sets_speed op)) ops = true ->
  let w' := run_ops cfg (OpSetCANSpeed s :: ops ++ [OpEnableCAN]) w in
  can_isEnabled (canDriver (obj w')) = true /\ can_bitrate (canDriver (obj w')) = wrap32 s.
Proof.
  intros Hops w'. subst w'. rewrite run_ops_cons, run_ops_app. cbn [run_ops fold_left].
  change (exec (run_op cfg OpEnableCAN)) with (exec (@enableCAN C _ P cfg)).
  rewrite enableCAN_obj. cbn. rewrite can_begin_enabled, can_begin_bitrate.
  split; [reflexivity|]. now rewrite run_ops_canSpeed.
Qed.

(** [disableCAN] ends the channel, then drives the enable pin inactive. *)
Theorem disableCAN_effect w :
  let w' := exec (disableCAN cfg) w in
  can_isEnabled (canDriver (obj w')) = false /\
  pin_level (hal w') (CAN_ENABLE_PIN cfg) = Some (CAN_ENABLE_INACTIVE cfg) /\
  hal_log (hal w') = hal_log (hal w) ++
    [EvCanEnd; EvDigitalWrite (CAN_ENABLE_PIN cfg) (CAN_ENABLE_INACTIVE cfg)].
Proof.
  cbn. rewrite can_end_disabled, upd_same. rewrite <- app_assoc. auto.
Qed.

(** [can().receive] on a disabled channel returns at once with no
    frame and changes nothing. *)
Theorem receive_when_disabled w :
  can_isEnabled (canDriver (obj w)) = false -> can_receive_call w = (None, w).
Proof.
  intros Hd. facade_cbn. rewrite (can_receive_disabled _ Hd).
  destruct w as [[] h]. reflexivity.
Qed.

(** ** The battery cache *)

Lemma run_op_batteryVoltage op w :
  op <> OpUpdate -> batteryVoltage (obj (exec (run_op cfg op) w)) = batteryVoltage (obj w).
Proof. destruct op; intros Hu; facade_cbn; case_all; cbn; congruence. Qed.

(** [update] leaves the cache or stores the conversion of the code on the
    battery pin. *)
Lemma update_batteryVoltage w :
  batteryVoltage (obj (exec (update cfg) w)) = batteryVoltage (obj w) \/
  batteryVoltage (obj (exec (update cfg) w)) = battery_voltage (BATTERY_FACTOR cfg) (battery_code (hal w)).
Proof. facade_cbn. unfold battery_code. destruct (hasBattery cfg (features (obj w))); cbn; auto. Qed.

Lemma run_ops_batteryVoltage ops w :
  ~ In OpUpdate ops -> batteryVoltage (obj (run_ops cfg ops w)) = batteryVoltage (obj w).
Proof.
  revert w. induction ops as [|op ops IH]; intros w Hnot; [reflexivity|].
  rewrite run_ops_cons, IH by (intros Hin; apply Hnot; now right).
  apply run_op_batteryVoltage. intros ->. apply Hnot. now left.
Qed.

(** C23: [battery()] returns the member [batteryVoltage], which only
    [update()] writes: before the first [update()], whatever was called
    ([begin], [enableBattery] and its discarded sample included), it is the
    value the storage held when the object was constructed. *)
Theorem battery_stale_until_update v0 f0 h ops :
  ~ In OpUpdate ops ->
  eval (battery (C:=C) (P:=P)) (run_ops cfg ops (mkWorld (Carloop_ctor cfg v0 f0) h)) = v0.
Proof. intros Hnot. unfold eval, battery, st_bind, get_obj, st_ret. cbn. now rewrite run_ops_batteryVoltage. Qed.

(** [update()] samples the battery pin and caches the conversion of
    the code when the battery is active, and leaves the cache (and the
    board) untouched otherwise. *)
Theorem update_caches_reading w :
  let w' := exec (update cfg) w in
  if hasBattery cfg (features (obj w)) then
    batteryVoltage (obj w') = battery_voltage (BATTERY_FACTOR cfg) (battery_code (hal w)) /\
    hal_log (hal w') = hal_log (hal w) ++ [EvAnalogRead (BATTERY_PIN cfg) (battery_code (hal w))]
  else w' = w.
Proof. facade_cbn. unfold battery_code. destruct (hasBattery cfg (features (obj w))); cbn; auto. Qed.

(** ** Power sequencing *)

Section WithWellFormedBoard.

Hypothesis Hwf : config_wf cfg = true.

(** C24: after [begin(f)] on a consistent board, the CAN enable pin is at
    its active level if and only if CAN was enabled (otherwise it is as it
    was), the same for the GPS enable pin, and the battery pin is an input
    if the battery was enabled: enabling one subsystem never drives
    another's pin. *)
Theorem begin_power f w :
  let h := hal (exec (begin cfg f) w) in
  pin_level h (CAN_ENABLE_PIN cfg) =
    (if hasCAN cfg f then Some (CAN_ENABLE_ACTIVE cfg) else pin_level (hal w) (CAN_ENABLE_PIN cfg)) /\
  pin_level h (GPS_ENABLE_PIN cfg) =
    (if hasGPS cfg f then Some (GPS_ENABLE_ACTIVE cfg) else pin_level (hal w) (GPS_ENABLE_PIN cfg)) /\
  pin_mode h (BATTERY_PIN cfg) =
    (if hasBattery cfg f then Some INPUT else pin_mode (hal w) (BATTERY_PIN cfg)).
Proof.
  destruct (config_wf_pins cfg Hwf) as (_ & _ & Hcg & Hcb & Hgb).
  cbv zeta. facade_cbn. destruct (hasCAN cfg f), (hasGPS cfg f), (hasBattery cfg f); cbn;
    destruct (gpsSerialThread (obj w)); cbn; unfold upd;
    repeat case_decide; repeat split; congruence.
Qed.

End WithWellFormedBoard.

(** ** Idempotence, up to the log *)

Definition world_equiv (w1 w2 : World C P) : Prop := obj w1 = obj w2 /\ hal w1 ≈hal hal w2.

#[local] Infix "≈w" := world_equiv (at level 70).

#[export] Instance world_equiv_Equivalence : Equivalence world_equiv.
Proof.
  split.
  - intros w. split; reflexivity.
  - intros w1 w2 [Eo Eh]. split; now symmetry.
  - intros w1 w2 w3 [Eo1 Eh1] [Eo2 Eh2]. split; [congruence | etransitivity; eauto].
Qed.

(** enabling GPS a second time only repeats the pin and serial
    configuration: the board and the object end up as after one call, and
    in particular no second thread is created. *)
Theorem enableGPS_idempotent w :
  exec (enableGPS cfg) (exec (enableGPS cfg) w) ≈w exec (enableGPS cfg) w.
Proof.
  facade_cbn. destruct (gpsSerialThread (obj w)) eqn:E; cbn; rewrite ?E; cbn;
    (split; [reflexivity | repeat split; cbn; intros; unfold upd; repeat case_decide; congruence]).
Qed.

(** [disableGPS] is idempotent as well. *)
Lemma disableGPS_idempotent w :
  exec (disableGPS cfg) (exec (disableGPS cfg) w) ≈w exec (disableGPS cfg) w.
Proof.
  facade_cbn. split; [reflexivity | repeat split; cbn; intros; unfold upd; repeat case_decide; congruence].
Qed.

End FacadeFacts.

(** ** Witnesses: revision 2 with the queue channel and the line parser *)

Import QueueChannel LineParser.

(** The global object on a board whose analog inputs all read [adc]. *)
Definition rev2_world (adc : Z) : World QChan LP :=
  mkWorld (Carloop_static CarloopRevision2) (hal_init (fun _ => adc)).

Lemma can_bitrate_stable_witness :
  let w := exec (begin CarloopRevision2 CARLOOP_ALL_FEATURES) (rev2_world 2048) in
  can_bitrate (canDriver (obj (run_ops CarloopRevision2
    [OpSetCANSpeed 125000; OpCanReceive; OpUpdate; OpDisableCAN] w))) =
  can_bitrate (canDriver (obj w)).
Proof. apply can_bitrate_stable. reflexivity. Defined.

Lemma enableCAN_applies_staged_speed_witness :
  let w' := run_ops CarloopRevision2
              (OpSetCANSpeed 250000 :: [OpEnableGPS; OpUpdate] ++ [OpEnableCAN]) (rev2_world 2048) in
  can_isEnabled (canDriver (obj w')) = true /\ can_bitrate (canDriver (obj w')) = wrap32 250000.
Proof. apply enableCAN_applies_staged_speed. reflexivity. Defined.

Lemma receive_when_disabled_witness :
  can_receive_call (rev2_world 0) = (None, rev2_world 0).
Proof. apply receive_when_disabled. reflexivity. Defined.

Lemma battery_stale_until_update_witness :
  eval (battery (C:=QChan) (P:=LP))
    (run_ops CarloopRevision2 [OpBegin CARLOOP_ALL_FEATURES; OpEnableBattery]
       (mkWorld (Carloop_ctor CarloopRevision2 F32.zero 0) (hal_init (fun _ => 2048)))) = F32.zero.
Proof. apply battery_stale_until_update. cbn. intuition discriminate. Defined.

Lemma begin_power_witness :
  let h := hal (exec (begin CarloopRevision2 CARLOOP_ALL_FEATURES) (rev2_world 0)) in
  pin_level h D0 = Some LOW /\ pin_level h A0 = Some HIGH /\ pin_mode h A1 = Some INPUT.
Proof. apply (begin_power CarloopRevision2). reflexivity. Defined.

Lemma gps_thread_terminal_witness :
  gpsSerialThread (obj (run_ops CarloopRevision2 [OpBegin CARLOOP_ALL_FEATURES; OpDisableGPS]
    (exec (enableGPS CarloopRevision2) (rev2_world 0)))) = Some 0%nat.
Proof. apply gps_thread_terminal. reflexivity. Defined.

Lemma disableCAN_effect_witness :
  let w' := exec (disableCAN CarloopRevision2) (exec (enableCAN CarloopRevision2) (rev2_world 0)) in
  can_isEnabled (canDriver (obj w')) = false /\
  pin_level (hal w') D0 = Some HIGH /\
  hal_log (hal w') = hal_log (hal (exec (enableCAN CarloopRevision2) (rev2_world 0))) ++
    [EvCanEnd; EvDigitalWrite D0 HIGH].
Proof. apply disableCAN_effect. Defined.

(** ** [receive] on the queue channel *)

Section QueueReceive.

Context {P : Type} `{GpsParser P}.
Implicit Types w : World QChan P.

(** The world after [receive] took the head of the queue, leaving [rx]. *)
Definition rx_pop w (rx : list CANMessage) : World QChan P :=
  let c := canDriver (obj w) in
  mkWorld (set_canDriver (qc_set c true (qc_rate c) rx (qc_tx c)) (obj w)) (hal w).

Lemma can_receive_call_head w m rx :
  qc_enabled (canDriver (obj w)) = true -> qc_rx (canDriver (obj w)) = m :: rx ->
  can_receive_call w = (Some m, rx_pop w rx).
Proof.
  intros Hen Hrx. unfold can_receive_call, get_obj, st_bind, st_ret, on_obj, st_modify; cbn.
  unfold qc_receive. now rewrite Hen, Hrx.
Qed.

Lemma can_receive_call_empty w :
  qc_enabled (canDriver (obj w)) = true -> qc_rx (canDriver (obj w)) = [] ->
  can_receive_call w = (None, w).
Proof.
  intros Hen Hrx. destruct w as [o h].
  unfold can_receive_call, get_obj, st_bind, st_ret, on_obj, st_modify; cbn in *.
  unfold qc_receive. rewrite Hen, Hrx. cbn. now destruct o.
Qed.

End QueueReceive.
