(* ===== verification/GpsIngest.v ===== *)
(** * GpsIngestTask: the serial reader thread and the parser's lock

    src/src/carloop.cpp, [receiveSerialChars]: the thread created by
    [enableGPS] loops forever; each iteration takes the parser's mutex
    ([WITH_LOCK(gpsDriver)]), moves every byte available on [Serial1] into
    [gpsDriver.encode], releases the mutex and sleeps for 1 ms.  A
    foreground reader (src/examples/carloop_minimal, [printValues]) takes
    the same mutex around its reads of several parser fields; the older
    example (src/firmware/examples/minimal_example.cpp, [printValues])
    reads them without it.  The UART adds bytes to [Serial1]'s receive
    buffer at any time, and drops a byte when the buffer is full.

    The system is a step relation over [Sys]; the three actors interleave
    one statement at a time.  The ghost fields [received] (the bytes the
    buffer accepted) and [consumed] (the bytes the thread read) state what
    the thread does to the stream.  Proved: the lock gives mutual exclusion,
    the parser has decoded exactly a prefix of the accepted stream, in
    order, missing only the bytes still buffered, a locked reader sees all
    its fields from one such parser state, the drain loop empties the buffer
    in a bounded number of steps, the thread can always make progress unless
    the reader holds the lock.  The firmware example's unlocked reads are
    not given a theorem: the parser interface exposes no decoded fix that
    changes with the stream, so a torn read of the fields it prints cannot
    be exhibited faithfully. *)

From Stdlib Require Import Ascii.
From stdpp Require Import relations.
From S2P Require Import Prelude GpsParser.
Open Scope Z_scope.

Inductive Owner := Bg | Fg.

#[export] Instance Owner_eq_dec : EqDecision Owner.
Proof. solve_decision. Defined.

(** The statements of [receiveSerialChars]. *)
Inductive BgPC :=
  | BgLock                  (** [WITH_LOCK(gpsDriver)]: acquire the mutex *)
  | BgAvail                 (** [while (Serial1.available())] *)
  | BgRead                  (** [char c = Serial1.read();] *)
  | BgEncode (c : ascii)    (** [gpsDriver.encode(c);] *)
  | BgUnlock                (** end of the [WITH_LOCK] scope: release *)
  | BgDelay.                (** [delay(1);] *)

(** A foreground reader of several fields: not started, reading with
    [got] the values read so far, or done. *)
Inductive FgPC {R : Type} :=
  | FgIdle
  | FgRead (got : list R)
  | FgDone (got : list R).
Arguments FgPC : clear implicits.

Section Ingest.

Context {P : Type} `{GpsParserLaws P}.

(** The fields the reader reads, in order, and whether it takes the lock. *)
Variable R : Type.
Variable fields : list (P -> R).
Variable locked : bool.
(** The size of [Serial1]'s receive buffer. *)
Variable rx_capacity : nat.

Record Sys := mkSys {
  parser : P;
  rx : list ascii;
  lock : option Owner;
  bg : BgPC;
  fg : FgPC R;
  received : list ascii;
  consumed : list ascii
}.

Definition sys_init : Sys := mkSys gps_init [] None BgLock FgIdle [] [].

Inductive step : Sys -> Sys -> Prop :=
  (** The UART receives [c]: queued if the buffer has room, else lost. *)
  | st_uart_accept p q l b f r k c :
      (length q < rx_capacity)%nat ->
      step (mkSys p q l b f r k) (mkSys p (q ++ [c]) l b f (r ++ [c]) k)
  | st_uart_drop p q l b f r k (c : ascii) :
      (rx_capacity <= length q)%nat ->
      step (mkSys p q l b f r k) (mkSys p q l b f r k)
  (** The background thread. *)
  | st_bg_lock p q f r k :
      step (mkSys p q None BgLock f r k) (mkSys p q (Some Bg) BgAvail f r k)
  | st_bg_avail p c q l f r k :
      step (mkSys p (c :: q) l BgAvail f r k) (mkSys p (c :: q) l BgRead f r k)
  | st_bg_empty p l f r k :
      step (mkSys p [] l BgAvail f r k) (mkSys p [] l BgUnlock f r k)
  | st_bg_read p c q l f r k :
      step (mkSys p (c :: q) l BgRead f r k) (mkSys p q l (BgEncode c) f r (k ++ [c]))
  | st_bg_encode p c q l f r k :
      step (mkSys p q l (BgEncode c) f r k) (mkSys (encode p c) q l BgAvail f r k)
  | st_bg_unlock p q l f r k :
      step (mkSys p q l BgUnlock f r k) (mkSys p q None BgDelay f r k)
  | st_bg_delay p q l f r k :
      step (mkSys p q l BgDelay f r k) (mkSys p q l BgLock f r k)
  (** The foreground reader: [WITH_LOCK(gps) { f1(gps); f2(gps); ... }],
      or the same reads without the lock. *)
  | st_fg_lock p q b r k :
      locked = true ->
      step (mkSys p q None b FgIdle r k) (mkSys p q (Some Fg) b (FgRead []) r k)
  | st_fg_start p q l b r k :
      locked = false ->
      step (mkSys p q l b FgIdle r k) (mkSys p q l b (FgRead []) r k)
  | st_fg_read p q l b got r k fld :
      fields !! length got = Some fld ->
      step (mkSys p q l b (FgRead got) r k) (mkSys p q l b (FgRead (got ++ [fld p])) r k)
  | st_fg_unlock p q b got r k :
      locked = true -> length got = length fields ->
      step (mkSys p q (Some Fg) b (FgRead got) r k) (mkSys p q None b (FgDone got) r k)
  | st_fg_finish p q l b got r k :
      locked = false -> length got = length fields ->
      step (mkSys p q l b (FgRead got) r k) (mkSys p q l b (FgDone got) r k).

Definition reachable (s : Sys) : Prop := star step sys_init s.

(** The byte the thread has read and not yet encoded. *)
Definition pending (b : BgPC) : list ascii :=
  match b with BgEncode c => [c] | _ => [] end.

(** The thread is inside its [WITH_LOCK] scope. *)
Definition bg_holds (b : BgPC) : bool :=
  match b with BgAvail | BgRead | BgEncode _ | BgUnlock => true | _ => false end.

(** The reader is inside its [WITH_LOCK] scope. *)
Definition fg_holds (f : FgPC R) : bool :=
  locked && match f with FgRead _ => true | _ => false end.

(** The values a reader gets from one parser state. *)
Definition snapshot (p : P) : list R := (fun fld => fld p) <$> fields.

(** ** The invariant *)

Definition reader_ok (s : Sys) : Prop :=
  match fg s with
  | FgIdle => True
  | FgRead got => locked = true -> got = take (length got) (snapshot (parser s))
  | FgDone got =>
      locked = true -> exists d, d `prefix_of` received s /\ got = snapshot (encode_all gps_init d)
  end.

Definition lock_ok (s : Sys) : Prop :=
  (lock s = Some Bg <-> bg_holds (bg s) = true) /\
  (lock s = Some Fg <-> fg_holds (fg s) = true).

Definition stream_ok (s : Sys) : Prop :=
  consumed s ++ rx s = received s /\
  exists d, consumed s = d ++ pending (bg s) /\ parser s = encode_all gps_init d.

(** The thread reads only after [available()] said a byte is there, and
    only the thread takes bytes out. *)
Definition read_ok (s : Sys) : Prop := bg s = BgRead -> rx s <> [].

Definition ingest_inv (s : Sys) : Prop :=
  lock_ok s /\ stream_ok s /\ reader_ok s /\ read_ok s.

Lemma read_ok_step s s' : read_ok s -> step s s' -> read_ok s'.
Proof.
  unfold read_ok. intros Hr Hstep. inversion Hstep; subst; cbn in *; auto; try discriminate.
  intros Hb. destruct q; discriminate.
Qed.

Lemma lock_ok_step s s' : lock_ok s -> step s s' -> lock_ok s'.
Proof.
  unfold lock_ok, fg_holds. intros [HB HF] Hstep.
  inversion Hstep; subst; cbn in *; rewrite ?H1 in *; cbn in *;
    try destruct f; intuition congruence.
Qed.

Lemma stream_ok_step s s' : stream_ok s -> step s s' -> stream_ok s'.
Proof.
  unfold stream_ok. intros [Hrx (d & Hd & Hp)] Hstep.
  inversion Hstep; subst; cbn in *; subst; rewrite ?app_nil_r in *;
    (split; [rewrite <- ?app_assoc; reflexivity|]).
  all: first [ exists d; split; [rewrite ?app_nil_r; reflexivity | reflexivity]
             | exists (d ++ [c]); rewrite app_nil_r, encode_all_app; split; reflexivity ].
Qed.

(** One more field read from an unchanged state extends the prefix read. *)
Lemma take_snapshot_snoc (p : P) got fld :
  fields !! length got = Some fld ->
  got = take (length got) (snapshot p) ->
  got ++ [fld p] = take (length (got ++ [fld p])) (snapshot p).
Proof.
  intros Hl Hg. rewrite length_app. cbn. rewrite Nat.add_1_r.
  rewrite (take_S_r _ _ (fld p)); [now rewrite <- Hg|].
  unfold snapshot. rewrite list_lookup_fmap, Hl. reflexivity.
Qed.

Lemma take_snapshot_full (p : P) got :
  length got = length fields -> got = take (length got) (snapshot p) -> got = snapshot p.
Proof.
  intros Hl Hg. rewrite Hg, Hl. apply take_ge. unfold snapshot. rewrite length_fmap. lia.
Qed.

Lemma pending_free b : bg_holds b = false -> pending b = [].
Proof. destruct b; cbn; congruence. Qed.

Lemma reader_ok_step s s' : lock_ok s -> stream_ok s -> reader_ok s -> step s s' -> reader_ok s'.
Proof.
  unfold lock_ok, stream_ok, reader_ok. intros [HB HF] [Hrx (d & Hd & Hp)] Hr Hstep.
  inversion Hstep; subst; cbn in *; try exact Hr.
  - (* the UART accepts a byte: the stream only grows *)
    destruct f as [|got|got]; auto. intros Hl.
    destruct (Hr Hl) as (d0 & Hpre & Hg). exists d0. split; [apply prefix_app_r|]; auto.
  - (* the thread encodes while a locked reader reads: excluded by the lock *)
    destruct f as [|got|got]; auto. intros Hl. exfalso.
    assert (Some Bg = Some Fg) by (rewrite <- (proj2 HF), <- (proj2 HB); unfold fg_holds;
                                   rewrite ?Hl; reflexivity).
    discriminate.
  - intros _. reflexivity.
  - intros _. reflexivity.
  - intros Hl. apply take_snapshot_snoc; auto.
  - (* the reader releases the lock with every field read from [p] *)
    intros Hl. exists d. split.
    + subst. rewrite <- !app_assoc. apply prefix_app_r. reflexivity.
    + rewrite <- Hp. apply take_snapshot_full; auto.
  - intros Hl. congruence.
Qed.

Lemma ingest_inv_step s s' : ingest_inv s -> step s s' -> ingest_inv s'.
Proof.
  intros (Hl & Hs & Hr & Hd) Hstep.
  split; [|split; [|split]]; eauto using lock_ok_step, stream_ok_step, reader_ok_step, read_ok_step.
Qed.

Lemma ingest_inv_init : ingest_inv sys_init.
Proof.
  split; [|split; [|split]]; cbn.
  - unfold lock_ok, fg_holds; cbn. destruct locked; intuition discriminate.
  - split; [reflexivity|]. exists []. auto.
  - exact I.
  - discriminate.
Qed.

Lemma reachable_inv s : reachable s -> ingest_inv s.
Proof. apply star_invariant; [apply ingest_inv_step | apply ingest_inv_init]. Qed.

(** C5: the thread's drain loop and a locked reader are never both inside
    their [WITH_LOCK] scopes. *)
Theorem gps_mutual_exclusion s :
  reachable s -> ~ (bg_holds (bg s) = true /\ fg_holds (fg s) = true).
Proof.
  intros Hs [Hb Hf]. destruct (reachable_inv s Hs) as ([HB HF] & _).
  apply HB in Hb. apply HF in Hf. congruence.
Qed.

(** C7: at every point of every run, the parser has decoded a prefix [d] of
    the bytes the serial buffer accepted, in order and each once: what is
    missing is the byte the thread holds between [read] and [encode] and
    the bytes still buffered; [charsProcessed] counts exactly [d]. *)
Theorem gps_ingest_lossless s :
  reachable s ->
  exists d, parser s = encode_all gps_init d /\
    d ++ pending (bg s) ++ rx s = received s /\
    charsProcessed (parser s) = Z.of_nat (length d).
Proof.
  intros Hs. destruct (reachable_inv s Hs) as (_ & [Hrx (d & Hd & Hp)] & _).
  exists d. split; [exact Hp|split].
  - rewrite app_assoc, <- Hd. exact Hrx.
  - rewrite Hp, charsProcessed_encode_all, charsProcessed_init. lia.
Qed.

(** C6: a reader that takes the lock gets every field from one and the same
    parser state, the state after decoding a prefix of the accepted stream:
    never a mix of two states, never a state in the middle of an
    [encode]. *)
Theorem gps_locked_snapshot s got :
  locked = true -> reachable s -> fg s = FgDone got ->
  exists d, d `prefix_of` received s /\ got = snapshot (encode_all gps_init d).
Proof.
  intros Hl Hs Hf. destruct (reachable_inv s Hs) as (_ & _ & Hr & _).
  unfold reader_ok in Hr. rewrite Hf in Hr. auto.
Qed.

(** C25: with no new input, the drain loop entered with [n] bytes buffered
    reaches the end of its [WITH_LOCK] scope in exactly [3 n + 1] steps, with
    the buffer empty and the [n] bytes encoded in order. *)
Theorem gps_drain_terminates p q l f r k :
  nsteps step (3 * length q + 1)
    (mkSys p q l BgAvail f r k) (mkSys (encode_all p q) [] l BgUnlock f r (k ++ q)).
Proof.
  revert p k. induction q as [|c q IH]; intros p k.
  - rewrite app_nil_r. apply nsteps_once. apply st_bg_empty.
  - replace (3 * length (c :: q) + 1)%nat with (S (S (S (3 * length q + 1)))) by (cbn; lia).
    eapply nsteps_l; [apply st_bg_avail|].
    eapply nsteps_l; [apply st_bg_read|].
    eapply nsteps_l; [apply st_bg_encode|].
    replace (k ++ c :: q) with ((k ++ [c]) ++ q) by (now rewrite <- app_assoc).
    apply IH.
Qed.

(** C26: the thread has no final state: in every reachable state it can take
    a step, unless it waits at the top of its loop for the mutex a reader
    holds. *)
Theorem gps_thread_progress s :
  reachable s ->
  (bg s = BgLock /\ lock s = Some Fg) \/ exists s', step s s' /\ bg s' <> bg s.
Proof.
  intros Hs. destruct (reachable_inv s Hs) as ([HB HF] & _ & _ & Hrd).
  destruct s as [p q l b f r k]; unfold read_ok in Hrd; cbn in *.
  destruct b.
  - destruct l as [[|]|].
    + exfalso. assert (bg_holds BgLock = true) by (apply HB; reflexivity). discriminate.
    + left. auto.
    + right. eexists. split; [apply st_bg_lock | discriminate].
  - destruct q; right; eexists; (split; [apply st_bg_empty || apply st_bg_avail | discriminate]).
  - destruct q as [|c q].
    + exfalso. now apply Hrd.
    + right. eexists. split; [apply st_bg_read | discriminate].
  - right. eexists. split; [apply st_bg_encode | discriminate].
  - right. eexists. split; [apply st_bg_unlock | discriminate].
  - right. eexists. split; [apply st_bg_delay | discriminate].
Qed.

End Ingest.

Arguments mkSys {P R} _ _ _ _ _ _ _.
Arguments parser {P R} _.
Arguments rx {P R} _.
Arguments lock {P R} _.
Arguments bg {P R} _.
Arguments fg {P R} _.
Arguments received {P R} _.
Arguments consumed {P R} _.

(** ** Witnesses: a run of the locked reader of carloop_minimal *)

Module IngestDemo.
Import LineParser.

(** The fields [printValues] reads under the lock, as the line parser has
    them: the character count and the count at which the fix was decoded. *)
Definition reader_fields : list (LP -> Z) := [lp_chars; lp_fix_chars].

Definition demo_stream : list ascii := ["a"%char; "010"%char].

(** The UART delivers a one-character sentence, the thread drains it and
    goes to sleep, then the reader takes the lock and reads both fields. *)
Definition demo_state : Sys Z :=
  mkSys (encode_all gps_init demo_stream) [] None BgDelay (FgDone [2; 2]) demo_stream demo_stream.

Lemma demo_reachable : reachable Z reader_fields true 64 demo_state.
Proof.
  unfold reachable.
  eapply star_step; [apply st_uart_accept with (c := "a"%char); cbn; lia|].
  eapply star_step; [apply st_uart_accept with (c := "010"%char); cbn; lia|].
  eapply star_step; [apply st_bg_lock|].
  eapply star_step; [apply st_bg_avail|].
  eapply star_step; [apply st_bg_read|].
  eapply star_step; [apply st_bg_encode|].
  eapply star_step; [apply st_bg_avail|].
  eapply star_step; [apply st_bg_read|].
  eapply star_step; [apply st_bg_encode|].
  eapply star_step; [apply st_bg_empty|].
  eapply star_step; [apply st_bg_unlock|].
  eapply star_step; [apply st_fg_lock; reflexivity|].
  eapply star_step; [apply st_fg_read; reflexivity|].
  eapply star_step; [apply st_fg_read; reflexivity|].
  eapply star_step; [apply st_fg_unlock; reflexivity|].
  apply star_refl.
Qed.

Lemma gps_mutual_exclusion_witness :
  ~ (bg_holds (bg demo_state) = true /\ fg_holds Z true (fg demo_state) = true).
Proof. apply (gps_mutual_exclusion Z reader_fields true 64). exact demo_reachable. Defined.

Lemma gps_ingest_lossless_witness :
  exists d, parser demo_state = encode_all gps_init d /\
    d ++ pending (bg demo_state) ++ rx demo_state = received demo_state /\
    charsProcessed (parser demo_state) = Z.of_nat (length d).
Proof. apply (gps_ingest_lossless Z reader_fields true 64). exact demo_reachable. Defined.

Lemma gps_locked_snapshot_witness :
  exists d, d `prefix_of` received demo_state /\ [2; 2] = snapshot Z reader_fields (encode_all gps_init d).
Proof.
  apply (gps_locked_snapshot Z reader_fields true 64 demo_state [2; 2]);
    [reflexivity | exact demo_reachable | reflexivity].
Defined.

Lemma gps_thread_progress_witness :
  (bg demo_state = BgLock /\ lock demo_state = Some Fg) \/
  exists s', step Z reader_fields true 64 demo_state s' /\ bg s' <> bg demo_state.
Proof. apply gps_thread_progress. exact demo_reachable. Defined.

End IngestDemo.
