(* ===== verification/Slcan.v ===== *)
(** * The SLCAN bridge application

    src/examples/socketcan_serial/socketcan_serial.cpp drives the Carloop
    object from a host over USB serial with the SLCAN line protocol:
    [O\r] opens the CAN channel, [C\r] closes it, [Sn\r] stages one of nine
    bit rates, [tIIILDD..\r] transmits a frame; every frame received is
    printed back as [tIIIL DD..\r].  The application's globals are the
    record [Slcan] (the 40-byte [inputBuffer], [inputPos], and the text
    written to [Serial]); [App] pairs it with the Carloop world, and every
    function of the file is a computation of [St App] that calls the facade
    of [Carloop].  [printf] conversions are those of [Printf]
    ([printf_x], [printf_d]); [char] is [ascii] and compares by its code.

    Proved: a frame with an 11-bit identifier printed by the bridge and
    sent back by the host is transmitted as that frame ([slcan_echo],
    from [parse_frame_printed] and digit lemmas decided on every
    identifier, length and byte); in every run [inputPos] stays within the
    buffer and the unsigned count [inputPos - 2] never wraps; the speed
    command stages the table's rate or nothing; a closed channel makes
    [t] lines, [C] lines and [loop] do nothing; [loop] prints and empties
    the receive queue; an extended frame comes back as a different
    standard frame; every frame [transmitMessage] builds, whatever the
    host sends, has a 12-bit identifier (which may exceed the 11 bits of
    a standard frame), a length of at most 8 and eight bytes; [hex2int]
    reads back every [%0<w>x]; [setup] starts the USB port at 9600; the
    lines printed for a list of frames, sent back in one stream, are
    transmitted as those frames in order, and on the queue channel the
    frames that find its 32-frame transmit queue full are dropped with
    nothing written to the host ([transmit]'s result is ignored); a line
    longer than the 40-byte buffer acts as its first 40 characters, its
    line end dropped.  The protocol itself is the abstract [Command] a
    line denotes ([decode_line]) and its effect on the world
    ([run_command]); [slcan_line_refines] shows the character-level
    [parseInput] implements it for every line that fits the buffer, and
    [hex2int_table] that [hex2int]'s arithmetic is the digit table. *)

From Stdlib Require Import Ascii String.
From S2P Require Import Prelude Printf Board Hal CanChannel GpsParser Carloop.
Open Scope Z_scope.

(** ** Characters *)

(** [const char NEW_LINE = '\r';] *)
Definition NEW_LINE : ascii := "013"%char.

(** [hex2int]: the value of a hexadecimal digit, 0 for any other char. *)
Definition hex2int (c : ascii) : Z :=
  if (code "0" <=? code c) && (code c <=? code "9") then code c - code "0"
  else if (code "a" <=? code c) && (code c <=? code "f") then code c - code "a" + 10
  else if (code "A" <=? code c) && (code c <=? code "F") then code c - code "A" + 10
  else 0.

(** ** The application's state *)

Definition INPUT_BUFFER_SIZE : nat := 40.

Record Slcan := mkSlcan {
  inputBuffer : list ascii;
  inputPos : Z;
  serialOut : list ascii
}.

(** The globals at start-up: zero-initialised. *)
Definition Slcan_init : Slcan := mkSlcan (repeat "000"%char INPUT_BUFFER_SIZE) 0 [].

(** [if (inputPos < sizeof(inputBuffer)) { inputBuffer[inputPos] = c; inputPos++; }] *)
Definition store (c : ascii) (s : Slcan) : Slcan :=
  if inputPos s <? Z.of_nat INPUT_BUFFER_SIZE
  then mkSlcan (<[Z.to_nat (inputPos s) := c]> (inputBuffer s)) (inputPos s + 1) (serialOut s)
  else s.

Section App.

Context {C : Type} `{CanChannel C}.
Context {P : Type} `{GpsParser P}.
Variable cfg : BoardConfig.

Record App := mkApp { app : Slcan; sys : World C P }.

Definition on_sys {A} (m : St (World C P) A) : St App A :=
  fun a => let '(x, w) := m (sys a) in (x, mkApp (app a) w).

Definition get_app : St App Slcan := fun a => (app a, a).

Definition set_app (s : Slcan) : St App unit := fun a => (tt, mkApp s (sys a)).

(** [buf[k]] *)
Definition at_ (buf : list ascii) (k : nat) : ascii := nth k buf "000"%char.

(** [Serial.printf("t%03x%d", id, len)], the data bytes, [Serial.write(NEW_LINE)]. *)
Definition printReceivedMessage_text (m : CANMessage) : list ascii :=
  ["t"%char] ++ printf_x 3 (id m) ++ printf_d (len m) ++
  concat (map (printf_x 2) (firstn (Z.to_nat (len m)) (data m))) ++ [NEW_LINE].

Definition printReceivedMessage (m : CANMessage) : St App unit :=
  do s <- get_app;
  set_app (mkSlcan (inputBuffer s) (inputPos s) (serialOut s ++ printReceivedMessage_text m)).

(** [setup]: [Serial.begin(9600)]. *)
Definition setup : St App unit := on_sys (on_hal (Serial_begin 9600)).

Definition opened : St App bool := on_sys can_isEnabled_call.

Definition openCAN : St App unit :=
  do o <- opened; if o then st_ret tt else on_sys (enableCAN cfg).

Definition closeCAN : St App unit :=
  do o <- opened; if o then on_sys (disableCAN cfg) else st_ret tt.

(** The rate the [S] command selects, by its digit. *)
Definition speed_of (c : ascii) : option Z :=
  match c with
  | "0" => Some 10000 | "1" => Some 20000 | "2" => Some 50000
  | "3" => Some 100000 | "4" => Some 125000 | "5" => Some 250000
  | "6" => Some 500000 | "7" => Some 800000 | "8" => Some 1000000
  | _ => None
  end%char.

Definition changeCANSpeed (buf : list ascii) (n : Z) : St App unit :=
  if n =? 0 then st_ret tt else
  match speed_of (at_ buf 0) with
  | None => st_ret tt
  | Some speed => on_sys (setCANSpeed speed)
  end.

(** The data loop of [transmitMessage]:
    [for (i = 0; i < len && n >= 2; i++, buf += 2, n -= 2)
       data[i] = (hex2int(buf[0]) << 4) | hex2int(buf[1]);]
    it runs at most [len <= 8] times. *)
Fixpoint fill_data (fuel : nat) (buf : list ascii) (n : Z) (i : nat) (len : Z) (d : list Z)
    : list Z :=
  match fuel with
  | O => d
  | S f =>
      if (Z.of_nat i <? len) && (2 <=? n) then
        fill_data f (drop 2 buf) (n - 2) (S i) len
          (<[i := Z.lor (Z.shiftl (hex2int (at_ buf 0)) 4) (hex2int (at_ buf 1))]> d)
      else d
  end.

(** The frame [transmitMessage] builds from [n] characters at [buf], or
    [None] where it returns early. *)
Definition parse_frame (buf : list ascii) (n : Z) : option CANMessage :=
  if n <? 4 then None else
  let id := Z.lor (Z.lor (Z.shiftl (hex2int (at_ buf 0)) 8) (Z.shiftl (hex2int (at_ buf 1)) 4))
                  (hex2int (at_ buf 2)) in
  let len := hex2int (at_ buf 3) in
  if 8 <? len then None else
  Some {| id := id; extended := false; rtr := false; len := len;
          data := fill_data 8 (drop 4 buf) (n - 4) 0 len (data CANMessage_default) |}.

Definition transmitMessage (buf : list ascii) (n : Z) : St App unit :=
  do o <- opened;
  if negb o then st_ret tt else
  match parse_frame buf n with
  | None => st_ret tt
  | Some m => do _ <- on_sys (can_transmit_call m); st_ret tt
  end.

(** The command a complete line holds, dispatched on [inputBuffer[0]];
    [n] is the unsigned [inputPos - 2]. *)
Definition dispatch (s : Slcan) : St App unit :=
  let buf := inputBuffer s in
  let n := wrap32 (inputPos s - 2) in
  match at_ buf 0 with
  | "O" => openCAN
  | "C" => closeCAN
  | "S" => changeCANSpeed (drop 1 buf) n
  | "t" => transmitMessage (drop 1 buf) n
  | _ => st_ret tt
  end%char.

Definition parseInput (c : ascii) : St App unit :=
  do s <- get_app;
  let s := store c s in
  set_app s;;
  if Ascii.eqb c NEW_LINE then
    dispatch s;;
    do s' <- get_app; set_app (mkSlcan (inputBuffer s') 0 (serialOut s'))
  else st_ret tt.

(** [serialEvent]: one character from the host. *)
Definition serialEvent (c : ascii) : St App unit := parseInput c.

(** [receiveMessages]: print frames while [receive] returns one; [fuel]
    bounds the loop. *)
Fixpoint receiveMessages (fuel : nat) : St App unit :=
  match fuel with
  | O => st_ret tt
  | S f =>
      do r <- on_sys can_receive_call;
      match r with
      | None => st_ret tt
      | Some m => printReceivedMessage m;; receiveMessages f
      end
  end.

Definition loop (fuel : nat) : St App unit :=
  do o <- opened; if o then receiveMessages fuel else st_ret tt.

(** A sequence of characters from the host. *)
Definition feed (cs : list ascii) (a : App) : App :=
  fold_left (fun a c => exec (serialEvent c) a) cs a.

(** The application's environment: Device OS calls [serialEvent] for
    each character the host sends and [loop] between them, and frames
    arrive from the bus at any time. *)
Inductive app_step : App -> App -> Prop :=
  | app_serial c a : app_step a (exec (serialEvent c) a)
  | app_loop fuel a : app_step a (exec (loop fuel) a)
  | app_bus m a : app_step a (exec (on_sys (bus_frame m)) a).

End App.

Arguments App : clear implicits.

(** ** The frame format

    The digits [printf] writes for a 12-bit identifier, a length of at
    most 8 and a byte, read back by [hex2int]: decided on every value. *)

Definition id_digits_ok (v : Z) : bool :=
  let cs := printf_x 3 v in
  (length cs =? 3)%nat && forallb (fun c => negb (Ascii.eqb c NEW_LINE)) cs &&
  (Z.lor (Z.lor (Z.shiftl (hex2int (at_ cs 0)) 8) (Z.shiftl (hex2int (at_ cs 1)) 4))
         (hex2int (at_ cs 2)) =? v).

Definition len_digit_ok (l : Z) : bool :=
  let cs := printf_d l in
  (length cs =? 1)%nat && forallb (fun c => negb (Ascii.eqb c NEW_LINE)) cs &&
  (hex2int (at_ cs 0) =? l).

Definition byte_digits_ok (b : Z) : bool :=
  let cs := printf_x 2 b in
  (length cs =? 2)%nat && forallb (fun c => negb (Ascii.eqb c NEW_LINE)) cs &&
  (Z.lor (Z.shiftl (hex2int (at_ cs 0)) 4) (hex2int (at_ cs 1)) =? b).

Lemma id_digits_all : forall_range 0 4096 id_digits_ok = true.
Proof. vm_compute. reflexivity. Qed.

Lemma len_digit_all : forall_range 0 9 len_digit_ok = true.
Proof. vm_compute. reflexivity. Qed.

Lemma byte_digits_all : forall_range 0 256 byte_digits_ok = true.
Proof. vm_compute. reflexivity. Qed.

(** No character of [cs] ends a line. *)
Definition no_newline (cs : list ascii) : Prop := Forall (fun c => c <> NEW_LINE) cs.

Lemma no_newline_forallb cs :
  forallb (fun c => negb (Ascii.eqb c NEW_LINE)) cs = true -> no_newline cs.
Proof.
  intros H. apply Forall_forall. intros c Hc E.
  pose proof (proj1 (forallb_forall _ cs) H c Hc) as Hc'. subst c. discriminate.
Qed.

Ltac range_check H :=
  unfold id_digits_ok, len_digit_ok, byte_digits_ok in H; cbv zeta in H;
  repeat rewrite andb_true_iff in H; rewrite ?Nat.eqb_eq, ?Z.eqb_eq in H.

Lemma id_digits v : 0 <= v < 4096 ->
  let cs := printf_x 3 v in
  length cs = 3%nat /\ no_newline cs /\
  Z.lor (Z.lor (Z.shiftl (hex2int (at_ cs 0)) 8) (Z.shiftl (hex2int (at_ cs 1)) 4))
        (hex2int (at_ cs 2)) = v.
Proof.
  intros Hv. pose proof (forall_range_spec _ _ _ id_digits_all v ltac:(lia)) as H.
  range_check H. destruct H as [[H1 H2] H3]. eauto using no_newline_forallb.
Qed.

Lemma len_digit l : 0 <= l <= 8 ->
  let cs := printf_d l in length cs = 1%nat /\ no_newline cs /\ hex2int (at_ cs 0) = l.
Proof.
  intros Hl. pose proof (forall_range_spec _ _ _ len_digit_all l ltac:(lia)) as H.
  range_check H. destruct H as [[H1 H2] H3]. eauto using no_newline_forallb.
Qed.

Lemma byte_digits b : 0 <= b < 256 ->
  let cs := printf_x 2 b in
  length cs = 2%nat /\ no_newline cs /\
  Z.lor (Z.shiftl (hex2int (at_ cs 0)) 4) (hex2int (at_ cs 1)) = b.
Proof.
  intros Hb. pose proof (forall_range_spec _ _ _ byte_digits_all b ltac:(lia)) as H.
  range_check H. destruct H as [[H1 H2] H3]. eauto using no_newline_forallb.
Qed.

Lemma at_app_l l1 l2 k : (k < length l1)%nat -> at_ (l1 ++ l2) k = at_ l1 k.
Proof. apply app_nth1. Qed.

Lemma at_app_r l1 l2 k : (length l1 <= k)%nat -> at_ (l1 ++ l2) k = at_ l2 (k - length l1).
Proof. apply app_nth2. Qed.

(** Writing [x] at [i] and moving past it. *)
Lemma take_insert_next {A} (d : list A) i x bs k :
  (i < length d)%nat ->
  take (S i) (<[i:=x]> d) ++ bs ++ drop (S i + k) (<[i:=x]> d) =
  take i d ++ (x :: bs) ++ drop (i + S k) d.
Proof.
  intros Hi. rewrite (take_S_r _ _ x) by (apply list_lookup_insert_eq; lia).
  rewrite take_insert_ge, drop_insert_lt by lia.
  rewrite <- app_assoc, Nat.add_succ_r. reflexivity.
Qed.

(** The data loop of [transmitMessage] on the digits of the bytes [bs]:
    it stores them at [i], [i+1], ..., and stops at [len]. *)
Lemma fill_data_printed fuel bs rest i len d n :
  Forall (fun b => 0 <= b < 256) bs ->
  Z.of_nat (i + length bs) = len -> (length bs <= fuel)%nat ->
  (i + length bs <= length d)%nat -> 2 * Z.of_nat (length bs) <= n ->
  fill_data fuel (concat (map (printf_x 2) bs) ++ rest) n i len d =
  take i d ++ bs ++ drop (i + length bs) d.
Proof.
  revert fuel i d n. induction bs as [|b bs IH]; intros fuel i d n Hbs Hlen Hf Hd Hn.
  - cbn in *. rewrite Nat.add_0_r, take_drop.
    destruct fuel; cbn; [reflexivity|].
    replace (Z.of_nat i <? len) with false by lia. reflexivity.
  - inversion Hbs as [|? ? Hb Hbs']; subst.
    destruct fuel as [|fuel]; cbn in Hf; [lia|].
    pose proof (byte_digits b Hb) as Hdig; cbv zeta in Hdig.
    destruct Hdig as (Hl2 & _ & Hval).
    cbn [fill_data concat map]. rewrite <- app_assoc.
    cbn [length] in *.
    rewrite (proj2 (Z.ltb_lt _ _)), (proj2 (Z.leb_le _ _)) by lia. cbn [andb].
    rewrite (at_app_l _ _ 0), (at_app_l _ _ 1), Hval by lia.
    rewrite drop_app_length' by lia.
    rewrite IH by (assumption || (rewrite ?length_insert; lia)).
    apply take_insert_next. lia.
Qed.

Lemma drop_repeat {A} (x : A) k n : drop k (repeat x n) = repeat x (n - k).
Proof.
  revert n. induction k as [|k IH]; intros [|n]; cbn; rewrite ?Nat.sub_0_r; auto.
Qed.

(** What a frame received from the bus satisfies for [t] to print it
    faithfully: an 11-bit (standard) identifier fits [%03x], [len] is at
    most 8, and the bytes are [uint8_t]s. *)
Definition printable (m : CANMessage) : Prop :=
  0 <= id m < 4096 /\ 0 <= len m <= 8 /\ length (data m) = 8%nat /\
  Forall (fun b => 0 <= b < 256) (data m).

(** The frame read back from the text of [m]: the [t] line carries no
    extended or remote flag, and the bytes past [len] are read as the zeros
    of a fresh [CANMessage]. *)
Definition standard_frame (m : CANMessage) : CANMessage :=
  {| id := id m; extended := false; rtr := false; len := len m;
     data := take (Z.to_nat (len m)) (data m) ++ repeat 0 (8 - Z.to_nat (len m)) |}.

(** The characters after the [t] of a printed frame. *)
Definition frame_body (m : CANMessage) : list ascii :=
  printf_x 3 (id m) ++ printf_d (len m) ++
  concat (map (printf_x 2) (take (Z.to_nat (len m)) (data m))).

Lemma printReceivedMessage_text_body m :
  printReceivedMessage_text m = "t"%char :: frame_body m ++ [NEW_LINE].
Proof. unfold printReceivedMessage_text, frame_body. now rewrite <- !app_assoc. Qed.

Lemma length_concat_bytes bs :
  Forall (fun b => 0 <= b < 256) bs ->
  length (concat (map (printf_x 2) bs)) = (2 * length bs)%nat /\
  no_newline (concat (map (printf_x 2) bs)).
Proof.
  induction 1 as [|b bs Hb _ [IHl IHn]]; cbn [concat map length]; [split; [lia | constructor]|].
  pose proof (byte_digits b Hb) as Hd; cbv zeta in Hd. destruct Hd as (Hl & Hn & _).
  rewrite length_app, IHl, Hl. split; [lia | now apply Forall_app].
Qed.

Lemma frame_body_shape m :
  printable m ->
  length (frame_body m) = (4 + 2 * Z.to_nat (len m))%nat /\ no_newline (frame_body m).
Proof.
  intros (Hid & Hl & Hd & Hb).
  pose proof (id_digits _ Hid) as Hi; pose proof (len_digit _ Hl) as Hn; cbv zeta in Hi, Hn.
  destruct (length_concat_bytes (take (Z.to_nat (len m)) (data m))) as [Hcl Hcn];
    [now apply Forall_take|].
  unfold frame_body. rewrite !length_app, Hcl, length_take, (proj1 Hi), (proj1 Hn).
  split; [lia|]. unfold no_newline.
  rewrite !Forall_app. tauto.
Qed.

(** The parse of a printed frame, whatever follows its line. *)
Lemma parse_frame_of_printed m rest :
  printable m ->
  parse_frame (frame_body m ++ NEW_LINE :: rest) (4 + 2 * len m) = Some (standard_frame m).
Proof.
  intros Hm. pose proof Hm as (Hid & Hl & Hd & Hb).
  pose proof (id_digits _ Hid) as (Hi3 & _ & Hiv); pose proof (len_digit _ Hl) as (Hl1 & _ & Hlv).
  destruct (length_concat_bytes (take (Z.to_nat (len m)) (data m))) as [Hcl _];
    [now apply Forall_take|].
  unfold parse_frame, frame_body.
  rewrite (proj2 (Z.ltb_ge _ _)) by lia.
  rewrite <- !app_assoc, (at_app_l _ _ 0), (at_app_l _ _ 1), (at_app_l _ _ 2), Hiv by lia.
  rewrite at_app_r, Hi3, (at_app_l _ _ 0), Hlv by lia.
  rewrite (proj2 (Z.ltb_ge _ _)) by lia.
  rewrite app_assoc, drop_app_length' by (rewrite length_app; lia).
  unfold CANMessage_default; cbn [data].
  rewrite fill_data_printed by (rewrite ?length_take, ?repeat_length; try apply Forall_take; auto; lia).
  rewrite drop_repeat, length_take, Hd, Nat.min_l by lia. reflexivity.
Qed.

(** C27: [transmitMessage]'s parse of the characters [printReceivedMessage]
    writes after the [t] (with anything after the [\r]) gives back the frame. *)
Theorem parse_frame_printed m rest :
  printable m ->
  parse_frame (frame_body m ++ NEW_LINE :: rest) (4 + 2 * len m) = Some (standard_frame m).
Proof. exact (parse_frame_of_printed m rest). Qed.

(** ** What [hex2int] reads *)

(** Every character reads as a digit value. *)
Lemma hex2int_range c : 0 <= hex2int c < 16.
Proof.
  destruct c as [[] [] [] [] [] [] [] []]; vm_compute; (split; [discriminate | reflexivity]).
Qed.

(** The reference reading of a hexadecimal digit: its position in
    ["0123456789abcdef"] or in ["0123456789ABCDEF"], and 0 for any other
    character. *)
Fixpoint index_of (c : ascii) (cs : list ascii) : option Z :=
  match cs with
  | [] => None
  | c' :: cs' => if Ascii.eqb c c' then Some 0 else option_map Z.succ (index_of c cs')
  end.

Definition hex_digit_value (c : ascii) : Z :=
  match index_of c (list_ascii_of_string "0123456789abcdef") with
  | Some i => i
  | None =>
      match index_of c (list_ascii_of_string "0123456789ABCDEF") with
      | Some i => i
      | None => 0
      end
  end.

(** C16: [hex2int]'s range tests and code arithmetic compute the
    reference table: on each of the 256 characters it returns the digit's
    position among the lower-case or the upper-case hexadecimal digits, and
    0 for every other character (so a malformed digit reads as 0 rather
    than being rejected). *)
Theorem hex2int_table c : hex2int c = hex_digit_value c.
Proof. destruct c as [[] [] [] [] [] [] [] []]; vm_compute; reflexivity. Qed.

Definition hex_digit_ok (d : Z) : bool := hex2int (digit_char d) =? d.

Lemma hex_digit_all : forall_range 0 16 hex_digit_ok = true.
Proof. vm_compute. reflexivity. Qed.

Lemma hex2int_digit_char d : 0 <= d < 16 -> hex2int (digit_char d) = d.
Proof. intros Hd. apply Z.eqb_eq, (forall_range_spec _ _ _ hex_digit_all). lia. Qed.

(** The value of hexadecimal text as [hex2int] reads it digit by digit. *)
Abbreviation hex_value := (read_digits hex2int 16).

(** [hex2int] reads back what [printf] writes with [%0<w>x]: for
    every value up to 64 bits and every width, the digits of
    [printf_x width v], read as [transmitMessage] reads identifier and
    data digits, give [v]. *)
Theorem hex_roundtrip width v :
  0 <= v < 2 ^ 64 -> hex_value (printf_x width v) = v.
Proof.
  intros Hv. apply printf_unsigned_read; [lia | | exact Hv].
  intros d Hd. now apply hex2int_digit_char.
Qed.

(** The frames [transmitMessage] can build: an identifier of three hex
    digits, at most 8 data bytes, standard data frames, and the eight
    [uint8_t] bytes of [data]. *)
Definition frame_wf (m : CANMessage) : Prop :=
  0 <= id m < 4096 /\ 0 <= len m <= 8 /\ extended m = false /\ rtr m = false /\
  length (data m) = 8%nat /\ Forall (fun b => 0 <= b < 256) (data m).

Definition id_of_digits_ok (a : Z) : bool :=
  forall_range 0 16 (fun b => forall_range 0 16 (fun c =>
    let v := Z.lor (Z.lor (Z.shiftl a 8) (Z.shiftl b 4)) c in (0 <=? v) && (v <? 4096))).

Definition byte_of_digits_ok (a : Z) : bool :=
  forall_range 0 16 (fun b => let v := Z.lor (Z.shiftl a 4) b in (0 <=? v) && (v <? 256)).

Lemma id_of_digits_all : forall_range 0 16 id_of_digits_ok = true.
Proof. vm_compute. reflexivity. Qed.

Lemma byte_of_digits_all : forall_range 0 16 byte_of_digits_ok = true.
Proof. vm_compute. reflexivity. Qed.

(** Three digit values make a 12-bit identifier, two a byte. *)
Lemma id_of_digits_range a b c :
  0 <= a < 16 -> 0 <= b < 16 -> 0 <= c < 16 ->
  0 <= Z.lor (Z.lor (Z.shiftl a 8) (Z.shiftl b 4)) c < 4096.
Proof.
  intros Ha Hb Hc.
  pose proof (forall_range_spec _ _ _ id_of_digits_all a ltac:(lia)) as H.
  pose proof (forall_range_spec _ _ _ H b ltac:(lia)) as H'.
  pose proof (forall_range_spec _ _ _ H' c ltac:(lia)) as H''. cbv beta zeta in H''.
  apply andb_true_iff in H'' as [H1 H2]. lia.
Qed.

Lemma byte_of_digits_range a b : 0 <= a < 16 -> 0 <= b < 16 -> 0 <= Z.lor (Z.shiftl a 4) b < 256.
Proof.
  intros Ha Hb.
  pose proof (forall_range_spec _ _ _ byte_of_digits_all a ltac:(lia)) as H.
  pose proof (forall_range_spec _ _ _ H b ltac:(lia)) as H'. cbv beta zeta in H'.
  apply andb_true_iff in H' as [H1 H2]. lia.
Qed.

(** The data loop keeps eight bytes. *)
Lemma fill_data_wf fuel buf n i len d :
  length d = 8%nat -> Forall (fun b => 0 <= b < 256) d ->
  length (fill_data fuel buf n i len d) = 8%nat /\
  Forall (fun b => 0 <= b < 256) (fill_data fuel buf n i len d).
Proof.
  revert buf n i d. induction fuel as [|fuel IH]; intros buf n i d Hl Hd; cbn; [auto|].
  destruct (_ && _); [|auto]. apply IH; [now rewrite length_insert|].
  apply Forall_insert; [exact Hd|]. apply byte_of_digits_range; apply hex2int_range.
Qed.

(** C11: whatever characters the host sends, every frame
    [transmitMessage] builds is a well-formed standard CAN frame: an
    identifier below 0x1000, a length of at most 8, and eight bytes each
    fitting a [uint8_t]. *)
Theorem parse_frame_typed buf n m : parse_frame buf n = Some m -> frame_wf m.
Proof.
  unfold parse_frame. destruct (n <? 4); [discriminate|].
  destruct (Z.ltb_spec 8 (hex2int (at_ buf 3))); [discriminate|].
  intros Hm. injection Hm as <-.
  destruct (fill_data_wf 8 (drop 4 buf) (n - 4) 0 (hex2int (at_ buf 3)) (data CANMessage_default))
    as [Hl Hd]; [reflexivity | repeat constructor; lia|].
  pose proof (hex2int_range (at_ buf 3)).
  repeat split; cbn [id len extended rtr data]; auto; try lia.
  all: apply id_of_digits_range; apply hex2int_range.
Qed.

(** The three identifier digits reach 0xfff: [t8001ff] is transmitted as
    a standard frame with identifier 0x800, which 11 bits do not hold. *)
Example standard_id_out_of_range :
  exists m, parse_frame (list_ascii_of_string "8001ff") 6 = Some m /\ extended m = false /\ 2 ^ 11 <= id m.
Proof. eexists. split; [vm_compute; reflexivity | split; [reflexivity | cbn; lia]]. Qed.

(** ** The line discipline of [parseInput] *)

(** ** The SLCAN protocol, line by line

    What a complete line asks of the bridge, as the protocol of the file's
    header comment describes it: open, close, a bit rate, a frame to send,
    or nothing.  [decode_line] reads the line (without its [\r]);
    [run_command] (in [Section Lines]) is the effect on the Carloop world
    the protocol promises. *)
Inductive Command :=
  | CmdOpen
  | CmdClose
  | CmdSpeed (rate : Z)
  | CmdTransmit (m : CANMessage)
  | CmdNone.

Definition decode_line (l : list ascii) : Command :=
  match l with
  | c :: rest =>
      match c with
      | "O" => CmdOpen
      | "C" => CmdClose
      | "S" =>
          match rest with
          | d :: _ => match speed_of d with Some r => CmdSpeed r | None => CmdNone end
          | [] => CmdNone
          end
      | "t" =>
          match parse_frame rest (Z.of_nat (length rest)) with
          | Some m => CmdTransmit m
          | None => CmdNone
          end
      | _ => CmdNone
      end%char
  | [] => CmdNone
  end.

(** [fill_data] and [parse_frame] read no further than their count. *)
Lemma fill_data_app f l r n i len d :
  n <= Z.of_nat (length l) -> fill_data f (l ++ r) n i len d = fill_data f l n i len d.
Proof.
  revert l n i d. induction f as [|f IH]; intros l n i d Hn; cbn [fill_data]; [reflexivity|].
  destruct ((Z.of_nat i <? len) && (2 <=? n)) eqn:E; [|reflexivity].
  apply andb_true_iff in E as [_ E]. apply Z.leb_le in E.
  rewrite !at_app_l by lia. rewrite drop_app_le by lia.
  apply IH. rewrite length_drop. lia.
Qed.

Lemma parse_frame_app l r n :
  n <= Z.of_nat (length l) -> parse_frame (l ++ r) n = parse_frame l n.
Proof.
  intros Hn. unfold parse_frame. destruct (n <? 4) eqn:E; [reflexivity|]. apply Z.ltb_ge in E.
  rewrite !at_app_l by lia. rewrite drop_app_le, fill_data_app by (rewrite ?length_drop; lia).
  reflexivity.
Qed.

Section Lines.

Context {C : Type} `{CanChannel C}.
Context {P : Type} `{GpsParser P}.
Variable cfg : BoardConfig.
Implicit Types w : World C P.
Implicit Types a : App C P.

(** A character other than [\r] is stored when there is room. *)
Lemma parseInput_store c buf pos out w :
  c <> NEW_LINE -> 0 <= pos < Z.of_nat INPUT_BUFFER_SIZE ->
  exec (parseInput cfg c) (mkApp (mkSlcan buf pos out) w) =
  mkApp (mkSlcan (<[Z.to_nat pos := c]> buf) (pos + 1) out) w.
Proof.
  intros Hc Hpos. unfold parseInput, store, exec, st_bind, get_app, set_app, st_ret. cbn.
  rewrite (proj2 (Z.ltb_lt _ _)) by exact (proj2 Hpos).
  destruct (Ascii.eqb_spec c NEW_LINE); [contradiction|reflexivity].
Qed.

(** A [\r] is stored when there is room, the line is dispatched, and
    [inputPos] returns to 0. *)
Lemma parseInput_newline buf pos out w :
  0 <= pos < Z.of_nat INPUT_BUFFER_SIZE ->
  let s := mkSlcan (<[Z.to_nat pos := NEW_LINE]> buf) (pos + 1) out in
  let a := exec (dispatch cfg s) (mkApp s w) in
  exec (parseInput cfg NEW_LINE) (mkApp (mkSlcan buf pos out) w) =
  mkApp (mkSlcan (inputBuffer (app a)) 0 (serialOut (app a))) (sys a).
Proof.
  intros Hpos. unfold parseInput, store, exec, st_bind, get_app, set_app, st_ret. cbn.
  rewrite (proj2 (Z.ltb_lt _ _)) by exact (proj2 Hpos).
  destruct (dispatch cfg _ _); reflexivity.
Qed.

(** A [t] line goes to [transmitMessage] with the characters after the
    [t] and the unsigned count [inputPos - 2]. *)
Lemma dispatch_t buf pos out a :
  at_ buf 0 = "t"%char ->
  exec (dispatch cfg (mkSlcan buf pos out)) a =
  exec (transmitMessage (drop 1 buf) (wrap32 (pos - 2))) a.
Proof. intros Ht. unfold dispatch. cbv zeta. cbn [inputBuffer inputPos]. now rewrite Ht. Qed.

(** [transmitMessage] on an open channel sends the parsed frame. *)
Lemma transmitMessage_open buf n a m :
  can_isEnabled (canDriver (obj (sys a))) = true -> parse_frame buf n = Some m ->
  exec (transmitMessage buf n) a = mkApp (app a) (exec (can_transmit_call m) (sys a)).
Proof.
  intros Hen Hp. unfold transmitMessage, opened, on_sys, can_isEnabled_call, exec, st_bind, st_ret, get_obj.
  cbn. rewrite Hen, Hp. cbn. now destruct (can_transmit m (canDriver (obj (sys a)))).
Qed.

Lemma feed_cons c cs a : feed cfg (c :: cs) a = feed cfg cs (exec (serialEvent cfg c) a).
Proof. reflexivity. Qed.

Lemma feed_app cs1 cs2 a : feed cfg (cs1 ++ cs2) a = feed cfg cs2 (feed cfg cs1 a).
Proof. apply fold_left_app. Qed.

(** [feed] of characters with no [\r] that fit in the buffer stores them. *)
Lemma feed_store cs buf pos out w :
  no_newline cs -> 0 <= pos -> pos + Z.of_nat (length cs) <= Z.of_nat INPUT_BUFFER_SIZE ->
  (Z.to_nat pos + length cs <= length buf)%nat ->
  feed cfg cs (mkApp (mkSlcan buf pos out) w) =
  mkApp (mkSlcan (take (Z.to_nat pos) buf ++ cs ++ drop (Z.to_nat pos + length cs) buf)
                 (pos + Z.of_nat (length cs)) out) w.
Proof.
  revert buf pos. induction cs as [|c cs IH]; intros buf pos Hnl Hpos Hfit Hlen.
  - cbn. rewrite Nat.add_0_r, take_drop, Z.add_0_r. reflexivity.
  - inversion Hnl as [|? ? Hc Hnl']; subst. cbn [length] in *.
    rewrite feed_cons. unfold serialEvent.
    rewrite parseInput_store by (auto; lia).
    rewrite IH by (rewrite ?length_insert; auto; lia).
    replace (Z.to_nat (pos + 1)) with (S (Z.to_nat pos)) by lia.
    rewrite take_insert_next by lia. f_equal. f_equal. lia.
Qed.

Lemma insert_0_drop {A} (l : list A) k x :
  (k < length l)%nat -> <[0%nat:=x]> (drop k l) = x :: drop (S k) l.
Proof.
  intros Hk. destruct (lookup_lt_is_Some_2 l k Hk) as [y Hy].
  now rewrite (drop_S l y k Hy).
Qed.

Lemma feed_one c a : feed cfg [c] a = exec (serialEvent cfg c) a.
Proof. reflexivity. Qed.

(** A [t] line of [body] that fits in the buffer, fed from the start of a
    line into an open channel: the frame [parse_frame] reads from [body]
    is transmitted, the line stays in the buffer, and [inputPos] is 0. *)
Lemma feed_t_line body m buf out w :
  no_newline body -> (2 + length body <= INPUT_BUFFER_SIZE)%nat ->
  length buf = INPUT_BUFFER_SIZE -> can_isEnabled (canDriver (obj w)) = true ->
  parse_frame (body ++ NEW_LINE :: drop (2 + length body) buf) (Z.of_nat (length body)) = Some m ->
  feed cfg ("t"%char :: body ++ [NEW_LINE]) (mkApp (mkSlcan buf 0 out) w) =
  mkApp (mkSlcan ("t"%char :: body ++ NEW_LINE :: drop (2 + length body) buf) 0 out)
        (exec (can_transmit_call m) w).
Proof.
  intros Hnl Hfit Hlen Hen Hp.
  rewrite app_comm_cons, feed_app, feed_store
    by (try (constructor; [discriminate | exact Hnl]); cbn [length] in *; lia).
  rewrite feed_one. unfold serialEvent.
  rewrite parseInput_newline by (cbn [length] in *; lia). cbv zeta.
  rewrite take_0, app_nil_l.
  replace (Z.to_nat (0 + Z.of_nat (length ("t"%char :: body)))) with (length ("t"%char :: body) + 0)%nat
    by lia.
  rewrite insert_app_r, dispatch_t by reflexivity.
  rewrite wrap32_small by (unfold INPUT_BUFFER_SIZE, modulus32 in *; cbn [length] in *; lia).
  replace (0 + Z.of_nat (length ("t"%char :: body)) + 1 - 2) with (Z.of_nat (length body))
    by (cbn [length]; lia).
  rewrite insert_0_drop by (cbn [length] in *; lia).
  rewrite transmitMessage_open with (m := m); [reflexivity | exact Hen | exact Hp].
Qed.

(** A printed frame fed back from the start of a line. *)
Lemma feed_printed_frame m buf out w :
  printable m -> length buf = INPUT_BUFFER_SIZE -> can_isEnabled (canDriver (obj w)) = true ->
  feed cfg (printReceivedMessage_text m) (mkApp (mkSlcan buf 0 out) w) =
  mkApp (mkSlcan (printReceivedMessage_text m ++ drop (length (printReceivedMessage_text m)) buf)
                 0 out)
        (exec (can_transmit_call (standard_frame m)) w).
Proof.
  intros Hm Hlen Hen. pose proof Hm as (_ & Hl & _).
  destruct (frame_body_shape m Hm) as [Hbl Hbn].
  pose proof (parse_frame_of_printed m (drop (2 + length (frame_body m)) buf) Hm) as Hp.
  replace (4 + 2 * len m) with (Z.of_nat (length (frame_body m))) in Hp by lia.
  rewrite printReceivedMessage_text_body.
  remember (frame_body m) as body eqn:Eb; clear Eb.
  rewrite (feed_t_line body (standard_frame m)) by (auto; unfold INPUT_BUFFER_SIZE in *; lia).
  rewrite <- app_comm_cons, length_cons, length_app, <- app_assoc.
  cbn [app length]. do 2 f_equal. rewrite Nat.add_1_r. reflexivity.
Qed.

(** C8: the SLCAN echo.  A frame the bridge printed, sent back by
    the host from the start of a line while the channel is open, is
    transmitted on the bus as the standard frame it denotes, and
    [inputPos] returns to 0. *)
Theorem slcan_echo m buf out w :
  printable m -> length buf = INPUT_BUFFER_SIZE -> can_isEnabled (canDriver (obj w)) = true ->
  feed cfg (printReceivedMessage_text m) (mkApp (mkSlcan buf 0 out) w) =
  mkApp (mkSlcan (printReceivedMessage_text m ++ drop (length (printReceivedMessage_text m)) buf)
                 0 out)
        (exec (can_transmit_call (standard_frame m)) w).
Proof. exact (feed_printed_frame m buf out w). Qed.

(** *** What the handlers leave of the application's globals *)

(** [m] changes only the Carloop world. *)
Definition sys_only {A} (m : St (App C P) A) : Prop := forall a, app (exec m a) = app a.

Lemma sys_only_on_sys {A} (m : St (World C P) A) : sys_only (on_sys m).
Proof. intros a. unfold on_sys, exec. now destruct (m (sys a)). Qed.

Lemma sys_only_ret {A} (x : A) : sys_only (st_ret x).
Proof. now intros a. Qed.

Lemma sys_only_bind {A B} (m : St (App C P) A) (k : A -> St (App C P) B) :
  sys_only m -> (forall x, sys_only (k x)) -> sys_only (st_bind m k).
Proof. intros Hm Hk a. rewrite exec_bind, Hk. apply Hm. Qed.

#[local] Hint Resolve sys_only_on_sys sys_only_ret sys_only_bind : carloop.

Ltac sys_only_tac :=
  repeat first
    [ progress auto with carloop
    | apply sys_only_bind; intros
    | match goal with |- sys_only (if ?b then _ else _) => destruct b end
    | match goal with |- sys_only (match ?o with _ => _ end) => destruct o end ].

Lemma dispatch_sys_only s : sys_only (dispatch cfg s).
Proof.
  unfold dispatch, openCAN, closeCAN, changeCANSpeed, transmitMessage, opened. cbv zeta.
  destruct (at_ (inputBuffer s) 0) as [[] [] [] [] [] [] [] []]; sys_only_tac.
Qed.

(** The globals after [parseInput c]: the character stored, and
    [inputPos] reset after a [\r]. *)
Lemma parseInput_app c a :
  app (exec (parseInput cfg c) a) =
  if Ascii.eqb c NEW_LINE
  then mkSlcan (inputBuffer (store c (app a))) 0 (serialOut (store c (app a)))
  else store c (app a).
Proof.
  unfold parseInput, exec, st_bind, get_app, set_app, st_ret. cbn.
  destruct (Ascii.eqb c NEW_LINE); [|reflexivity].
  pose proof (dispatch_sys_only (store c (app a)) (mkApp (store c (app a)) (sys a))) as Hd.
  unfold exec in Hd. destruct (dispatch cfg _ _) as [u a']. cbn in *. now rewrite Hd.
Qed.

(** [receiveMessages] only appends to the serial output. *)
Lemma receiveMessages_app fuel a :
  inputBuffer (app (exec (receiveMessages fuel) a)) = inputBuffer (app a) /\
  inputPos (app (exec (receiveMessages fuel) a)) = inputPos (app a).
Proof.
  revert a. induction fuel as [|fuel IH]; intros a; [split; reflexivity|].
  cbn [receiveMessages]. rewrite exec_bind.
  pose proof (sys_only_on_sys can_receive_call a) as Ha.
  destruct (eval _ a) as [m|]; [|now rewrite exec_ret, Ha].
  rewrite exec_bind. destruct (IH (exec (printReceivedMessage m) (exec (on_sys can_receive_call) a)))
    as [IH1 IH2].
  rewrite IH1, IH2. unfold printReceivedMessage, exec, st_bind, get_app, set_app. cbn.
  rewrite <- Ha. split; reflexivity.
Qed.

(** The invariant of the globals: [inputPos] within [0, 40] and the buffer
    of its declared size. *)
Definition slcan_ok (s : Slcan) : Prop :=
  0 <= inputPos s <= Z.of_nat INPUT_BUFFER_SIZE /\ length (inputBuffer s) = INPUT_BUFFER_SIZE.

Lemma store_ok c s : slcan_ok s -> slcan_ok (store c s).
Proof.
  intros [Hp Hl]. unfold store. destruct (Z.ltb_spec (inputPos s) (Z.of_nat INPUT_BUFFER_SIZE)).
  - split; cbn; [lia | now rewrite length_insert].
  - now split.
Qed.

Lemma parseInput_ok c a : slcan_ok (app a) -> slcan_ok (app (exec (parseInput cfg c) a)).
Proof.
  intros Hok. rewrite parseInput_app. pose proof (store_ok c _ Hok) as [Hp Hl].
  destruct (Ascii.eqb c NEW_LINE); [split; cbn; [lia | exact Hl] | now split].
Qed.

Lemma loop_ok fuel a : slcan_ok (app a) -> slcan_ok (app (exec (loop fuel) a)).
Proof.
  intros Hok. unfold loop. rewrite exec_bind.
  assert (Ho : app (exec opened a) = app a) by apply sys_only_on_sys.
  unfold slcan_ok. destruct (eval opened a).
  - destruct (receiveMessages_app fuel (exec opened a)) as [Hb Hp]. now rewrite Hb, Hp, Ho.
  - now rewrite exec_ret, Ho.
Qed.

(** C9: in every run of the application from its start-up state,
    whatever the host sends, the bus delivers and [loop] prints,
    [inputPos] stays within [0, sizeof(inputBuffer)]: [parseInput] never
    writes past the buffer. *)
Theorem slcan_inputPos_bounded w a :
  star (app_step cfg) (mkApp Slcan_init w) a -> slcan_ok (app a).
Proof.
  intros Hrun. refine (star_invariant _ (fun a => slcan_ok (app a)) _ _ _ _ Hrun).
  - intros a1 a2 Hok Hs. destruct Hs; [apply parseInput_ok | apply loop_ok | rewrite sys_only_on_sys]; auto.
  - split; cbn; [lia | reflexivity].
Qed.

(** when a line is dispatched to [changeCANSpeed] or
    [transmitMessage], the count [inputPos - 2] does not wrap around:
    [inputPos] is at least 2 (a line of a single [\r] is never an [S] or
    [t] line) and the count is at most 38. *)
Theorem dispatch_count_no_wrap s :
  slcan_ok s ->
  let s' := store NEW_LINE s in
  at_ (inputBuffer s') 0 = "S"%char \/ at_ (inputBuffer s') 0 = "t"%char ->
  wrap32 (inputPos s' - 2) = inputPos s' - 2 /\ 0 <= inputPos s' - 2 <= 38.
Proof.
  intros [Hp Hl] s' Hst. subst s'. unfold store in *.
  destruct (Z.ltb_spec (inputPos s) (Z.of_nat INPUT_BUFFER_SIZE)); cbn in *;
    unfold INPUT_BUFFER_SIZE in *.
  - destruct (Z.eq_dec (inputPos s) 0) as [E|E].
    + rewrite E in Hst. destruct (inputBuffer s); cbn in *; [lia|].
      destruct Hst; discriminate.
    + rewrite wrap32_small by (unfold modulus32; lia). lia.
  - rewrite wrap32_small by (unfold modulus32; lia). lia.
Qed.

(** An [S] line goes to [changeCANSpeed]. *)
Lemma dispatch_S buf pos out a :
  at_ buf 0 = "S"%char ->
  exec (dispatch cfg (mkSlcan buf pos out)) a =
  exec (changeCANSpeed (drop 1 buf) (wrap32 (pos - 2))) a.
Proof. intros Ht. unfold dispatch. cbv zeta. cbn [inputBuffer inputPos]. now rewrite Ht. Qed.

(** the speed command [Sd\r], from the start of a line, stages
    the rate the table gives for the digit [d] with [setCANSpeed], and
    leaves the Carloop world as it was for any other character. *)
Theorem speed_command d buf out w :
  d <> NEW_LINE -> length buf = INPUT_BUFFER_SIZE ->
  feed cfg ["S"%char; d; NEW_LINE] (mkApp (mkSlcan buf 0 out) w) =
  mkApp (mkSlcan ("S"%char :: d :: NEW_LINE :: drop 3 buf) 0 out)
        (match speed_of d with Some sp => exec (setCANSpeed sp) w | None => w end).
Proof.
  intros Hd Hlen.
  change ["S"%char; d; NEW_LINE] with (["S"%char; d] ++ [NEW_LINE]).
  rewrite feed_app, feed_store
    by (try (repeat constructor; [discriminate | exact Hd]); cbn [length]; unfold INPUT_BUFFER_SIZE in *; lia).
  rewrite feed_one. unfold serialEvent.
  rewrite parseInput_newline by (cbn [length]; unfold INPUT_BUFFER_SIZE; lia). cbv zeta.
  rewrite take_0, app_nil_l.
  change (Z.to_nat (0 + Z.of_nat (length ["S"%char; d]))) with (length ["S"%char; d] + 0)%nat.
  rewrite insert_app_r, insert_0_drop by (cbn [length]; unfold INPUT_BUFFER_SIZE in *; lia).
  rewrite dispatch_S, wrap32_small by (try reflexivity; cbn [length]; unfold modulus32; lia).
  unfold changeCANSpeed. rewrite (proj2 (Z.eqb_neq _ _)) by (cbn [length]; lia).
  cbn -[speed_of setCANSpeed].
  destruct (speed_of d); [|reflexivity].
  unfold on_sys, exec. cbn [sys app]. now destruct (setCANSpeed z w).
Qed.

(** the [opened()] guards.  With the channel closed, a [t] line,
    a [C] line and [loop] leave the application as it was; with it open,
    an [O] line does. *)
Theorem opened_guards a buf n fuel :
  (can_isEnabled (canDriver (obj (sys a))) = false ->
     exec (transmitMessage buf n) a = a /\ exec (closeCAN cfg) a = a /\ exec (loop fuel) a = a) /\
  (can_isEnabled (canDriver (obj (sys a))) = true -> exec (openCAN cfg) a = a).
Proof.
  unfold transmitMessage, closeCAN, openCAN, loop, opened, on_sys, can_isEnabled_call,
    exec, st_bind, st_ret, get_obj.
  destruct a as [s [o h]]; cbn.
  split; intros ->; cbn; [repeat split|]; reflexivity.
Qed.

(** *** Lines longer than the buffer *)

(** A character that finds the buffer full is dropped. *)
Lemma parseInput_full c buf out w :
  c <> NEW_LINE ->
  exec (parseInput cfg c) (mkApp (mkSlcan buf (Z.of_nat INPUT_BUFFER_SIZE) out) w) =
  mkApp (mkSlcan buf (Z.of_nat INPUT_BUFFER_SIZE) out) w.
Proof.
  intros Hc. unfold parseInput, store, exec, st_bind, get_app, set_app, st_ret. cbn.
  destruct (Ascii.eqb_spec c NEW_LINE); [contradiction|reflexivity].
Qed.

Lemma feed_full cs buf out w :
  no_newline cs ->
  feed cfg cs (mkApp (mkSlcan buf (Z.of_nat INPUT_BUFFER_SIZE) out) w) =
  mkApp (mkSlcan buf (Z.of_nat INPUT_BUFFER_SIZE) out) w.
Proof.
  induction 1 as [|c cs Hc _ IH]; [reflexivity|].
  rewrite feed_cons. unfold serialEvent. now rewrite parseInput_full.
Qed.

(** The [\r] that finds the buffer full is not stored, and the line is
    dispatched with [inputPos] at 40. *)
Lemma parseInput_full_newline buf out w :
  let s := mkSlcan buf (Z.of_nat INPUT_BUFFER_SIZE) out in
  let a := exec (dispatch cfg s) (mkApp s w) in
  exec (parseInput cfg NEW_LINE) (mkApp s w) = mkApp (mkSlcan (inputBuffer (app a)) 0 (serialOut (app a))) (sys a).
Proof.
  unfold parseInput, store, exec, st_bind, get_app, set_app, st_ret. cbn.
  destruct (dispatch cfg _ _); reflexivity.
Qed.

(** C19: a line longer than the 40-byte buffer, fed from the start of
    a line, acts as its first 40 characters: the rest and the [\r] are
    dropped, and the truncated line is dispatched with [inputPos] at 40 (the
    handlers get the count 38) before [inputPos] returns to 0. *)
Theorem slcan_overlong_line l buf out w :
  no_newline l -> (INPUT_BUFFER_SIZE <= length l)%nat -> length buf = INPUT_BUFFER_SIZE ->
  let s := mkSlcan (take INPUT_BUFFER_SIZE l) (Z.of_nat INPUT_BUFFER_SIZE) out in
  let a := exec (dispatch cfg s) (mkApp s w) in
  feed cfg (l ++ [NEW_LINE]) (mkApp (mkSlcan buf 0 out) w) =
  mkApp (mkSlcan (inputBuffer (app a)) 0 (serialOut (app a))) (sys a).
Proof.
  intros Hnl Hl Hbuf. cbv zeta.
  rewrite <- (take_drop INPUT_BUFFER_SIZE l) at 1. rewrite <- app_assoc, !feed_app.
  unfold no_newline in Hnl. rewrite <- (take_drop INPUT_BUFFER_SIZE l) in Hnl. apply Forall_app in Hnl as [Ht Hd].
  rewrite feed_store;
    [| exact Ht | lia | rewrite length_take, Nat.min_l by exact Hl; lia
     | rewrite length_take, Nat.min_l, Hbuf by exact Hl; cbn [Z.to_nat]; lia].
  rewrite length_take, Nat.min_l by exact Hl.
  change (Z.to_nat 0) with 0%nat. rewrite (drop_ge buf), take_0, app_nil_r, app_nil_l by (rewrite Hbuf; lia).
  replace (0 + Z.of_nat INPUT_BUFFER_SIZE) with (Z.of_nat INPUT_BUFFER_SIZE) by lia.
  rewrite feed_full by exact Hd. rewrite feed_one. apply parseInput_full_newline.
Qed.

(** *** The line discipline refines the protocol *)

(** The effect of a command on the Carloop world: open and close only
    change a channel in the other state, a frame is sent only on an open
    channel. *)
Definition run_command (c : Command) : St (World C P) unit :=
  match c with
  | CmdOpen => do e <- can_isEnabled_call; if e then st_ret tt else enableCAN cfg
  | CmdClose => do e <- can_isEnabled_call; if e then disableCAN cfg else st_ret tt
  | CmdSpeed r => setCANSpeed r
  | CmdTransmit m => do e <- can_isEnabled_call; if e then (do _ <- can_transmit_call m; st_ret tt) else st_ret tt
  | CmdNone => st_ret tt
  end.

Lemma exec_on_sys {A} (m : St (World C P) A) a : exec (on_sys m) a = mkApp (app a) (exec m (sys a)).
Proof. unfold on_sys, exec. now destruct (m (sys a)). Qed.

Lemma eval_on_sys {A} (m : St (World C P) A) a : eval (on_sys m) a = eval m (sys a).
Proof. unfold on_sys, eval. now destruct (m (sys a)). Qed.

Lemma exec_isEnabled w : exec can_isEnabled_call w = w.
Proof. reflexivity. Qed.

Create Rewrite HintDb slcan_sys.
#[local] Hint Rewrite @exec_bind @exec_on_sys @eval_on_sys exec_isEnabled : slcan_sys.

(** [opened()] and what follows on the world. *)
Lemma sys_opened {A} (k : bool -> St (App C P) A) a :
  sys (exec (do o <- opened; k o) a) = sys (exec (k (eval can_isEnabled_call (sys a))) a).
Proof. unfold opened. autorewrite with slcan_sys. now destruct a. Qed.

Lemma sys_on_sys {A} (m : St (World C P) A) a : sys (exec (on_sys m) a) = exec m (sys a).
Proof. now rewrite exec_on_sys. Qed.

Lemma openCAN_refines a : sys (exec (openCAN cfg) a) = exec (run_command CmdOpen) (sys a).
Proof.
  unfold openCAN. rewrite sys_opened. cbn [run_command]. rewrite exec_bind, exec_isEnabled.
  destruct (eval _ _); [reflexivity | apply sys_on_sys].
Qed.

Lemma closeCAN_refines a : sys (exec (closeCAN cfg) a) = exec (run_command CmdClose) (sys a).
Proof.
  unfold closeCAN. rewrite sys_opened. cbn [run_command]. rewrite exec_bind, exec_isEnabled.
  destruct (eval _ _); [apply sys_on_sys | reflexivity].
Qed.

Lemma transmitMessage_refines buf n a :
  sys (exec (transmitMessage buf n) a) =
  exec (match parse_frame buf n with Some m => run_command (CmdTransmit m) | None => st_ret tt end) (sys a).
Proof.
  unfold transmitMessage. rewrite sys_opened.
  destruct (parse_frame buf n) as [m|]; cbn [run_command]; rewrite ?exec_bind, ?exec_isEnabled;
    destruct (eval _ _); cbn [negb]; try reflexivity.
  rewrite !exec_bind, exec_on_sys. reflexivity.
Qed.

(** A complete line of fewer than 40 characters fed from the start of a
    line is stored with its [\r] and dispatched with [inputPos] at its
    length plus one. *)
Lemma feed_line l buf out w :
  no_newline l -> (length l < INPUT_BUFFER_SIZE)%nat -> length buf = INPUT_BUFFER_SIZE ->
  let s := mkSlcan (l ++ NEW_LINE :: drop (S (length l)) buf) (Z.of_nat (length l) + 1) out in
  let a := exec (dispatch cfg s) (mkApp s w) in
  feed cfg (l ++ [NEW_LINE]) (mkApp (mkSlcan buf 0 out) w) =
  mkApp (mkSlcan (inputBuffer (app a)) 0 (serialOut (app a))) (sys a).
Proof.
  intros Hnl Hl Hbuf. cbv zeta.
  rewrite feed_app, feed_store by (auto; lia).
  rewrite feed_one. unfold serialEvent.
  rewrite parseInput_newline by lia. cbv zeta.
  change (Z.to_nat 0) with 0%nat. rewrite take_0, app_nil_l, Nat.add_0_l, Z.add_0_l.
  replace (Z.to_nat (Z.of_nat (length l))) with (length l + 0)%nat by lia.
  rewrite insert_app_r, insert_0_drop by lia. reflexivity.
Qed.

(** The dispatch of a stored line is the protocol's command. *)
Lemma dispatch_refines l rest out w :
  (length l < INPUT_BUFFER_SIZE)%nat ->
  let s := mkSlcan (l ++ NEW_LINE :: rest) (Z.of_nat (length l) + 1) out in
  sys (exec (dispatch cfg s) (mkApp s w)) = exec (run_command (decode_line l)) w.
Proof.
  intros Hl. cbv zeta. destruct l as [|c body]; [reflexivity|].
  unfold dispatch. cbv zeta. cbn [inputBuffer inputPos at_ nth List.app drop].
  replace (Z.of_nat (length (c :: body)) + 1 - 2) with (Z.of_nat (length body))
    by (cbn [length]; lia).
  rewrite wrap32_small by (cbn [length] in Hl; unfold INPUT_BUFFER_SIZE, modulus32 in *; lia).
  destruct c as [[] [] [] [] [] [] [] []]; try reflexivity;
    cbn [decode_line];
    first [ apply openCAN_refines | apply closeCAN_refines
          | rewrite drop_0, transmitMessage_refines, parse_frame_app by lia;
            destruct (parse_frame body _); reflexivity
          | rewrite drop_0; destruct body as [|d body]; [reflexivity|];
            unfold changeCANSpeed; rewrite (proj2 (Z.eqb_neq _ _)) by (cbn [length]; lia);
            cbn [at_ nth List.app]; destruct (speed_of d); [apply sys_on_sys | reflexivity] ].
Qed.

(** C15: refinement of the SLCAN protocol by the character-level
    parser: a line of fewer than 40 characters, fed from the start of a
    line, has on the Carloop world exactly the effect [run_command] gives
    the command [decode_line] reads from it (open, close, a rate of the
    table, a frame, or nothing), and leaves [inputPos] at 0, the buffer at
    40 characters and nothing written to the host. *)
Theorem slcan_line_refines l buf out w :
  no_newline l -> (length l < INPUT_BUFFER_SIZE)%nat -> length buf = INPUT_BUFFER_SIZE ->
  let a := feed cfg (l ++ [NEW_LINE]) (mkApp (mkSlcan buf 0 out) w) in
  sys a = exec (run_command (decode_line l)) w /\
  inputPos (app a) = 0 /\ serialOut (app a) = out /\ length (inputBuffer (app a)) = INPUT_BUFFER_SIZE.
Proof.
  intros Hnl Hl Hbuf. cbv zeta. rewrite feed_line by assumption. cbv zeta.
  rewrite (dispatch_sys_only _ (mkApp _ w)). cbn [app inputBuffer serialOut inputPos sys].
  rewrite dispatch_refines by exact Hl.
  repeat split. rewrite length_app, length_cons, length_drop. lia.
Qed.

End Lines.

(** ** The echo of a stream of frames *)

Section Stream.

Context {C : Type} `{CanChannelLaws C}.
Context {P : Type} `{GpsParser P}.
Variable cfg : BoardConfig.
Implicit Types w : World C P.

(** The frames [ms] passed to [can().transmit] one after the other. *)
Definition transmit_all (ms : list CANMessage) w : World C P :=
  fold_left (fun w m => exec (can_transmit_call m) w) ms w.

Lemma transmit_call_enabled m w :
  can_isEnabled (canDriver (obj (exec (can_transmit_call m) w))) = can_isEnabled (canDriver (obj w)).
Proof.
  pose proof (can_transmit_enabled m (canDriver (obj w))) as He.
  unfold can_transmit_call, exec, st_bind, get_obj, on_obj, st_modify, st_ret. cbn.
  destruct (can_transmit m (canDriver (obj w))). exact He.
Qed.

Lemma length_printed_text m : printable m -> (length (printReceivedMessage_text m) <= INPUT_BUFFER_SIZE)%nat.
Proof.
  intros Hm. pose proof Hm as (_ & Hl & _). destruct (frame_body_shape m Hm) as [Hbl _].
  rewrite printReceivedMessage_text_body, length_cons, length_app, Hbl. cbn [length].
  unfold INPUT_BUFFER_SIZE. lia.
Qed.

(** The printed lines of [ms] fed back from the start of a line. *)
Lemma feed_printed_stream ms buf out w :
  Forall printable ms -> length buf = INPUT_BUFFER_SIZE -> can_isEnabled (canDriver (obj w)) = true ->
  let a := feed cfg (concat (map printReceivedMessage_text ms)) (mkApp (mkSlcan buf 0 out) w) in
  length (inputBuffer (app a)) = INPUT_BUFFER_SIZE /\ inputPos (app a) = 0 /\ serialOut (app a) = out /\
  sys a = transmit_all (map standard_frame ms) w.
Proof.
  intros Hms. cbv zeta. revert buf w.
  induction Hms as [|m ms Hm _ IH]; intros buf w Hbuf Hen; [repeat split; auto|].
  cbn [map concat]. rewrite feed_app, feed_printed_frame by assumption.
  apply IH; [|rewrite transmit_call_enabled; exact Hen].
  pose proof (length_printed_text m Hm). rewrite length_app, length_drop. lia.
Qed.

(** C17: the bridge is transparent to a stream: the lines it printed
    for frames [ms], sent back by the host in one stream while the channel
    is open, make it transmit the standard frames of [ms] in order, with
    the buffer kept at its 40 characters, [inputPos] back at 0 and nothing
    written to the host. *)
Theorem slcan_echo_stream ms buf out w :
  Forall printable ms -> length buf = INPUT_BUFFER_SIZE -> can_isEnabled (canDriver (obj w)) = true ->
  let a := feed cfg (concat (map printReceivedMessage_text ms)) (mkApp (mkSlcan buf 0 out) w) in
  length (inputBuffer (app a)) = INPUT_BUFFER_SIZE /\ inputPos (app a) = 0 /\ serialOut (app a) = out /\
  sys a = transmit_all (map standard_frame ms) w.
Proof. exact (feed_printed_stream ms buf out w). Qed.

End Stream.

(** ** [loop] on the queue channel *)

Import QueueChannel LineParser.

Section Drain.

Context {P : Type} `{GpsParser P}.
Implicit Types a : App QChan P.

Definition rx_queue a : list CANMessage := qc_rx (canDriver (obj (sys a))).

Lemma loop_open fuel a :
  qc_enabled (canDriver (obj (sys a))) = true -> exec (loop fuel) a = exec (receiveMessages fuel) a.
Proof.
  destruct a as [s [o h]]. unfold loop, opened, on_sys, can_isEnabled_call, get_obj, st_bind, st_ret.
  unfold exec at 1. cbn. intros ->. reflexivity.
Qed.

(** One successful [receive]: the head of the queue is printed. *)
Lemma receiveMessages_cons fuel a m rx :
  qc_enabled (canDriver (obj (sys a))) = true -> rx_queue a = m :: rx ->
  exec (receiveMessages (S fuel)) a =
  exec (receiveMessages fuel)
    (mkApp (mkSlcan (inputBuffer (app a)) (inputPos (app a))
                    (serialOut (app a) ++ printReceivedMessage_text m))
           (mkWorld (set_canDriver (qc_set (canDriver (obj (sys a))) true
                       (qc_rate (canDriver (obj (sys a)))) rx (qc_tx (canDriver (obj (sys a)))))
                     (obj (sys a))) (hal (sys a)))).
Proof.
  intros Hen Hrx. unfold rx_queue in Hrx.
  cbn [receiveMessages].
  unfold on_sys, can_receive_call, printReceivedMessage, st_bind, get_obj, get_app, set_app,
    on_obj, st_modify, st_ret, exec.
  cbn. unfold qc_receive. rewrite Hen, Hrx. reflexivity.
Qed.

(** C28: [loop] terminates and drains the channel: when the channel
    is open and [fuel] covers the frames queued, [loop] prints every queued
    frame, in arrival order, and leaves the receive queue empty. *)
Theorem loop_drains fuel a :
  qc_enabled (canDriver (obj (sys a))) = true -> (length (rx_queue a) <= fuel)%nat ->
  serialOut (app (exec (loop fuel) a)) =
    serialOut (app a) ++ concat (map printReceivedMessage_text (rx_queue a)) /\
  rx_queue (exec (loop fuel) a) = [].
Proof.
  intros Hen Hf. rewrite loop_open by exact Hen.
  remember (rx_queue a) as rx eqn:Hrx. revert a fuel Hen Hf Hrx.
  induction rx as [|m rx IH]; intros a fuel Hen Hf Hrx.
  - destruct fuel; cbn; [rewrite app_nil_r; now split|].
    unfold rx_queue in Hrx.
    unfold on_sys, can_receive_call, get_obj, st_bind, st_ret, on_obj, st_modify, exec; cbn.
    unfold qc_receive. rewrite Hen, <- Hrx. cbn. rewrite app_nil_r. now split.
  - destruct fuel as [|fuel]; cbn [length] in Hf; [lia|].
    rewrite (receiveMessages_cons fuel a m rx Hen (eq_sym Hrx)).
    match goal with |- context [exec (receiveMessages fuel) ?a'] =>
      destruct (IH a' fuel) as [Ho Hq]; [reflexivity | lia | reflexivity |] end.
    split; [|exact Hq]. rewrite Ho. cbn. now rewrite <- app_assoc.
Qed.

(** ** The transmit queue *)

Definition tx_queue (w : World QChan P) : list CANMessage := qc_tx (canDriver (obj w)).

(** [transmit] queues a frame while the queue has room and drops it
    otherwise. *)
Lemma transmit_all_queue ms (w : World QChan P) :
  qc_enabled (canDriver (obj w)) = true ->
  tx_queue (transmit_all ms w) = tx_queue w ++ take (txQueueSize - length (tx_queue w)) ms.
Proof.
  unfold tx_queue. revert w. induction ms as [|m ms IH]; intros w Hen; cbn [transmit_all fold_left].
  - now rewrite take_nil, app_nil_r.
  - unfold transmit_all in IH. rewrite IH.
    2: { unfold can_transmit_call, exec, st_bind, get_obj, on_obj, st_modify, st_ret. cbn.
         unfold qc_transmit. destruct (_ && _); cbn; first [reflexivity | assumption]. }
    unfold can_transmit_call, exec, st_bind, get_obj, on_obj, st_modify, st_ret. cbn.
    unfold qc_transmit. rewrite Hen. cbn.
    destruct (bool_decide_reflect (length (qc_tx (canDriver (obj w))) < txQueueSize)%nat) as [Hlt|Hge]; cbn.
    + rewrite length_app, <- app_assoc. cbn [length]. unfold txQueueSize in *.
      now replace (32 - length (qc_tx (canDriver (obj w))))%nat
        with (S (32 - (length (qc_tx (canDriver (obj w))) + 1)))%nat by lia.
    + unfold txQueueSize in *.
      now replace (32 - length (qc_tx (canDriver (obj w))))%nat with 0%nat by lia.
Qed.

(** C18: the bridge ignores the result of [transmit]: on the queue
    channel, of the frames a stream of printed lines asks it to send, those
    that find the 32-frame transmit queue full are dropped, and nothing is
    written back to the host. *)
Theorem slcan_stream_drops_when_full ms buf out w :
  Forall printable ms -> length buf = INPUT_BUFFER_SIZE -> qc_enabled (canDriver (obj w)) = true ->
  let a := feed CarloopRevision2 (concat (map printReceivedMessage_text ms)) (mkApp (mkSlcan buf 0 out) w) in
  serialOut (app a) = out /\
  tx_queue (sys a) = tx_queue w ++ take (txQueueSize - length (tx_queue w)) (map standard_frame ms).
Proof.
  intros Hms Hbuf Hen. cbv zeta.
  destruct (feed_printed_stream CarloopRevision2 ms buf out w Hms Hbuf) as (_ & _ & Hout & Hsys);
    [exact Hen|].
  rewrite Hout, Hsys. split; [reflexivity | now apply transmit_all_queue].
Qed.

End Drain.

(** ** Frames the [t] format cannot carry *)

(** An extended frame (29-bit identifier [0x12345]) with one byte [0xab]. *)
Definition ext_frame : CANMessage :=
  {| id := 74565; extended := true; rtr := false; len := 1; data := [171; 0; 0; 0; 0; 0; 0; 0] |}.

(** [printReceivedMessage] writes an extended frame as a [t]
    line with five identifier digits ["t123451ab\r"], and the bridge reads
    that line back as the standard frame 0x123 of length 4 with bytes
    [0x51 0xab]: identifier, length and data are all lost. *)
Theorem extended_frame_misread :
  printReceivedMessage_text ext_frame = ["t"; "1"; "2"; "3"; "4"; "5"; "1"; "a"; "b"; NEW_LINE]%char /\
  parse_frame (drop 1 (printReceivedMessage_text ext_frame))
              (Z.of_nat (length (printReceivedMessage_text ext_frame)) - 2) =
  Some {| id := 291; extended := false; rtr := false; len := 4;
          data := [81; 171; 0; 0; 0; 0; 0; 0] |}.
Proof. split; vm_compute; reflexivity. Qed.

(** ** Witnesses: revision 2 with the queue channel and the line parser *)

(** A standard frame: identifier 0x7a8, three bytes [01 ab ff]. *)
Definition frame_7a8 : CANMessage :=
  {| id := 1960; extended := false; rtr := false; len := 3; data := [1; 171; 255; 0; 0; 0; 0; 0] |}.

Lemma frame_7a8_printable : printable frame_7a8.
Proof. unfold printable; cbn. repeat split; try lia; try reflexivity. repeat (constructor; [lia|]). constructor. Qed.

(** The bridge with the channel open. *)
Definition open_world : World QChan LP := exec (enableCAN CarloopRevision2) (rev2_world 0).

Lemma parse_frame_printed_witness :
  printable frame_7a8 /\
  parse_frame (frame_body frame_7a8 ++ [NEW_LINE]) (4 + 2 * len frame_7a8) =
  Some (standard_frame frame_7a8).
Proof. split; [exact frame_7a8_printable | apply parse_frame_printed; exact frame_7a8_printable]. Defined.

Lemma hex_roundtrip_witness : hex_value (printf_x 3 1960) = 1960.
Proof. apply hex_roundtrip. lia. Defined.

Lemma parse_frame_typed_witness :
  frame_wf {| id := 291; extended := false; rtr := false; len := 4;
              data := [170; 187; 204; 221; 0; 0; 0; 0] |}.
Proof.
  apply (parse_frame_typed (list_ascii_of_string "1234aabbccdd") 12). vm_compute. reflexivity.
Defined.

Lemma slcan_echo_witness :
  feed CarloopRevision2 (printReceivedMessage_text frame_7a8) (mkApp Slcan_init open_world) =
  mkApp (mkSlcan (printReceivedMessage_text frame_7a8 ++
                  drop (length (printReceivedMessage_text frame_7a8)) (inputBuffer Slcan_init)) 0 [])
        (exec (can_transmit_call (standard_frame frame_7a8)) open_world).
Proof. apply slcan_echo; [exact frame_7a8_printable | reflexivity | reflexivity]. Defined.

Lemma slcan_inputPos_bounded_witness :
  slcan_ok (app (exec (serialEvent CarloopRevision2 "O"%char) (mkApp Slcan_init (rev2_world 0)))).
Proof.
  apply (slcan_inputPos_bounded CarloopRevision2 (rev2_world 0)).
  eapply star_step; [apply app_serial | apply star_refl].
Defined.

Lemma dispatch_count_no_wrap_witness :
  let s' := store NEW_LINE (mkSlcan ("t"%char :: repeat "0"%char 39) 5 []) in
  wrap32 (inputPos s' - 2) = inputPos s' - 2 /\ 0 <= inputPos s' - 2 <= 38.
Proof.
  apply dispatch_count_no_wrap; [split; cbn; [unfold INPUT_BUFFER_SIZE; lia | reflexivity] | right; reflexivity].
Defined.

Lemma speed_command_witness :
  feed CarloopRevision2 ["S"%char; "5"%char; NEW_LINE] (mkApp Slcan_init (rev2_world 0)) =
  mkApp (mkSlcan ("S"%char :: "5"%char :: NEW_LINE :: drop 3 (inputBuffer Slcan_init)) 0 [])
        (match speed_of "5"%char with Some sp => exec (setCANSpeed sp) (rev2_world 0)
         | None => rev2_world 0 end).
Proof. apply (speed_command CarloopRevision2); [discriminate | reflexivity]. Defined.

Lemma opened_guards_witness :
  exec (openCAN CarloopRevision2) (mkApp Slcan_init open_world) = mkApp Slcan_init open_world.
Proof. apply (opened_guards CarloopRevision2 _ [] 0 0). reflexivity. Defined.

Lemma loop_drains_witness :
  let a := mkApp Slcan_init (exec (bus_frame frame_7a8) open_world) in
  serialOut (app (exec (loop 1) a)) = serialOut (app a) ++ concat (map printReceivedMessage_text (rx_queue a)) /\
  rx_queue (exec (loop 1) a) = [].
Proof. apply loop_drains; reflexivity. Defined.

Lemma slcan_overlong_line_witness :
  let l := list_ascii_of_string "t1234aabbccdd" ++ repeat "0"%char 30 in
  let s := mkSlcan (take INPUT_BUFFER_SIZE l) (Z.of_nat INPUT_BUFFER_SIZE) [] in
  let a := exec (dispatch CarloopRevision2 s) (mkApp s open_world) in
  feed CarloopRevision2 (l ++ [NEW_LINE]) (mkApp Slcan_init open_world) =
  mkApp (mkSlcan (inputBuffer (app a)) 0 (serialOut (app a))) (sys a).
Proof.
  intros l s a. apply (slcan_overlong_line CarloopRevision2 l);
    [apply no_newline_forallb; vm_compute; reflexivity | apply Nat.leb_le; reflexivity | reflexivity].
Defined.

Lemma slcan_echo_stream_witness :
  let a := feed CarloopRevision2 (concat (map printReceivedMessage_text [frame_7a8; frame_7a8]))
                (mkApp Slcan_init open_world) in
  length (inputBuffer (app a)) = INPUT_BUFFER_SIZE /\ inputPos (app a) = 0 /\ serialOut (app a) = [] /\
  sys a = transmit_all (map standard_frame [frame_7a8; frame_7a8]) open_world.
Proof.
  apply slcan_echo_stream; [|reflexivity | reflexivity].
  repeat (apply Forall_cons; [exact frame_7a8_printable|]). apply Forall_nil.
Defined.

(** The open channel with 31 frames waiting in its transmit queue. *)
Definition busy_world : World QChan LP :=
  let c := canDriver (obj open_world) in
  mkWorld (set_canDriver (qc_set c true (qc_rate c) [] (repeat (standard_frame frame_7a8) 31)) (obj open_world))
          (hal open_world).

Lemma slcan_stream_drops_when_full_witness :
  let a := feed CarloopRevision2 (concat (map printReceivedMessage_text [frame_7a8; frame_7a8]))
                (mkApp Slcan_init busy_world) in
  serialOut (app a) = [] /\
  tx_queue (sys a) = tx_queue busy_world ++
    take (txQueueSize - length (tx_queue busy_world)) (map standard_frame [frame_7a8; frame_7a8]).
Proof.
  apply slcan_stream_drops_when_full; [|reflexivity | reflexivity].
  repeat (apply Forall_cons; [exact frame_7a8_printable|]). apply Forall_nil.
Defined.

(** Of the two frames sent to the busy channel, one is queued and the
    other dropped. *)
Example busy_stream_drops :
  length (tx_queue (sys (feed CarloopRevision2 (concat (map printReceivedMessage_text [frame_7a8; frame_7a8]))
                          (mkApp Slcan_init busy_world)))) = 32%nat.
Proof. vm_compute. reflexivity. Qed.

Lemma slcan_line_refines_witness :
  let a := feed CarloopRevision2 (list_ascii_of_string "t1234aabbccdd" ++ [NEW_LINE]) (mkApp Slcan_init open_world) in
  sys a = exec (run_command CarloopRevision2 (decode_line (list_ascii_of_string "t1234aabbccdd"))) open_world /\
  inputPos (app a) = 0 /\ serialOut (app a) = [] /\ length (inputBuffer (app a)) = INPUT_BUFFER_SIZE.
Proof.
  apply slcan_line_refines;
    [apply no_newline_forallb; vm_compute; reflexivity | apply Nat.ltb_lt; reflexivity | reflexivity].
Defined.
