(* ===== verification/ObdBlink.v ===== *)
(** * The OBD blink example

    src/examples/obd_blink/obd_blink.cpp requests the engine speed over
    OBD-II and lights the blue LED ([D7]) when a reply arrives.  [loop]
    calls [carloop.update()] and then the function the pointer
    [obdLoopFunction] designates: [sendObdRequest] transmits the request
    and moves to [waitForObdResponse], which for 100 ms drains the receive
    queue looking for a reply and then moves to [delayUntilNextRequest],
    which turns the LED off after 250 ms and goes back to
    [sendObdRequest] after 400 ms.  Times are [millis() - transitionTime]
    on [unsigned long], so they wrap at 2^32.

    The pointer is the enumeration [ObdFn]; the globals are the record
    [Obd]; [ObdApp] adds the Carloop world and the uptime [uptime] in
    milliseconds, of which [millis()] is the value modulo 2^32.  The
    environment ([obd_step]) calls [loop], lets time pass, and delivers
    frames from the bus.

    Proved: [loop] refines a three-state timer specification [obd_next]
    on the wrapped elapsed time; the 100 ms window is measured correctly
    across the wrap of [millis()]; across any number of wraps, requests
    are transmitted at least 500 ms of uptime apart; inside the window the
    receive loop drains the queue and lights the LED exactly when a reply
    is queued (on [QueueChannel]); and a reply that arrives after the
    window lights the LED during the next request's window, which nothing
    answered. *)

From S2P Require Import Prelude Board Hal CanChannel GpsParser FeatureGate Carloop.
Open Scope Z_scope.

Module Obd.

(** ** Constants *)

Definition OBD_REQUEST_ID : Z := 2016.     (* 0x7E0 *)
Definition OBD_REPLY_ID : Z := 2024.       (* 0x7E8 *)
Definition OBD_PID_SERVICE : Z := 1.
Definition ENGINE_COOLANT_TEMP : Z := 5.
Definition ENGINE_RPM : Z := 12.
Definition VEHICLE_SPEED : Z := 13.
Definition MAF_SENSOR : Z := 16.
Definition O2_VOLTAGE : Z := 20.
Definition THROTTLE : Z := 17.

Definition pid : Z := ENGINE_RPM.
Definition ledPin : Pin := D7.

(** ** The globals *)

(** The three functions [obdLoopFunction] can point to. *)
Inductive ObdFn := SendObdRequest | WaitForObdResponse | DelayUntilNextRequest.

#[export] Instance ObdFn_eq_dec : EqDecision ObdFn.
Proof. solve_decision. Defined.

Record Obd := mkObd { obdLoopFunction : ObdFn; transitionTime : Z }.

(** [auto *obdLoopFunction = sendObdRequest; unsigned long transitionTime = 0;] *)
Definition Obd_init : Obd := mkObd SendObdRequest 0.

(** The request [sendObdRequest] builds: a default [CANMessage] with
    [id], [len] and the first three bytes set. *)
Definition obd_request : CANMessage :=
  {| id := OBD_REQUEST_ID; extended := false; rtr := false; len := 8;
     data := <[2%nat := pid]> (<[1%nat := OBD_PID_SERVICE]> (<[0%nat := 2]> (data CANMessage_default))) |}.

(** [message.id == OBD_REPLY_ID && message.data[2] == pid] *)
Definition is_response (m : CANMessage) : bool :=
  (id m =? OBD_REPLY_ID) && (nth 2 (data m) 0 =? pid).

Section App.

Context {C : Type} `{CanChannel C}.
Context {P : Type} `{GpsParser P}.
Variable cfg : BoardConfig.

Record ObdApp := mkObdApp { obd : Obd; osys : World C P; uptime : Z }.

Definition on_osys {A} (m : St (World C P) A) : St ObdApp A :=
  fun a => let '(x, w) := m (osys a) in (x, mkObdApp (obd a) w (uptime a)).

Definition get_obd : St ObdApp Obd := fun a => (obd a, a).

Definition set_obd (o : Obd) : St ObdApp unit := fun a => (tt, mkObdApp o (osys a) (uptime a)).

(** [millis()]: the uptime in milliseconds as an [unsigned long]. *)
Definition millis : St ObdApp Z := fun a => (wrap32 (uptime a), a).

(** [obdLoopFunction = f; transitionTime = millis();] *)
Definition transition (f : ObdFn) : St ObdApp unit :=
  do t <- millis; set_obd (mkObd f t).

Definition setup : St ObdApp unit :=
  on_osys (on_hal (pinMode ledPin OUTPUT));;
  on_osys (begin cfg CARLOOP_ALL_FEATURES);;
  do t <- millis;
  do o <- get_obd;
  set_obd (mkObd (obdLoopFunction o) t).

Definition sendObdRequest : St ObdApp unit :=
  do _ <- on_osys (can_transmit_call obd_request);
  transition WaitForObdResponse.

(** [while (carloop.can().receive(message)) { if (...) responseReceived = true; }],
    with [fuel] bounding the loop. *)
Fixpoint drain_responses (fuel : nat) (responseReceived : bool) : St ObdApp bool :=
  match fuel with
  | O => st_ret responseReceived
  | S f =>
      do r <- on_osys can_receive_call;
      match r with
      | None => st_ret responseReceived
      | Some m => drain_responses f (responseReceived || is_response m)
      end
  end.

Definition waitForObdResponse (fuel : nat) : St ObdApp unit :=
  do t <- millis;
  do o <- get_obd;
  if 100 <=? sub32 t (transitionTime o) then transition DelayUntilNextRequest
  else
    do responseReceived <- drain_responses fuel false;
    st_when responseReceived (on_osys (on_hal (digitalWrite ledPin HIGH))).

Definition delayUntilNextRequest : St ObdApp unit :=
  do t <- millis;
  do o <- get_obd;
  if 400 <=? sub32 t (transitionTime o) then transition SendObdRequest
  else
    do t' <- millis;
    st_when (250 <=? sub32 t' (transitionTime o)) (on_osys (on_hal (digitalWrite ledPin LOW))).

(** [obdLoopFunction()] *)
Definition obdLoop (fuel : nat) : St ObdApp unit :=
  do o <- get_obd;
  match obdLoopFunction o with
  | SendObdRequest => sendObdRequest
  | WaitForObdResponse => waitForObdResponse fuel
  | DelayUntilNextRequest => delayUntilNextRequest
  end.

Definition loop (fuel : nat) : St ObdApp unit :=
  on_osys (update cfg);;
  obdLoop fuel.

(** The environment: Device OS calls [loop]; time passes; frames arrive
    from the bus.  [sent] records the uptime of every call of [loop] that
    runs [sendObdRequest]. *)
Inductive obd_step : ObdApp * list Z -> ObdApp * list Z -> Prop :=
  | obd_loop fuel a sent :
      obd_step (a, sent)
        (exec (loop fuel) a,
         if decide (obdLoopFunction (obd a) = SendObdRequest) then sent ++ [uptime a] else sent)
  | obd_tick d a sent :
      0 <= d -> obd_step (a, sent) (mkObdApp (obd a) (osys a) (uptime a + d), sent)
  | obd_bus m a sent : obd_step (a, sent) (exec (on_osys (bus_frame m)) a, sent).

End App.

Arguments ObdApp : clear implicits.

(** ** The timer specification *)

(** What one call of [loop] does to the globals, as a function of the
    time [now] it reads: the three-state timer of the example. *)
Definition obd_next (o : Obd) (now : Z) : Obd :=
  match obdLoopFunction o with
  | SendObdRequest => mkObd WaitForObdResponse now
  | WaitForObdResponse =>
      if 100 <=? sub32 now (transitionTime o) then mkObd DelayUntilNextRequest now else o
  | DelayUntilNextRequest =>
      if 400 <=? sub32 now (transitionTime o) then mkObd SendObdRequest now else o
  end.

Section Facts.

Context {C : Type} `{CanChannel C}.
Context {P : Type} `{GpsParser P}.
Variable cfg : BoardConfig.
Implicit Types a : ObdApp C P.

(** [m] leaves the globals and the time alone. *)
Definition keeps_obd {A} (m : St (ObdApp C P) A) : Prop :=
  forall a, obd (exec m a) = obd a /\ uptime (exec m a) = uptime a.

Lemma keeps_obd_on_osys {A} (m : St (World C P) A) : keeps_obd (on_osys m).
Proof. intros a. unfold on_osys, exec. now destruct (m (osys a)). Qed.

Lemma keeps_obd_ret {A} (x : A) : keeps_obd (st_ret x).
Proof. now intros a. Qed.

Lemma keeps_obd_bind {A B} (m : St (ObdApp C P) A) (k : A -> St (ObdApp C P) B) :
  keeps_obd m -> (forall x, keeps_obd (k x)) -> keeps_obd (st_bind m k).
Proof.
  intros Hm Hk a. rewrite exec_bind. destruct (Hk (eval m a) (exec m a)) as [-> ->]. apply Hm.
Qed.

Lemma keeps_obd_when (b : bool) (m : St (ObdApp C P) unit) : keeps_obd m -> keeps_obd (st_when b m).
Proof. destruct b; [auto | intros _; apply keeps_obd_ret]. Qed.

Lemma keeps_obd_drain fuel r : keeps_obd (drain_responses fuel r).
Proof.
  revert r. induction fuel as [|fuel IH]; intros r; cbn [drain_responses]; [apply keeps_obd_ret|].
  apply keeps_obd_bind; [apply keeps_obd_on_osys|]. intros [m|]; [apply IH | apply keeps_obd_ret].
Qed.

#[local] Hint Resolve keeps_obd_on_osys keeps_obd_ret keeps_obd_bind keeps_obd_when
  keeps_obd_drain : carloop.

(** The reads of [loop]: [millis()] and the globals. *)
Lemma exec_millis a : exec millis a = a.
Proof. reflexivity. Qed.

Lemma eval_millis a : eval millis a = wrap32 (uptime a).
Proof. reflexivity. Qed.

Lemma obd_transition f a :
  obd (exec (transition f) a) = mkObd f (wrap32 (uptime a)) /\ uptime (exec (transition f) a) = uptime a.
Proof. split; reflexivity. Qed.

(** One step of [obdLoopFunction()] follows the timer specification. *)
Lemma obdLoop_obd fuel a :
  obd (exec (obdLoop fuel) a) = obd_next (obd a) (wrap32 (uptime a)) /\
  uptime (exec (obdLoop fuel) a) = uptime a.
Proof.
  unfold obdLoop, obd_next. rewrite exec_bind. change (eval get_obd a) with (obd a).
  change (exec get_obd a) with a.
  destruct (obd a) as [f tt] eqn:Eo; cbn [obdLoopFunction transitionTime].
  destruct f.
  - unfold sendObdRequest. rewrite exec_bind.
    destruct (keeps_obd_on_osys (can_transmit_call obd_request) a) as [_ Hu].
    rewrite (proj1 (obd_transition _ _)), (proj2 (obd_transition _ _)), Hu. split; reflexivity.
  - unfold waitForObdResponse. rewrite !exec_bind, exec_millis, eval_millis.
    change (eval get_obd a) with (obd a). change (exec get_obd a) with a. rewrite Eo. cbn.
    destruct (100 <=? sub32 (wrap32 (uptime a)) tt); [split; reflexivity|].
    rewrite exec_bind. rewrite <- Eo.
    destruct (keeps_obd_drain fuel false a) as [Ho Hu].
    destruct (keeps_obd_when (eval (drain_responses fuel false) a)
      (on_osys (on_hal (digitalWrite ledPin HIGH))) (keeps_obd_on_osys _) (exec (drain_responses fuel false) a))
      as [Ho' Hu'].
    rewrite Ho', Hu', Ho, Hu. split; reflexivity.
  - unfold delayUntilNextRequest. rewrite !exec_bind, exec_millis, eval_millis.
    change (eval get_obd a) with (obd a). change (exec get_obd a) with a. rewrite Eo. cbn.
    destruct (400 <=? sub32 (wrap32 (uptime a)) tt); [split; reflexivity|].
    rewrite exec_bind, exec_millis, eval_millis, <- Eo.
    apply keeps_obd_when, keeps_obd_on_osys.
Qed.

(** [loop] calls [update()] first, which leaves the globals alone. *)
Lemma loop_obd fuel a :
  obd (exec (loop cfg fuel) a) = obd_next (obd a) (wrap32 (uptime a)) /\
  uptime (exec (loop cfg fuel) a) = uptime a.
Proof.
  unfold loop. rewrite exec_bind.
  destruct (keeps_obd_on_osys (update cfg) a) as [Ho Hu].
  rewrite (proj1 (obdLoop_obd _ _)), (proj2 (obdLoop_obd _ _)), Ho, Hu. split; reflexivity.
Qed.

(** refinement.  Whatever the channel, the board and the parser
    do, one call of [loop] changes [obdLoopFunction] and [transitionTime]
    as the timer specification [obd_next] says, reading the time once. *)
Theorem loop_refines_timer fuel a :
  obd (exec (loop cfg fuel) a) = obd_next (obd a) (wrap32 (uptime a)) /\
  uptime (exec (loop cfg fuel) a) = uptime a.
Proof. apply loop_obd. Qed.

Lemma setup_obd a :
  obd (exec (setup cfg) a) = mkObd (obdLoopFunction (obd a)) (wrap32 (uptime a)) /\
  uptime (exec (setup cfg) a) = uptime a.
Proof.
  unfold setup. rewrite exec_bind.
  destruct (keeps_obd_on_osys (on_hal (pinMode ledPin OUTPUT)) a) as [Ho1 Hu1].
  revert Ho1 Hu1. generalize (exec (on_osys (on_hal (pinMode ledPin OUTPUT))) a) as a1.
  intros a1 Ho1 Hu1. rewrite exec_bind.
  destruct (keeps_obd_on_osys (begin cfg CARLOOP_ALL_FEATURES) a1) as [Ho2 Hu2].
  revert Ho2 Hu2. generalize (exec (on_osys (begin cfg CARLOOP_ALL_FEATURES)) a1) as a2.
  intros a2 Ho2 Hu2. cbn. rewrite Ho2, Hu2, Ho1, Hu1. split; reflexivity.
Qed.

(** ** Requests are spaced *)

(** The invariant: [transitionTime] is the reading at an uptime [tr] not
    in the future, and [tr] is related to the last request by the phase. *)
Definition obd_inv (st : ObdApp C P * list Z) : Prop :=
  let '(a, sent) := st in
  spaced_by 500 sent /\
  exists tr, tr <= uptime a /\ transitionTime (obd a) = wrap32 tr /\
    match obdLoopFunction (obd a) with
    | SendObdRequest => forall l, list.last sent = Some l -> l + 500 <= tr
    | WaitForObdResponse => list.last sent = Some tr
    | DelayUntilNextRequest => exists l, list.last sent = Some l /\ l + 100 <= tr
    end.

Lemma obd_inv_loop fuel a sent :
  obd_inv (a, sent) ->
  obd_inv (exec (loop cfg fuel) a,
           if decide (obdLoopFunction (obd a) = SendObdRequest) then sent ++ [uptime a] else sent).
Proof.
  intros [Hs (tr & Htr & Ht & Hph)]. cbn [obd_inv].
  destruct (loop_obd fuel a) as [Ho Hu]. rewrite Ho, Hu. unfold obd_next.
  destruct (obd a) as [f t]; cbn in *; subst t.
  destruct f; cbn [obdLoopFunction transitionTime]; rewrite ?decide_True, ?decide_False by congruence.
  - split; [apply spaced_by_snoc; [exact Hs | intros x Hx; specialize (Hph x Hx); lia]|].
    exists (uptime a). rewrite last_snoc. repeat split; lia.
  - pose proof (sub32_wrap32_le (uptime a) tr ltac:(lia)).
    destruct (Z.leb_spec 100 (sub32 (wrap32 (uptime a)) (wrap32 tr))); cbn.
    + split; [exact Hs|]. exists (uptime a). repeat split; [lia|]. exists tr. split; [exact Hph | lia].
    + split; [exact Hs|]. exists tr. repeat split; [lia | exact Hph].
  - pose proof (sub32_wrap32_le (uptime a) tr ltac:(lia)).
    destruct Hph as (l & Hl & Hlt).
    destruct (Z.leb_spec 400 (sub32 (wrap32 (uptime a)) (wrap32 tr))); cbn.
    + split; [exact Hs|]. exists (uptime a). repeat split; [lia|]. intros l' Hl'.
      rewrite Hl in Hl'. injection Hl' as <-. lia.
    + split; [exact Hs|]. exists tr. repeat split; [lia|]. exists l. split; [exact Hl | lia].
Qed.

Lemma obd_inv_step st st' : obd_inv st -> obd_step cfg st st' -> obd_inv st'.
Proof.
  intros Hinv Hst. destruct Hst as [fuel a sent | d a sent Hd | m a sent].
  - now apply obd_inv_loop.
  - destruct Hinv as [Hs (tr & Htr & Hrest)]. split; [exact Hs|]. exists tr. cbn. split; [lia | exact Hrest].
  - destruct (keeps_obd_on_osys (bus_frame m) a) as [Ho Hu].
    destruct Hinv as [Hs (tr & Htr & Hrest)]. split; [exact Hs|]. exists tr. rewrite Ho, Hu. auto.
Qed.

(** C10: in every run from [setup], under any scheduling of [loop],
    any passage of time (across any number of wraps of [millis()]) and
    any frames from the bus, the calls of [loop] that transmit the
    request are at least 500 ms of uptime apart: the 100 ms window and
    the 400 ms delay are never cut short by the wrap-around. *)
Theorem obd_requests_spaced w t0 a sent :
  star (obd_step cfg) (exec (setup cfg) (mkObdApp Obd_init w t0), []) (a, sent) -> spaced_by 500 sent.
Proof.
  intros Hrun. refine (proj1 (star_invariant _ obd_inv _ _ _ _ Hrun)); [exact obd_inv_step|].
  destruct (setup_obd (mkObdApp Obd_init w t0)) as [Ho Hu]. cbn [obd_inv]. rewrite Ho, Hu.
  split; [apply spaced_by_nil|]. exists t0. cbn. repeat split; [lia | discriminate].
Qed.

(** C29: the 100 ms window survives the wrap of [millis()].  While
    less than 2^32 ms (49.7 days) have passed since the transition, at
    uptime [tr], into [waitForObdResponse], [loop] leaves it exactly when
    at least 100 ms have passed, however the two readings straddle the
    wrap. *)
Theorem wait_window_wraps fuel a tr :
  obdLoopFunction (obd a) = WaitForObdResponse -> transitionTime (obd a) = wrap32 tr ->
  0 <= uptime a - tr < modulus32 ->
  obdLoopFunction (obd (exec (loop cfg fuel) a)) = DelayUntilNextRequest <-> 100 <= uptime a - tr.
Proof.
  intros Hf Ht Hd. rewrite (proj1 (loop_obd fuel a)). unfold obd_next.
  rewrite Hf, Ht, sub32_wrap32_eq by exact Hd.
  destruct (Z.leb_spec 100 (uptime a - tr)); cbn; rewrite ?Hf; split; congruence || lia.
Qed.

End Facts.

End Obd.

(** ** The reply check on the queue channel *)

Module ObdQueue.

Import Obd QueueChannel LineParser.

Section Drain.

Context {P : Type} `{GpsParser P}.
Implicit Types a : ObdApp QChan P.

Definition rxq a : list CANMessage := qc_rx (canDriver (obj (osys a))).
Definition led a : option Level := pin_level (hal (osys a)) ledPin.

(** The state after [receive] takes the head of the queue. *)
Definition pop_rx a (rx : list CANMessage) : ObdApp QChan P :=
  mkObdApp (obd a) (rx_pop (osys a) rx) (uptime a).

Lemma receive_queue_head a m rx :
  qc_enabled (canDriver (obj (osys a))) = true -> rxq a = m :: rx ->
  eval (on_osys can_receive_call) a = Some m /\ exec (on_osys can_receive_call) a = pop_rx a rx.
Proof.
  intros Hen Hrx. unfold on_osys, exec, eval. now rewrite (can_receive_call_head _ m rx Hen Hrx).
Qed.

Lemma receive_queue_empty a :
  qc_enabled (canDriver (obj (osys a))) = true -> rxq a = [] ->
  eval (on_osys can_receive_call) a = None /\ exec (on_osys can_receive_call) a = a.
Proof.
  intros Hen Hrx. unfold on_osys, exec, eval. rewrite (can_receive_call_empty _ Hen Hrx).
  now destruct a.
Qed.

(** [drain_responses] with [fuel] covering the queue: it empties the queue,
    reports whether a reply is among the frames, and touches nothing else
    of the board. *)
Lemma drain_responses_queue fuel r a :
  qc_enabled (canDriver (obj (osys a))) = true -> (length (rxq a) <= fuel)%nat ->
  eval (drain_responses fuel r) a = r || existsb is_response (rxq a) /\
  rxq (exec (drain_responses fuel r) a) = [] /\
  hal (osys (exec (drain_responses fuel r) a)) = hal (osys a) /\
  qc_enabled (canDriver (obj (osys (exec (drain_responses fuel r) a)))) = true.
Proof.
  unfold rxq. remember (qc_rx (canDriver (obj (osys a)))) as rx eqn:Hrx.
  revert a fuel r Hrx. induction rx as [|m rx IH]; intros a fuel r Hrx Hen Hf.
  - destruct fuel; cbn [drain_responses]; [rewrite orb_false_r; auto|].
    rewrite exec_bind, eval_bind.
    destruct (receive_queue_empty a Hen (eq_sym Hrx)) as [-> ->]. rewrite orb_false_r. auto.
  - destruct fuel as [|fuel]; cbn [length] in Hf; [lia|].
    cbn [drain_responses]. rewrite exec_bind, eval_bind.
    destruct (receive_queue_head a m rx Hen (eq_sym Hrx)) as [-> ->].
    destruct (IH (pop_rx a rx) fuel (r || is_response m)) as (Hv & Hq & Hh & He);
      [reflexivity | reflexivity | lia |].
    cbn [existsb]. rewrite Hv, Hq, Hh, He, orb_assoc. auto.
Qed.

(** C30: one call of [waitForObdResponse] inside the window, on an
    open channel, with [fuel] covering the queue: the queue is drained,
    and the LED is lit exactly when one of the queued frames is a reply
    [0x7E8] for the requested PID, and is left as it was otherwise. *)
Theorem wait_lights_led fuel a :
  obdLoopFunction (obd a) = WaitForObdResponse ->
  sub32 (wrap32 (uptime a)) (transitionTime (obd a)) < 100 ->
  qc_enabled (canDriver (obj (osys a))) = true -> (length (rxq a) <= fuel)%nat ->
  rxq (exec (waitForObdResponse fuel) a) = [] /\
  led (exec (waitForObdResponse fuel) a) =
    if existsb is_response (rxq a) then Some HIGH else led a.
Proof.
  intros Hf Hw Hen Hlen. unfold waitForObdResponse.
  rewrite !exec_bind, exec_millis, eval_millis. change (eval get_obd a) with (obd a).
  change (exec get_obd a) with a.
  rewrite (proj2 (Z.leb_gt _ _)) by exact Hw. rewrite exec_bind.
  destruct (drain_responses_queue fuel false a Hen Hlen) as (Hv & Hq & Hh & _).
  rewrite Hv. cbn [orb].
  revert Hq Hh. generalize (exec (drain_responses fuel false) a) as a'. intros a' Hq Hh.
  unfold led. destruct (existsb is_response (rxq a)); cbn [st_when].
  - unfold rxq in *. destruct a' as [o [ob h] u]. cbn in Hq, Hh |- *.
    split; [exact Hq|]. unfold upd. now rewrite decide_True.
  - rewrite exec_ret. now rewrite Hh.
Qed.

End Drain.

(** ** A late reply *)

(** The reply of an engine to the request: [04 41 0c ...]. *)
Definition rpm_reply : CANMessage :=
  {| id := OBD_REPLY_ID; extended := false; rtr := false; len := 8;
     data := [4; 65; 12; 26; 248; 0; 0; 0] |}.

Definition act_loop (a : ObdApp QChan LP) := exec (loop CarloopRevision2 8) a.
Definition act_tick (d : Z) (a : ObdApp QChan LP) := mkObdApp (obd a) (osys a) (uptime a + d).
Definition act_bus (m : CANMessage) (a : ObdApp QChan LP) := exec (on_osys (bus_frame m)) a.

(** A first request at uptime 0 is answered 160 ms later, after its
    window closed; a second request is sent at 600 ms and nothing
    answers it. *)
Definition late_reply_run : list (ObdApp QChan LP) :=
  let a0 := exec (setup CarloopRevision2) (mkObdApp Obd_init (rev2_world 2048) 0) in
  let a1 := act_loop a0 in                  (* request 1, window opens *)
  let a2 := act_loop (act_tick 150 a1) in   (* window closed, delay *)
  let a3 := act_bus rpm_reply (act_tick 10 a2) in   (* the late reply *)
  let a4 := act_loop (act_tick 440 a3) in   (* delay over *)
  let a5 := act_loop a4 in                  (* request 2, window opens *)
  let a6 := act_loop (act_tick 10 a5) in    (* inside the window *)
  [a0; a1; a2; a3; a4; a5; a6].

(** a reply that arrives after the 100 ms window stays in the
    receive queue through the delay and lights the LED in the window of
    the next request, which nothing answered: the LED was never lit in the
    first window, both requests were transmitted, and the only frame the
    bus delivered is the first request's late reply. *)
Theorem late_reply_lights_next_window :
  map (fun a => obdLoopFunction (obd a)) late_reply_run =
    [SendObdRequest; WaitForObdResponse; DelayUntilNextRequest; DelayUntilNextRequest;
     SendObdRequest; WaitForObdResponse; WaitForObdResponse] /\
  map led late_reply_run = [None; None; None; None; None; None; Some HIGH] /\
  qc_tx (canDriver (obj (osys (List.last late_reply_run (mkObdApp Obd_init (rev2_world 0) 0))))) =
    [obd_request; obd_request].
Proof. vm_compute. repeat split; reflexivity. Qed.

(** ** Witnesses *)

(** The window opened 50 ms before [millis()] wrapped; 110 ms later. *)
Definition straddling : ObdApp QChan LP :=
  mkObdApp (mkObd WaitForObdResponse (wrap32 (modulus32 - 50))) (rev2_world 0) (modulus32 + 60).

Lemma wait_window_wraps_witness :
  obdLoopFunction (obd (exec (loop CarloopRevision2 8) straddling)) = DelayUntilNextRequest <->
  100 <= uptime straddling - (modulus32 - 50).
Proof. apply wait_window_wraps; [reflexivity | reflexivity | unfold straddling, modulus32; cbn; lia]. Defined.

Lemma obd_requests_spaced_witness :
  spaced_by 500 (if decide (obdLoopFunction (obd (act_tick 700 (act_loop
              (exec (setup CarloopRevision2) (mkObdApp Obd_init (rev2_world 2048) 0))))) = SendObdRequest)
          then [0; 700] else [0]).
Proof.
  apply (obd_requests_spaced CarloopRevision2 (rev2_world 2048) 0
           (exec (loop CarloopRevision2 8) (act_tick 700 (act_loop
              (exec (setup CarloopRevision2) (mkObdApp Obd_init (rev2_world 2048) 0)))))).
  eapply star_step; [apply (obd_loop CarloopRevision2 8)|]. cbn [app].
  eapply star_step; [apply (obd_tick CarloopRevision2 700); lia|].
  eapply star_step; [apply (obd_loop CarloopRevision2 8)|].
  vm_compute. apply star_refl.
Defined.

(** Request 1 sent, its reply queued 10 ms later. *)
Definition answered : ObdApp QChan LP :=
  act_bus rpm_reply (act_tick 10 (act_loop
    (exec (setup CarloopRevision2) (mkObdApp Obd_init (rev2_world 2048) 0)))).

Lemma wait_lights_led_witness :
  rxq (exec (waitForObdResponse 8) answered) = [] /\
  led (exec (waitForObdResponse 8) answered) = if existsb is_response (rxq answered) then Some HIGH else led answered.
Proof. apply wait_lights_led; vm_compute; reflexivity || lia. Defined.

End ObdQueue.
